(** * Verification of the portfolio page's enhancement script (src/index.js)

    A shallow embedding of the script's event handlers over a small model of
    the DOM: class lists are ordered token lists, attributes are optional
    strings, pixel offsets are integers, node lists are lists in document
    order and an element is identified by its position in its node list.
    Handlers are functions from page state to page state; code that can
    throw runs in a state-and-exception monad, so that whatever was mutated
    before the exception stays mutated, as it does in the browser. *)

From stdpp Require Import base list strings gmap.
From Stdlib Require Import ZArith Lia Ascii.

Local Open Scope string_scope.
Local Open Scope list_scope.

(** ** JavaScript values used by the script *)
Module JS.

(** An attribute or dataset entry: [None] is [null] / [undefined]. *)
Definition attr := option string.

(** Truthiness of an attribute value: absent and empty are both falsy. *)
Definition truthy (a : attr) : bool :=
  match a with
  | Some s => negb (bool_decide (s = ""))
  | None => false
  end.

(** [a || d] for an attribute value [a] and a string literal [d]. *)
Definition or_default (a : attr) (d : string) : string :=
  match a with
  | Some s => if bool_decide (s = "") then d else s
  | None => d
  end.

(** Assigning a possibly undefined value to a reflected string property
    stringifies it. *)
Definition to_string (a : attr) : string :=
  match a with
  | Some s => s
  | None => "undefined"
  end.

(** [s.substring(1)]. *)
Definition substring1 (s : string) : string :=
  match s with
  | EmptyString => EmptyString
  | String _ r => r
  end.

(** [a || b] on numbers: zero is the falsy number. *)
Definition or_num (a b : Z) : Z := if Z.eqb a 0 then b else a.

(** The console methods the script calls: [log], [warn] and [error]. *)
Inductive level := Log | Warn | Error.

(** Exceptions the script can raise. *)
Inductive exn := TypeError (msg : string) | SyntaxError (msg : string).

End JS.

(** ** DOMTokenList *)
Module ClassList.

Abbreviation t := (list string).

Definition contains (c : string) (l : t) : bool := bool_decide (c ∈ l).

Definition add (c : string) (l : t) : t :=
  if contains c l then l else l ++ [c].

Definition remove (c : string) (l : t) : t := filter (λ x, x ≠ c) l.

Definition toggle (c : string) (l : t) : t :=
  if contains c l then remove c l else add c l.

End ClassList.

(** ** Loops over node lists *)
Module Dom.

(** [nodes.forEach(cb)] where the callback mutates the element it is handed
    and may throw: elements before the throwing one keep their mutation, the
    throwing one keeps what was done to it before the exception, the rest is
    never visited. *)
Fixpoint forEach {A : Type} (cb : A → A * option JS.exn) (nodes : list A)
  : list A * option JS.exn :=
  match nodes with
  | [] => ([], None)
  | x :: rest =>
      match cb x with
      | (x', Some e) => (x' :: rest, Some e)
      | (x', None) =>
          let '(rest', e) := forEach cb rest in (x' :: rest', e)
      end
  end.

End Dom.

(** ** Navigation highlighter (index.js, lines 320-343) *)
Module Navmenu.
Local Open Scope Z_scope.

(** A [<section>]: its [id] property (empty when the attribute is absent)
    and its layout box. *)
Record section_el := {
  sec_id : string;
  offsetTop : Z;
  offsetHeight : Z
}.

(** An anchor of [#navmenu]. *)
Record link := {
  href : JS.attr;
  classList : ClassList.t
}.

Record state := {
  sections : list section_el;
  navmenuLinks : list link;
  scrollY : Z
}.

(** The test of line 329. *)
Definition in_span (y : Z) (s : section_el) : bool :=
  let sectionTop := offsetTop s - 100 in
  let sectionBottom := sectionTop + offsetHeight s in
  (sectionTop <=? y) && (y <? sectionBottom).

(** Lines 325-332: [currentActive] starts as [null] and every containing
    section overwrites it. *)
Definition currentActive (y : Z) (secs : list section_el) : option string :=
  foldl (λ cur s, if in_span y s then Some (sec_id s) else cur) None secs.

(** The callback of lines 334-339 on one anchor.  [getAttribute('href')] is
    [null] on an anchor without the attribute, and [null.substring] throws
    after the class was already removed. *)
Definition activate_link (cur : option string) (l : link) : link * option JS.exn :=
  let l1 := {| href := href l; classList := ClassList.remove "active" (classList l) |} in
  match href l with
  | None => (l1, Some (JS.TypeError "null has no property substring"))
  | Some h =>
      if bool_decide (Some (JS.substring1 h) = cur)
      then ({| href := href l; classList := ClassList.add "active" (classList l1) |}, None)
      else (l1, None)
  end.

Definition activateNavmenuLink (st : state) : state * option JS.exn :=
  let '(links', e) :=
    Dom.forEach (activate_link (currentActive (scrollY st) (sections st)))
                (navmenuLinks st) in
  ({| sections := sections st; navmenuLinks := links'; scrollY := scrollY st |}, e).

(** A scroll event: the window moves to offset [y], then the listener of
    line 342 runs.  An exception escaping a listener is reported by the
    browser and the page lives on in the state reached. *)
Definition on_scroll (y : Z) (st : state) : state :=
  fst (activateNavmenuLink
         {| sections := sections st; navmenuLinks := navmenuLinks st; scrollY := y |}).

(** The call of line 343 followed by any number of scroll events. *)
Definition after_scrolls (ys : list Z) (st : state) : state :=
  foldl (λ s y, on_scroll y s) (fst (activateNavmenuLink st)) ys.

Definition is_active (l : link) : bool := ClassList.contains "active" (classList l).

Definition target (l : link) : option string := JS.substring1 <$> href l.

Definition active_links (st : state) : list link :=
  filter (λ l, is_active l = true) (navmenuLinks st).

(** Every anchor carries an [href] attribute. *)
Definition hrefs_present (links : list link) : Prop :=
  Forall (λ l, is_Some (href l)) links.

(** The last section, in document order, whose span contains [y]. *)
Definition last_containing (y : Z) (secs : list section_el) : option section_el :=
  last (filter (λ s, in_span y s = true) secs).

(** The page of the spec's example: three sections whose boxes start at 100,
    400 and 900, so that with the 100 px lookahead their spans are [0,300),
    [300,800) and [800,1200); one anchor per section, the first one marked
    active in the markup. *)
Definition example_page (y : Z) : state :=
  {| sections := [ {| sec_id := "hero"; offsetTop := 100; offsetHeight := 300 |};
                   {| sec_id := "about"; offsetTop := 400; offsetHeight := 500 |};
                   {| sec_id := "resume"; offsetTop := 900; offsetHeight := 400 |} ];
     navmenuLinks := [ {| href := Some "#hero"; classList := ["active"] |};
                       {| href := Some "#about"; classList := [] |};
                       {| href := Some "#resume"; classList := [] |} ];
     scrollY := y |}.

End Navmenu.

(** ** Browser timers *)
Module Timers.
Section Timers.
Local Open Scope Z_scope.

(** What a timer callback acts on. *)
Context {D : Type}.

(** The table of live timers: identifier, earliest firing time, callback.
    Identifiers are handed out in increasing order and never reused. *)
Record table := {
  pending : list (nat * (Z * (D → D)));
  next_id : nat
}.

Definition empty : table := {| pending := []; next_id := 1 |}.

(** [setTimeout(cb, delay)] at time [now]. *)
Definition setTimeout (now : Z) (cb : D → D) (delay : Z) (tb : table) : nat * table :=
  (next_id tb,
   {| pending := pending tb ++ [(next_id tb, (now + delay, cb))];
      next_id := S (next_id tb) |}).

(** [clearTimeout(id)]: [undefined] and identifiers of timers that are gone
    are ignored. *)
Definition clearTimeout (id : option nat) (tb : table) : table :=
  match id with
  | None => tb
  | Some i => {| pending := filter (λ e, e.1 ≠ i) (pending tb); next_id := next_id tb |}
  end.

(** The callback of timer [id] when the browser may run it at time [now]:
    the timer is live and its delay has elapsed. *)
Definition due (now : Z) (id : nat) (tb : table) : option (D → D) :=
  match list_find (λ e, e.1 = id) (pending tb) with
  | Some (_, (_, (deadline, cb))) => if deadline <=? now then Some cb else None
  | None => None
  end.

(** A timer that ran is gone. *)
Definition expire (id : nat) (tb : table) : table :=
  {| pending := filter (λ e, e.1 ≠ id) (pending tb); next_id := next_id tb |}.

End Timers.
Arguments table : clear implicits.
End Timers.

(** ** Debounced scroll handling (index.js, lines 119-140 and 351-366) *)
Module Scroll.
Local Open Scope Z_scope.

Record window := {
  pageYOffset : Z;
  (** [document.documentElement.scrollTop] *)
  docScrollTop : Z
}.

(** The part of the document the scroll code reads and writes. *)
Record dom := {
  win : window;
  (** [#scroll-top], when the page has one *)
  scrollTopButton : option ClassList.t;
  (** whether [#preloader] is in the document *)
  preloader : bool;
  console : list (JS.level * string)
}.

(** Line 131. *)
Definition scrollTop (w : window) : Z := JS.or_num (pageYOffset w) (docScrollTop w).

(** The function handed to [debounce] (lines 128-140). *)
Definition handleScroll_body (d : dom) : dom :=
  match scrollTopButton d with
  | Some cl =>
      {| win := win d;
         scrollTopButton :=
           Some (if 100 <? scrollTop (win d)
                 then ClassList.add "active" cl
                 else ClassList.remove "active" cl);
         preloader := preloader d;
         console := console d |}
  | None => d
  end.

(** The page as the scroll code sees it: the document, the timer table, the
    [timeout] variable captured by the closure that [debounce] returned, and
    whether that closure listens to scroll events yet. *)
Record page := {
  document : dom;
  timers : Timers.table dom;
  timeout : option nat;
  listening : bool;
  clock : Z
}.

(** The body of the function returned by [debounce(func, delay)], called at
    time [now] (lines 121-125).  The handler ignores its arguments and
    [this], so the scheduled callback is [func] itself. *)
Definition debounce (func : dom → dom) (delay : Z) (now : Z) (p : page) : page :=
  let cleared := Timers.clearTimeout (timeout p) (timers p) in
  let '(id, tb) := Timers.setTimeout now func delay cleared in
  {| document := document p; timers := tb; timeout := Some id;
     listening := listening p; clock := now |}.

Definition handleScroll : Z → page → page := debounce handleScroll_body 100.

Definition log (msg : string) (d : dom) : dom :=
  {| win := win d; scrollTopButton := scrollTopButton d;
     preloader := preloader d; console := console d ++ [(JS.Log, msg)] |}.

(** The window [load] listener (lines 351-366). *)
Definition on_load (now : Z) (p : page) : page :=
  let d := log "Window Loaded: Finalizing optimizations..." (document p) in
  let d := log "Concept: Unused CSS removal is best handled by build tools." d in
  let p1 := {| document := d; timers := timers p; timeout := timeout p;
               listening := true; clock := clock p |} in
  let p2 := handleScroll now p1 in
  {| document := {| win := win (document p2);
                    scrollTopButton := scrollTopButton (document p2);
                    preloader := false;
                    console := console (document p2) |};
     timers := timers p2; timeout := timeout p2;
     listening := listening p2; clock := clock p2 |}.

(** What can happen to the page: the load event, the user scrolling the
    window to a new position, and the browser running a timer. *)
Inductive event :=
| Load (now : Z)
| ScrollTo (now : Z) (w : window)
| Timer (now : Z) (id : nat).

Definition time_of (e : event) : Z :=
  match e with Load t | ScrollTo t _ | Timer t _ => t end.

Definition scroll_to (w : window) (d : dom) : dom :=
  {| win := w; scrollTopButton := scrollTopButton d;
     preloader := preloader d; console := console d |}.

(** One event.  [None] when the browser cannot produce it: time does not
    run backwards and a timer runs only when it is live and due. *)
Definition step (e : event) (p : page) : option page :=
  if time_of e <? clock p then None else
  match e with
  | Load t => Some (on_load t p)
  | ScrollTo t w =>
      let p1 := {| document := scroll_to w (document p); timers := timers p;
                   timeout := timeout p; listening := listening p; clock := t |} in
      Some (if listening p then handleScroll t p1 else p1)
  | Timer t id =>
      match Timers.due t id (timers p) with
      | Some cb =>
          Some {| document := cb (document p);
                  timers := Timers.expire id (timers p);
                  timeout := timeout p; listening := listening p; clock := t |}
      | None => None
      end
  end.

Fixpoint run (tr : list event) (p : page) : option page :=
  match tr with
  | [] => Some p
  | e :: tr' =>
      match step e p with
      | Some p' => run tr' p'
      | None => None
      end
  end.

(** The page when the script has been evaluated and no event has been
    delivered yet. *)
Definition fresh (d : dom) (t0 : Z) : page :=
  {| document := d; timers := Timers.empty; timeout := None;
     listening := false; clock := t0 |}.

(** The events that call the debounced handler, with their time. *)
Definition schedules (e : event) (c : Z) : Prop :=
  e = Load c ∨ ∃ w, e = ScrollTo c w.

(** What holds of the timer table between events: nothing is scheduled
    before the listener exists, and at most one timer is live, namely the
    one the closure's [timeout] variable names, carrying the handler. *)
Definition coalesced (p : page) : Prop :=
  (listening p = false → Timers.pending (timers p) = []) ∧
  (Timers.pending (timers p) = [] ∨
   ∃ id dl, Timers.pending (timers p) = [(id, (dl, handleScroll_body))]
            ∧ timeout p = Some id).

(** A page with a scroll-to-top control, at the top of the document. *)
Definition example_dom : dom :=
  {| win := {| pageYOffset := 0; docScrollTop := 0 |};
     scrollTopButton := Some ["scroll-top"];
     preloader := true;
     console := [] |}.

Definition at_offset (y : Z) : window := {| pageYOffset := y; docScrollTop := y |}.

End Scroll.

(** ** Lazy image loader (index.js, lines 11-44) *)
Module LazyLoad.

(** An [<img>]: the live attributes and the deferred ones. *)
Record img := {
  src : JS.attr;
  srcset : JS.attr;
  data_src : JS.attr;
  data_srcset : JS.attr
}.

(** The images of the document in document order, the targets the
    intersection observer watches, and the targets of the calls
    [removeAttribute('data-src')] made so far, oldest first. *)
Record state := {
  images : list img;
  observed : gset nat;
  removals : list nat
}.

Definition initial (imgs : list img) : state :=
  {| images := imgs; observed := ∅; removals := [] |}.

(** The selector [img[data-src]]: the attribute is there, whatever it holds. *)
Definition is_lazy (im : img) : bool :=
  match data_src im with Some _ => true | None => false end.

(** Line 12: positions of the matching images. *)
Definition lazyImages (imgs : list img) : list nat :=
  filter (λ i, is_lazy <$> (imgs !! i) = Some true) (seq 0 (length imgs)).

(** Lines 19-24, and again 36-41: the four statements run on one image. *)
Definition resolve (im : img) : img :=
  {| src := Some (JS.to_string (data_src im));
     srcset := if JS.truthy (data_srcset im) then data_srcset im else srcset im;
     data_src := None;
     data_srcset := None |}.

Definition load (i : nat) (st : state) : state :=
  {| images := alter resolve i (images st);
     observed := observed st;
     removals := removals st ++ [i] |}.

Definition unobserve (i : nat) (st : state) : state :=
  {| images := images st; observed := observed st ∖ {[i]}; removals := removals st |}.

Definition observe (i : nat) (st : state) : state :=
  {| images := images st; observed := observed st ∪ {[i]}; removals := removals st |}.

Record entry := {
  target : nat;
  isIntersecting : bool
}.

(** The observer's callback (lines 15-28): its body on one entry, and the
    loop over the batch. *)
Definition on_entry (st : state) (e : entry) : state :=
  if isIntersecting e then unobserve (target e) (load (target e) st) else st.

Definition imageObserver (entries : list entry) (st : state) : state :=
  foldl on_entry st entries.

(** [lazyLoadImages()], given whether ['IntersectionObserver' in window]. *)
Definition lazyLoadImages (has_IntersectionObserver : bool) (st : state) : state :=
  if has_IntersectionObserver
  then foldl (λ st i, observe i st) st (lazyImages (images st))
  else foldl (λ st i, load i st) st (lazyImages (images st)).

(** The targets a batch of entries reports as intersecting. *)
Definition intersecting (entries : list entry) : list nat :=
  target <$> filter (λ e, isIntersecting e = true) entries.

(** What the browser hands to the callback: entries of targets the observer
    watches, and no target reported as intersecting twice in one batch. *)
Definition deliverable (entries : list entry) (st : state) : Prop :=
  Forall (λ e, target e ∈ observed st) entries ∧ NoDup (intersecting entries).

Global Instance deliverable_dec entries st : Decision (deliverable entries st).
Proof. unfold deliverable. apply _. Defined.

(** The batches delivered over the life of the page, in order. *)
Fixpoint deliver (batches : list (list entry)) (st : state) : option state :=
  match batches with
  | [] => Some st
  | b :: rest =>
      if decide (deliverable b st) then deliver rest (imageObserver b st) else None
  end.

Definition intersected (i : nat) (batches : list (list entry)) : bool :=
  bool_decide (Exists (λ b, i ∈ intersecting b) batches).

(** How often [removeAttribute('data-src')] ran on image [i]. *)
Definition removal_count (i : nat) (st : state) : nat :=
  length (filter (λ j, j = i) (removals st)).

(** Image [i], deferred as [im], has not been touched yet. *)
Definition waiting (i : nat) (im : img) (st : state) : Prop :=
  images st !! i = Some im ∧ i ∈ observed st ∧ removal_count i st = 0.

(** Image [i], deferred as [im], went through lines 19-25 exactly once. *)
Definition resolved (i : nat) (im : img) (st : state) : Prop :=
  images st !! i = Some (resolve im) ∧ (i ∉ observed st) ∧ removal_count i st = 1.

(** An image whose deferred source set is present but empty, over a live
    source set written in the markup. *)
Definition empty_srcset_img : img :=
  {| src := None; srcset := Some "small.jpg 1x";
     data_src := Some "large.jpg"; data_srcset := Some "" |}.

(** A page with three images: one above the fold with a source set, one
    below the fold, and one that was never deferred. *)
Definition example_images : list img :=
  [ {| src := None; srcset := None;
       data_src := Some "hero.jpg"; data_srcset := Some "hero-2x.jpg 2x" |};
    {| src := Some "placeholder.gif"; srcset := None;
       data_src := Some "about.jpg"; data_srcset := None |};
    {| src := Some "logo.png"; srcset := None;
       data_src := None; data_srcset := None |} ].

End LazyLoad.

(** ** Masonry grids and their filter bars (index.js, lines 176-198 and 265-296) *)
Module Grid.
Section Grid.

(** An element of a grid, and the grid library's test that an element
    matches a filter value other than the wildcard.  The library is not part
    of the repository; the script only hands it the value. *)
Context {item : Type} (matches_filter : string → item → bool).

(** The options of an Isotope instance. *)
Record options := {
  itemSelector : string;
  layoutMode : string;
  filter : JS.attr;
  sortBy : string
}.

(** An [<li>] of a filter bar, with its [data-filter]. *)
Record li := {
  li_classes : ClassList.t;
  li_filter : JS.attr
}.

(** A filter bar: whether it matches [.isotope-filters], whether its items
    match [.portfolio-filters li], and its items. *)
Record bar := {
  is_isotope_filters : bool;
  in_portfolio_filters : bool;
  lis : list li
}.

(** An [.isotope-layout] container: its data markers, its elements, the
    instance attached to it ([Isotope.data(container)]) and how many
    instances were constructed on it. *)
Record grid := {
  data_layout : JS.attr;
  data_default_filter : JS.attr;
  data_sort : JS.attr;
  items : list item;
  instance : option options;
  created : nat
}.

(** A stretch of the document: a filter bar, if there is one, followed by a
    grid container, if there is one.  [filtersElem] is the container's
    [previousElementSibling]; [wired] tells whether the listener of line 282
    is attached to it. *)
Record block := {
  filtersElem : option bar;
  container : option grid;
  wired : bool
}.

Record page := {
  blocks : list block;
  (** [typeof Isotope !== 'undefined'] *)
  has_Isotope : bool;
  (** the listener of line 177 is attached to [document.body] *)
  delegated : bool
}.

(** Modelled from the spec: the items the grid library shows for a filter
    value, which is library code outside src/.  The wildcard shows every
    item, any other value the items matching it, no value hides nothing. *)
Definition visible (g : grid) : list item :=
  match instance g with
  | Some {| filter := Some v |} =>
      if bool_decide (v = "*") then items g
      else base.filter (λ it, matches_filter v it = true) (items g)
  | _ => items g
  end.

Definition set_classes (f : ClassList.t → ClassList.t) (l : li) : li :=
  {| li_classes := f (li_classes l); li_filter := li_filter l |}.

Definition set_lis (f : list li → list li) (blk : block) : block :=
  {| filtersElem :=
       (λ b, {| is_isotope_filters := is_isotope_filters b;
                in_portfolio_filters := in_portfolio_filters b;
                lis := f (lis b) |}) <$> filtersElem blk;
     container := container blk;
     wired := wired blk |}.

Definition set_grid (f : grid → grid) (blk : block) : block :=
  {| filtersElem := filtersElem blk;
     container := f <$> container blk;
     wired := wired blk |}.

(** [iso.arrange({ filter: v })] on the instance of a container. *)
Definition arrange (v : JS.attr) (g : grid) : grid :=
  {| data_layout := data_layout g;
     data_default_filter := data_default_filter g;
     data_sort := data_sort g;
     items := items g;
     instance :=
       (λ o, {| itemSelector := itemSelector o; layoutMode := layoutMode o;
                filter := v; sortBy := sortBy o |}) <$> instance g;
     created := created g |}.

(** Lines 268-277 on one container. *)
Definition new_Isotope (g : grid) : grid :=
  let layout := JS.or_default (data_layout g) "masonry" in
  let filter := JS.or_default (data_default_filter g) "*" in
  let sort := JS.or_default (data_sort g) "original-order" in
  {| data_layout := data_layout g;
     data_default_filter := data_default_filter g;
     data_sort := data_sort g;
     items := items g;
     instance := Some {| itemSelector := ".isotope-item"; layoutMode := layout;
                         filter := Some filter; sortBy := sort |};
     created := S (created g) |}.

(** The callback of line 267 on one block: nothing to do without a container;
    otherwise construct the instance and, when the previous sibling is an
    [.isotope-filters] bar, attach the click listener. *)
Definition init_block (blk : block) : block :=
  match container blk with
  | None => blk
  | Some g =>
      {| filtersElem := filtersElem blk;
         container := Some (new_Isotope g);
         wired := match filtersElem blk with
                  | Some b => if is_isotope_filters b then true else wired blk
                  | None => wired blk
                  end |}
  end.

(** Lines 266-296. *)
Definition init_isotope (pg : page) : page :=
  if has_Isotope pg
  then {| blocks := init_block <$> blocks pg;
          has_Isotope := has_Isotope pg; delegated := delegated pg |}
  else pg.

(** The [<li>] number [j] of the bar of block [k], if there is one. *)
Definition bar_of (k : nat) (bs : list block) : option bar :=
  match bs !! k with
  | Some blk => filtersElem blk
  | None => None
  end.

Definition target_li (k j : nat) (bs : list block) : option li :=
  match bar_of k bs with
  | Some b => lis b !! j
  | None => None
  end.

(** [event.target.dataset.filter] *)
Definition filter_value (k j : nat) (bs : list block) : JS.attr :=
  match target_li k j bs with
  | Some l => li_filter l
  | None => None
  end.

(** Lines 285-288 and 181-183 share their shape: clear the class from a
    list of items, then add it to the clicked one. *)
Definition clear_active (ls : list li) : list li :=
  set_classes (ClassList.remove "filter-active") <$> ls.

Definition mark_active (j : nat) (ls : list li) : list li :=
  alter (set_classes (ClassList.add "filter-active")) j ls.

(** Lines 285-291 on the block of the bar: every item is cleared, item [j]
    is marked, the grid is re-arranged with the value [v]. *)
Definition activated (j : nat) (v : JS.attr) (blk : block) : block :=
  set_grid (arrange v) (set_lis (λ ls, mark_active j (clear_active ls)) blk).

(** The listener of line 282 on the bar of block [k], for a click whose
    target is the bar's item [j]. *)
Definition bar_listener (k j : nat) (bs : list block) : list block :=
  alter (activated j (filter_value k j bs)) k bs.

(** Line 186: the first [.isotope-layout] container of the document. *)
Definition first_container (bs : list block) : option nat :=
  fst <$> list_find (λ blk, is_Some (container blk)) bs.

(** Lines 181-182 on one block: the items of a bar matching
    [.portfolio-filters li] lose the class. *)
Definition clear_portfolio (blk : block) : block :=
  match filtersElem blk with
  | Some b => if in_portfolio_filters b then set_lis clear_active blk else blk
  | None => blk
  end.

(** Lines 181-193 with the container [c] and the value [v] fixed: clear,
    mark the target, and re-arrange the container, if any. *)
Definition delegate (c : option nat) (v : JS.attr) (k j : nat) (bs : list block)
  : list block :=
  let bs2 := alter (set_lis (mark_active j)) k (clear_portfolio <$> bs) in
  match c with
  | Some c => alter (set_grid (arrange v)) c bs2
  | None => bs2
  end.

(** [delegate] block by block. *)
Definition delegate_block (c : option nat) (v : JS.attr) (k j i : nat) (blk : block) : block :=
  let blk1 := clear_portfolio blk in
  let blk2 := if decide (k = i) then set_lis (mark_active j) blk1 else blk1 in
  if decide (c = Some i) then set_grid (arrange v) blk2 else blk2.

(** The listener of line 177 on the body, for the same click. *)
Definition body_listener (isotope : bool) (k j : nat) (bs : list block) : list block :=
  match bar_of k bs with
  | Some b =>
      if in_portfolio_filters b then
        let filterValue := filter_value k j bs in
        let bs1 := clear_portfolio <$> bs in
        let bs2 := alter (set_lis (mark_active j)) k bs1 in
        if isotope then
          match first_container bs2 with
          | Some c => alter (set_grid (arrange filterValue)) c bs2
          | None => bs2
          end
        else bs2
      else bs
  | None => bs
  end.

(** A click on item [j] of the bar of block [k]: the event bubbles to the
    bar, whose listener runs if it is attached, then to the body.  [None]
    when the document has no such item. *)
Definition click (k j : nat) (pg : page) : option page :=
  match blocks pg !! k, target_li k j (blocks pg) with
  | Some blk, Some _ =>
      let bs1 := if wired blk then bar_listener k j (blocks pg) else blocks pg in
      let bs2 := if delegated pg
                 then body_listener (has_Isotope pg) k j bs1 else bs1 in
      Some {| blocks := bs2; has_Isotope := has_Isotope pg; delegated := delegated pg |}
  | _, _ => None
  end.

Definition is_filter_active (l : li) : bool :=
  ClassList.contains "filter-active" (li_classes l).

(** What no listener changes of a block: which selectors its bar matches,
    the filter values of the bar's items, whether it has a container, and
    whether the bar's listener is attached. *)
Definition skeleton (blk : block)
  : option (bool * bool * list JS.attr) * bool * bool :=
  ((λ b, (is_isotope_filters b, in_portfolio_filters b, li_filter <$> lis b))
     <$> filtersElem blk,
   bool_decide (is_Some (container blk)),
   wired blk).

End Grid.

Arguments grid : clear implicits.
Arguments block : clear implicits.
Arguments page : clear implicits.

(** A portfolio page in the shape of the template the script was written
    for: one bar with three controls in front of one grid whose elements
    are named by their category class, the filter values being class
    selectors. *)
Definition example_matches (v : string) (it : string) : bool :=
  bool_decide (v = String.append "." it).

Definition example_page : page string :=
  {| blocks :=
       [ {| filtersElem :=
              Some {| is_isotope_filters := true;
                      in_portfolio_filters := true;
                      lis := [ {| li_classes := ["filter-active"]; li_filter := Some "*" |};
                               {| li_classes := []; li_filter := Some ".filter-app" |};
                               {| li_classes := []; li_filter := Some ".filter-web" |} ] |};
            container :=
              Some {| data_layout := Some "masonry";
                      data_default_filter := None;
                      data_sort := None;
                      items := ["filter-app"; "filter-web"; "filter-app"];
                      instance := None;
                      created := 0 |};
            wired := false |} ];
     has_Isotope := true;
     delegated := true |}.

End Grid.

(** ** State and exceptions *)
Module Eff.

Inductive result (A : Type) :=
| Ok (a : A)
| Throw (e : JS.exn).
Arguments Ok {A} a.
Arguments Throw {A} e.

(** A computation over state [S]: it returns or throws, and either way
    leaves the state it reached. *)
Definition M (S A : Type) : Type := S → result A * S.

Global Instance M_ret {S} : MRet (M S) := λ A a s, (Ok a, s).

Global Instance M_bind {S} : MBind (M S) := λ A B k m s,
  match m s with
  | (Ok a, s') => k a s'
  | (Throw e, s') => (Throw e, s')
  end.

Definition throw {S A} (e : JS.exn) : M S A := λ s, (Throw e, s).

Definition modify {S} (f : S → S) : M S unit := λ s, (Ok tt, f s).

Definition gets {S A} (f : S → A) : M S A := λ s, (Ok (f s), s).

(** [if (c) { m }] *)
Definition when {S} (c : bool) (m : M S unit) : M S unit :=
  if c then m else mret tt.

(** [xs.forEach(cb)] for a callback that does not mutate [xs]. *)
Fixpoint forEach {S A} (cb : A → M S unit) (xs : list A) : M S unit :=
  match xs with
  | [] => mret tt
  | x :: rest => cb x ;; forEach cb rest
  end.

(** [m] changes nothing of what [f] observes, whether it returns or throws. *)
Definition preserves {S A X} (f : S → X) (m : M S A) : Prop :=
  ∀ s, f (m s).2 = f s.

(** From a state satisfying [P], [m] either returns in a state satisfying
    [Q] or throws in a state satisfying [E]. *)
Definition spec {S A} (P : S → Prop) (m : M S A) (Q E : S → Prop) : Prop :=
  ∀ s, P s → match m s with
             | (Ok _, s') => Q s'
             | (Throw _, s') => E s'
             end.

(** From states satisfying [I], [m] returns and re-establishes [I]. *)
Definition returns {S A} (I : S → Prop) (m : M S A) : Prop :=
  ∀ s, I s → ∃ a s', m s = (Ok a, s') ∧ I s'.

End Eff.

(** ** The DOMContentLoaded listener (index.js, lines 204-345) *)
Module Ready.
Import Eff.
Local Open Scope Z_scope.

(** [s.split(',')] *)
Fixpoint split_comma (s : string) : list string :=
  match s with
  | EmptyString => [EmptyString]
  | String c r =>
      if bool_decide (c = ","%char) then EmptyString :: split_comma r
      else match split_comma r with
           | h :: t => String c h :: t
           | [] => [String c EmptyString]
           end
  end.

(** Which optional globals the page has loaded.  [Isotope] is recorded with
    the grids. *)
Record globals := {
  has_IntersectionObserver : bool;
  has_FontFaceObserver : bool;
  has_AOS : bool;
  has_Typed : bool;
  has_PureCounter : bool;
  has_GLightbox : bool;
  has_Swiper : bool
}.

(** An [.init-swiper] element: its [.swiper-config] child may be missing;
    otherwise the child has some [innerHTML], which [JSON.parse] accepts or
    rejects. *)
Inductive swiper_el :=
| NoConfig
| Config (innerHTML : string) (is_json : bool).

(** [document.querySelector(window.location.hash)]: the hash may not be a
    valid selector, may match nothing, or matches an element with some
    [offsetTop]. *)
Inductive hash_query :=
| InvalidSelector
| NoMatch
| Match (offsetTop : Z).

(** Calls into the optional libraries and the window. *)
Inductive call :=
| FontFaceObserver_load (families : list string)
| AOS_init
| New_Typed (strings : list string)
| New_PureCounter
| GLightbox_init
| New_Swiper (config : string)
| Window_scrollTo (top : Z).

Section Ready.
Context {item : Type}.

Record page := {
  env : globals;
  console : list (JS.level * string);
  calls : list call;
  (** classes of [document.documentElement] *)
  root_classes : ClassList.t;
  lazy : LazyLoad.state;
  (** the [.typed] element, if any, with its [data-typed-items] *)
  typed : option JS.attr;
  swipers : list swiper_el;
  grids : Grid.page item;
  (** [window.location.hash] and what querying it gives *)
  hash : string;
  hash_target : hash_query;
  (** [.header-toggle] and [#header], and whether the listener of line 313
      is attached *)
  headerToggle : option ClassList.t;
  header : option ClassList.t;
  header_wired : bool;
  nav : Navmenu.state;
  (** whether the listener of line 342 is attached *)
  nav_wired : bool
}.

Definition set_console (f : list (JS.level * string) → list (JS.level * string))
    (p : page) : page :=
  {| env := env p; console := f (console p); calls := calls p;
     root_classes := root_classes p; lazy := lazy p; typed := typed p;
     swipers := swipers p; grids := grids p; hash := hash p;
     hash_target := hash_target p; headerToggle := headerToggle p;
     header := header p; header_wired := header_wired p; nav := nav p;
     nav_wired := nav_wired p |}.

Definition set_calls (f : list call → list call) (p : page) : page :=
  {| env := env p; console := console p; calls := f (calls p);
     root_classes := root_classes p; lazy := lazy p; typed := typed p;
     swipers := swipers p; grids := grids p; hash := hash p;
     hash_target := hash_target p; headerToggle := headerToggle p;
     header := header p; header_wired := header_wired p; nav := nav p;
     nav_wired := nav_wired p |}.


Definition set_lazy (f : LazyLoad.state → LazyLoad.state) (p : page) : page :=
  {| env := env p; console := console p; calls := calls p;
     root_classes := root_classes p; lazy := f (lazy p); typed := typed p;
     swipers := swipers p; grids := grids p; hash := hash p;
     hash_target := hash_target p; headerToggle := headerToggle p;
     header := header p; header_wired := header_wired p; nav := nav p;
     nav_wired := nav_wired p |}.

Definition set_grids (f : Grid.page item → Grid.page item) (p : page) : page :=
  {| env := env p; console := console p; calls := calls p;
     root_classes := root_classes p; lazy := lazy p; typed := typed p;
     swipers := swipers p; grids := f (grids p); hash := hash p;
     hash_target := hash_target p; headerToggle := headerToggle p;
     header := header p; header_wired := header_wired p; nav := nav p;
     nav_wired := nav_wired p |}.

Definition set_header (t h : option ClassList.t) (w : bool) (p : page) : page :=
  {| env := env p; console := console p; calls := calls p;
     root_classes := root_classes p; lazy := lazy p; typed := typed p;
     swipers := swipers p; grids := grids p; hash := hash p;
     hash_target := hash_target p; headerToggle := t;
     header := h; header_wired := w; nav := nav p;
     nav_wired := nav_wired p |}.

Definition set_nav (n : Navmenu.state) (w : bool) (p : page) : page :=
  {| env := env p; console := console p; calls := calls p;
     root_classes := root_classes p; lazy := lazy p; typed := typed p;
     swipers := swipers p; grids := grids p; hash := hash p;
     hash_target := hash_target p; headerToggle := headerToggle p;
     header := header p; header_wired := header_wired p; nav := n;
     nav_wired := w |}.

Definition print (lv : JS.level) (msg : string) : M page unit :=
  modify (set_console (λ c, c ++ [(lv, msg)])).

Definition invoke (c : call) : M page unit :=
  modify (set_calls (λ cs, cs ++ [c])).

(** Line 208. *)
Definition lazyLoadImages : M page unit :=
  io ← gets (λ p, has_IntersectionObserver (env p));
  modify (set_lazy (LazyLoad.lazyLoadImages io)).

(** Lines 79-101.  The promise settles later, see [fonts_loaded] and
    [fonts_failed]. *)
Definition optimizeFontLoading : M page unit :=
  ffo ← gets (λ p, has_FontFaceObserver (env p));
  if ffo : bool
  then invoke (FontFaceObserver_load ["Roboto"; "Raleway"; "Poppins"])
  else print JS.Warn "FontFaceObserver not found. Font optimization skipped.".



(** Lines 176-198: the click listener is attached to the body. *)
Definition setupEventDelegation : M page unit :=
  modify (set_grids (λ g, {| Grid.blocks := Grid.blocks g;
                             Grid.has_Isotope := Grid.has_Isotope g;
                             Grid.delegated := true |})).

(** Lines 220-227. *)
Definition init_AOS : M page unit :=
  aos ← gets (λ p, has_AOS (env p));
  when aos (invoke AOS_init).

(** Lines 230-243. *)
Definition init_Typed : M page unit :=
  ty ← gets (λ p, has_Typed (env p));
  when ty (
    typedElement ← gets typed;
    match typedElement with
    | Some typed_strings =>
        match typed_strings with
        | Some s => invoke (New_Typed (split_comma s))
        | None => throw (JS.TypeError "null has no property split")
        end
    | None => mret tt
    end).

(** Lines 246-255. *)
Definition init_PureCounter : M page unit :=
  pc ← gets (λ p, has_PureCounter (env p));
  when pc (invoke New_PureCounter).

Definition init_GLightbox : M page unit :=
  gl ← gets (λ p, has_GLightbox (env p));
  when gl (invoke GLightbox_init).

(** Lines 258-263. *)
Definition init_Swiper : M page unit :=
  sw ← gets (λ p, has_Swiper (env p));
  when sw (
    els ← gets swipers;
    forEach (λ swiperElement,
      match swiperElement with
      | NoConfig => throw (JS.TypeError "null has no property innerHTML")
      | Config html is_json =>
          if is_json then invoke (New_Swiper html)
          else throw (JS.SyntaxError "JSON.parse")
      end) els).

(** Lines 266-296. *)
Definition init_Isotope : M page unit :=
  modify (set_grids Grid.init_isotope).

(** Lines 299-307. *)
Definition smooth_scroll : M page unit :=
  h ← gets hash;
  when (negb (bool_decide (h = ""))) (
    targetElement ← gets hash_target;
    match targetElement with
    | InvalidSelector => throw (JS.SyntaxError "querySelector")
    | NoMatch => mret tt
    | Match top => invoke (Window_scrollTo top)
    end).

(** Lines 310-318. *)
Definition wire_header_toggle : M page unit :=
  modify (λ p, match headerToggle p, header p with
               | Some t, Some h => set_header (Some t) (Some h) true p
               | _, _ => p
               end).

(** [activateNavmenuLink()] on the page's menu. *)
Definition activateNavmenuLink : M page unit :=
  λ p, let '(n, e) := Navmenu.activateNavmenuLink (nav p) in
       (match e with Some e => Throw e | None => Ok tt end,
        set_nav n (nav_wired p) p).

(** Lines 321-343: the listener is attached, then run once. *)
Definition wire_navmenu : M page unit :=
  modify (λ p, set_nav (nav p) true p) ;;
  activateNavmenuLink.

(** The listener of line 204. *)
Definition domContentLoaded : M page unit :=
  print JS.Log "DOM Content Loaded: Initializing optimizations..." ;;
  lazyLoadImages ;;
  optimizeFontLoading ;;
  setupEventDelegation ;;
  init_AOS ;;
  init_Typed ;;
  init_PureCounter ;;
  init_GLightbox ;;
  init_Swiper ;;
  init_Isotope ;;
  smooth_scroll ;;
  wire_header_toggle ;;
  wire_navmenu.

(** The listener up to and including [optimizeFontLoading], and after it. *)
Definition ready_prefix : M page unit :=
  print JS.Log "DOM Content Loaded: Initializing optimizations..." ;;
  lazyLoadImages ;; optimizeFontLoading.

Definition ready_rest : M page unit :=
  setupEventDelegation ;; init_AOS ;; init_Typed ;; init_PureCounter ;;
  init_GLightbox ;; init_Swiper ;; init_Isotope ;; smooth_scroll ;;
  wire_header_toggle ;; wire_navmenu.

(** What the listener can change of the grids: the blocks, given whether
    [Isotope] is defined; and what lines 266-296 make of it. *)
Definition grid_view (p : page) : list (Grid.block item) * bool :=
  (Grid.blocks (grids p), Grid.has_Isotope (grids p)).

Definition grid_view_init (v : list (Grid.block item) * bool)
  : list (Grid.block item) * bool :=
  (if v.2 then Grid.init_block <$> v.1 else v.1, v.2).


(** The listener of line 313, for a click on [.header-toggle]. *)
Definition header_toggle_click (p : page) : page :=
  if header_wired p then
    set_header
      (ClassList.toggle "bi-x" <$> (ClassList.toggle "bi-list" <$> headerToggle p))
      (ClassList.toggle "header-show" <$> header p)
      (header_wired p) p
  else p.

(** The four places where the listener can throw are harmless on this
    page: the typed element has its items, every slider has a JSON
    configuration, the hash is a valid selector, every anchor of the menu
    has an href. *)
Definition safe (p : page) : Prop :=
  (has_Typed (env p) = true → typed p ≠ Some None)
  ∧ (has_Swiper (env p) = true →
     Forall (λ el, ∃ html, el = Config html true) (swipers p))
  ∧ (hash p ≠ "" → hash_target p ≠ InvalidSelector)
  ∧ Navmenu.hrefs_present (Navmenu.navmenuLinks (nav p)).

(** Two class attributes, both present or both absent, with the same
    tokens. *)
Definition same_classes (a b : option ClassList.t) : Prop :=
  match a, b with
  | Some x, Some y => ∀ c, c ∈ x ↔ c ∈ y
  | None, None => True
  | _, _ => False
  end.

End Ready.
Arguments page : clear implicits.

(** A page without any of the optional libraries, and the same page with
    all of them. *)
Definition no_globals : globals :=
  {| has_IntersectionObserver := false; has_FontFaceObserver := false;
     has_AOS := false; has_Typed := false; has_PureCounter := false;
     has_GLightbox := false; has_Swiper := false |}.

Definition all_globals : globals :=
  {| has_IntersectionObserver := true; has_FontFaceObserver := true;
     has_AOS := true; has_Typed := true; has_PureCounter := true;
     has_GLightbox := true; has_Swiper := true |}.

Definition example_page (e : globals) (isotope : bool) (typed_items : JS.attr)
  : page string :=
  {| env := e;
     console := [];
     calls := [];
     root_classes := [];
     lazy := LazyLoad.initial LazyLoad.example_images;
     typed := Some typed_items;
     swipers := [Config "{}" true];
     grids := {| Grid.blocks := Grid.blocks Grid.example_page;
                 Grid.has_Isotope := isotope;
                 Grid.delegated := false |};
     hash := "#about";
     hash_target := Match 400;
     headerToggle := Some ["header-toggle"; "bi-list"];
     header := Some ["header"];
     header_wired := false;
     nav := Navmenu.example_page 0;
     nav_wired := false |}.

End Ready.

(** ** Page layouts for the navigation highlighter *)
Module Layout.
Import Navmenu.
Local Open Scope Z_scope.

(** Sections stacked without gap or overlap: each starts where the previous
    one ends. *)
Fixpoint contiguous (secs : list section_el) : Prop :=
  match secs with
  | s1 :: rest =>
      match rest with
      | s2 :: _ => offsetTop s2 = offsetTop s1 + offsetHeight s1 ∧ contiguous rest
      | [] => True
      end
  | [] => True
  end.

(** Where the last section of a non-empty stack ends; [top] for an empty
    one. *)
Definition bottom (top : Z) (secs : list section_el) : Z :=
  match last secs with
  | Some s => offsetTop s + offsetHeight s
  | None => top
  end.

(** The example page at offset 350 with a menu whose second anchor has no
    href. *)
Definition broken_menu : state :=
  {| sections := sections (example_page 350);
     navmenuLinks := [ {| href := Some "#about"; classList := [] |};
                       {| href := None; classList := ["active"] |};
                       {| href := Some "#hero"; classList := ["active"] |} ];
     scrollY := 350 |}.

End Layout.

(** ** Counting over event traces of the scroll code *)
Module Trace.
Import Scroll.

Definition is_load (e : event) : bool :=
  match e with Load _ => true | _ => false end.

(** A run of the debounced effect. *)
Definition is_run (e : event) : bool :=
  match e with Timer _ _ => true | _ => false end.

(** An event that may call the debounced handler. *)
Definition is_call (e : event) : bool :=
  match e with Load _ | ScrollTo _ _ => true | Timer _ _ => false end.

Definition count (f : event → bool) (tr : list event) : nat :=
  length (filter (λ e, f e = true) tr).

(** What the load listener writes to the console (lines 352 and 112). *)
Definition load_messages : list (JS.level * string) :=
  [ (JS.Log, "Window Loaded: Finalizing optimizations...");
    (JS.Log, "Concept: Unused CSS removal is best handled by build tools.") ].

(** The console output of a whole trace. *)
Definition messages (tr : list event) : list (JS.level * string) :=
  tr ≫= λ e, if is_load e then load_messages else [].

End Trace.

(** ** A click on a filter control, block by block *)
Module Click.
Import Grid.
Section Click.
Context {item : Type}.

(** What a click on item [j] of the bar of block [k] reads of the document
    before anything changes: the clicked value, whether the bar's own
    listener is attached, whether the body's listener applies to the target,
    and the container the body's listener re-arranges. *)
Record reading := {
  value : JS.attr;
  bar_applies : bool;
  body_applies : bool;
  rearranged : option nat
}.

Definition read (k j : nat) (pg : page item) : reading :=
  {| value := filter_value k j (blocks pg);
     bar_applies := default false (wired <$> (blocks pg !! k));
     body_applies := delegated pg
                     && default false (in_portfolio_filters <$> bar_of k (blocks pg));
     rearranged := if has_Isotope pg then first_container (blocks pg) else None |}.

(** What the click makes of block [i]. *)
Definition click_block (r : reading) (k j i : nat) (blk : block item) : block item :=
  let blk1 := if bar_applies r && bool_decide (k = i)
              then activated j (value r) blk else blk in
  if body_applies r then delegate_block (rearranged r) (value r) k j i blk1 else blk1.

End Click.
End Click.

(** ** A page with two filtered grids *)
Module TwoGrids.
Import Grid.

(** Two bars of the template's kind, each in front of its own grid. *)
Definition page0 : page string :=
  {| blocks := blocks example_page ++
       [ {| filtersElem :=
              Some {| is_isotope_filters := true;
                      in_portfolio_filters := true;
                      lis := [ {| li_classes := ["filter-active"]; li_filter := Some "*" |};
                               {| li_classes := []; li_filter := Some ".filter-logo" |} ] |};
            container :=
              Some {| data_layout := None;
                      data_default_filter := None;
                      data_sort := None;
                      items := ["filter-logo"; "filter-card"];
                      instance := None;
                      created := 0 |};
            wired := false |} ];
     has_Isotope := true;
     delegated := true |}.

End TwoGrids.

(** ** What decides the outcome of the DOMContentLoaded listener *)
Module Outcome.
Import Ready.

Section Outcome.
Context {item : Type}.

(** What the four throwing places of the listener read: the Typed and Swiper
    globals, the typed element, the sliders, the hash and its target, and
    the href attributes of the menu. *)
Definition guards (p : page item) :=
  (has_Typed (env p), has_Swiper (env p), typed p, swipers p, hash p,
   hash_target p, Navmenu.href <$> Navmenu.navmenuLinks (nav p)).

(** What lines 266-343 work on. *)
Definition late_view (p : page item) :=
  (Grid.blocks (grids p), headerToggle p, header p, header_wired p, nav p,
   nav_wired p).

End Outcome.

(** The configuration a slider is created with, and the exception of line
    260 for one that cannot be created. *)
Definition config_of (el : swiper_el) : option string :=
  match el with
  | Config html true => Some html
  | _ => None
  end.

Definition slider_error (el : swiper_el) : JS.exn :=
  match el with
  | NoConfig => JS.TypeError "null has no property innerHTML"
  | Config _ _ => JS.SyntaxError "JSON.parse"
  end.

(** [l.join(',')], to state what [split] keeps. *)
Fixpoint join_comma (l : list string) : string :=
  match l with
  | [] => EmptyString
  | [x] => x
  | x :: rest => x +:+ String ","%char (join_comma rest)
  end.

(** [s.includes(',')] *)
Fixpoint has_comma (s : string) : bool :=
  match s with
  | EmptyString => false
  | String c r => bool_decide (c = ","%char) || has_comma r
  end.

(** The example page with a second slider that lacks its configuration. *)
Definition broken_slider_page : page string :=
  let p := example_page all_globals true (Some "Designer, Developer") in
  {| env := env p; console := console p; calls := calls p;
     root_classes := root_classes p; lazy := lazy p; typed := typed p;
     swipers := [Config "{}" true; NoConfig; Config "{}" true];
     grids := grids p; hash := hash p;
     hash_target := hash_target p; headerToggle := headerToggle p;
     header := header p; header_wired := header_wired p; nav := nav p;
     nav_wired := nav_wired p |}.

End Outcome.

(** ** Which global a call needs *)
Module Capability.
Import Ready.

(** The global a call goes to; [window.scrollTo] is always there. *)
Definition available (e : globals) (c : call) : bool :=
  match c with
  | FontFaceObserver_load _ => has_FontFaceObserver e
  | AOS_init => has_AOS e
  | New_Typed _ => has_Typed e
  | New_PureCounter => has_PureCounter e
  | GLightbox_init => has_GLightbox e
  | New_Swiper _ => has_Swiper e
  | Window_scrollTo _ => true
  end.

(** The state [s] was reached from a page with globals [e] and calls [cs]
    by calling only what [e] provides. *)
Definition called_only_available {item : Type} (e : globals) (cs : list call)
    (s : page item) : Prop :=
  env s = e
  ∧ ∃ new, calls s = cs ++ new ∧ Forall (λ c, available e c = true) new.

End Capability.

(** ** A page whose bars are served by the body's listener alone *)
Module Delegated.
Import Grid.

(** Two grids, each behind a bar that matches [.portfolio-filters] but not
    [.isotope-filters], so that line 281 attaches no listener to it. *)
Definition bar0 : bar :=
  {| is_isotope_filters := false;
     in_portfolio_filters := true;
     lis := [ {| li_classes := ["filter-active"]; li_filter := Some "*" |};
              {| li_classes := []; li_filter := Some ".filter-app" |} ] |}.

Definition bar1 : bar :=
  {| is_isotope_filters := false;
     in_portfolio_filters := true;
     lis := [ {| li_classes := ["filter-active"]; li_filter := Some "*" |};
              {| li_classes := []; li_filter := Some ".filter-logo" |} ] |}.

Definition grid_of (its : list string) : grid string :=
  {| data_layout := None; data_default_filter := None; data_sort := None;
     items := its; instance := None; created := 0 |}.

Definition page0 : page string :=
  {| blocks := [ {| filtersElem := Some bar0;
                    container := Some (grid_of ["filter-app"; "filter-web"]);
                    wired := false |};
                 {| filtersElem := Some bar1;
                    container := Some (grid_of ["filter-logo"; "filter-card"]);
                    wired := false |} ];
     has_Isotope := true;
     delegated := true |}.


End Delegated.

(* ================================================================== *)
(** * Properties *)
(* ================================================================== *)

Section ClassListFacts.
Import ClassList.

Lemma contains_true c l : contains c l = true ↔ c ∈ l.
Proof. unfold contains. apply bool_decide_eq_true. Qed.

Lemma contains_false c l : contains c l = false ↔ c ∉ l.
Proof. unfold contains. apply bool_decide_eq_false. Qed.

Lemma elem_of_remove c d l : d ∈ remove c l ↔ d ≠ c ∧ d ∈ l.
Proof. unfold remove. by rewrite list_elem_of_filter. Qed.

Lemma elem_of_add c d l : d ∈ add c l ↔ d = c ∨ d ∈ l.
Proof.
  unfold add. destruct (contains c l) eqn:E.
  - apply contains_true in E. split; [auto|]. intros [->|]; auto.
  - rewrite elem_of_app, list_elem_of_singleton. tauto.
Qed.

Lemma contains_add c l : contains c (add c l) = true.
Proof. apply contains_true, elem_of_add. auto. Qed.

Lemma contains_remove c l : contains c (remove c l) = false.
Proof. apply contains_false. rewrite elem_of_remove. tauto. Qed.

Lemma remove_absent c l : c ∉ l → remove c l = l.
Proof.
  unfold remove. induction l as [|x l IH]; intros H; [done|].
  rewrite filter_cons. apply not_elem_of_cons in H as [H1 H2].
  rewrite decide_True by congruence. f_equal. auto.
Qed.

Lemma remove_remove c l : remove c (remove c l) = remove c l.
Proof. apply remove_absent. rewrite elem_of_remove. tauto. Qed.

Lemma add_add c l : add c (add c l) = add c l.
Proof. unfold add at 1. by rewrite contains_add. Qed.

Lemma remove_add_remove c l : remove c (add c (remove c l)) = remove c l.
Proof.
  unfold add. rewrite contains_remove. unfold remove at 1.
  rewrite filter_app. fold (remove c (remove c l)). rewrite remove_remove.
  rewrite filter_cons, decide_False by tauto. rewrite filter_nil.
  apply app_nil_r.
Qed.

End ClassListFacts.

Section NavmenuFacts.
Import Navmenu.
Local Open Scope Z_scope.

Lemma forEach_no_throw {A} (cb : A → A * option JS.exn) (l : list A) :
  Forall (λ x, (cb x).2 = None) l →
  Dom.forEach cb l = ((λ x, (cb x).1) <$> l, None).
Proof.
  induction 1 as [|x l Hx _ IH]; [done|].
  simpl. destruct (cb x) as [x' [e|]] eqn:E; simpl in *; [done|].
  by rewrite IH.
Qed.

Lemma forEach_length {A} (cb : A → A * option JS.exn) (l : list A) :
  length (Dom.forEach cb l).1 = length l.
Proof.
  induction l as [|x l IH]; [done|].
  simpl. destruct (cb x) as [x' [e|]]; [done|].
  destruct (Dom.forEach cb l) as [r e]. simpl in *. by rewrite IH.
Qed.

Lemma currentActive_foldl y secs acc :
  foldl (λ cur s, if in_span y s then Some (sec_id s) else cur) acc secs
  = match last_containing y secs with
    | Some s => Some (sec_id s)
    | None => acc
    end.
Proof.
  unfold last_containing. revert acc.
  induction secs as [|s secs IH]; intros acc; [done|].
  simpl. rewrite IH, filter_cons.
  destruct (in_span y s) eqn:E.
  - rewrite decide_True by done. rewrite last_cons.
    by destruct (last _).
  - by rewrite decide_False by congruence.
Qed.

Lemma currentActive_last y secs :
  currentActive y secs = sec_id <$> last_containing y secs.
Proof.
  unfold currentActive. rewrite currentActive_foldl.
  by destruct (last_containing y secs).
Qed.

Lemma activate_link_href cur l : href (activate_link cur l).1 = href l.
Proof.
  unfold activate_link. destruct (href l) as [h|] eqn:E; [|done].
  by case_bool_decide.
Qed.

Lemma activate_link_ok cur l :
  is_Some (href l) → (activate_link cur l).2 = None.
Proof.
  intros [h Hh]. unfold activate_link. rewrite Hh. by case_bool_decide.
Qed.

Lemma activate_link_active cur l :
  is_Some (href l) →
  is_active (activate_link cur l).1 = true ↔ target l = cur.
Proof.
  intros [h Hh]. unfold activate_link, target, is_active. rewrite Hh. simpl.
  case_bool_decide as E; simpl.
  - by rewrite contains_add.
  - rewrite contains_remove. split; [done|congruence].
Qed.

End NavmenuFacts.

Section NavmenuRun.
Import Navmenu.
Local Open Scope Z_scope.

Lemma filter_fmap_length {A} (f : A → A) (P Q : A → Prop)
    `{∀ x, Decision (P x)} `{∀ x, Decision (Q x)} (l : list A) :
  Forall (λ x, P (f x) ↔ Q x) l →
  length (filter P (f <$> l)) = length (filter Q l).
Proof.
  induction 1 as [|x l Hx _ IH]; [done|].
  rewrite fmap_cons, !filter_cons.
  destruct (decide (P (f x))), (decide (Q x)); simpl; try lia; tauto.
Qed.

Lemma filter_eq_NoDup_length {A B} `{EqDecision B} (f : A → B) (c : B) (l : list A) :
  NoDup (f <$> l) → (length (filter (λ x, f x = c) l) ≤ 1)%nat.
Proof.
  induction l as [|x l IH]; [simpl; lia|].
  rewrite fmap_cons, NoDup_cons. intros [Hx Hl].
  rewrite filter_cons. destruct (decide (f x = c)) as [E|E]; [|auto].
  assert (filter (λ y, f y = c) l = []) as ->; [|simpl; lia].
  destruct (filter (λ y, f y = c) l) as [|y r] eqn:F; [done|].
  assert (y ∈ filter (λ y, f y = c) l) as Hy by (rewrite F; apply list_elem_of_here).
  apply list_elem_of_filter in Hy as [Hc Hy].
  destruct Hx. apply list_elem_of_fmap. exists y. split; [congruence|done].
Qed.

(** One run on anchors that all carry an [href]: nothing throws and each
    anchor ends up active exactly when it targets the current section. *)
Lemma activateNavmenuLink_run (st : state) :
  hrefs_present (navmenuLinks st) →
  activateNavmenuLink st =
    ({| sections := sections st;
        navmenuLinks :=
          (λ l, (activate_link (currentActive (scrollY st) (sections st)) l).1)
            <$> navmenuLinks st;
        scrollY := scrollY st |}, None).
Proof.
  intros H. unfold activateNavmenuLink. rewrite forEach_no_throw; [done|].
  eapply Forall_impl; [exact H|]. intros l Hl. by apply activate_link_ok.
Qed.

Lemma forEach_activate_hrefs cur (ls : list link) :
  href <$> (Dom.forEach (activate_link cur) ls).1 = href <$> ls.
Proof.
  induction ls as [|l ls IH]; [done|].
  cbn [Dom.forEach]. pose proof (activate_link_href cur l) as Hl.
  destruct (activate_link cur l) as [l' [e|]]; cbn [fst] in *.
  - by rewrite !fmap_cons, Hl.
  - destruct (Dom.forEach (activate_link cur) ls) as [r e]. cbn [fst] in *.
    by rewrite !fmap_cons, Hl, IH.
Qed.

Lemma activateNavmenuLink_hrefs (st : state) :
  href <$> navmenuLinks (activateNavmenuLink st).1 = href <$> navmenuLinks st.
Proof.
  unfold activateNavmenuLink.
  pose proof (forEach_activate_hrefs
                (currentActive (scrollY st) (sections st)) (navmenuLinks st)) as H.
  by destruct (Dom.forEach _ _).
Qed.

Lemma activateNavmenuLink_sections (st : state) :
  sections (activateNavmenuLink st).1 = sections st.
Proof.
  unfold activateNavmenuLink. by destruct (Dom.forEach _ _).
Qed.

Lemma hrefs_present_fmap (l1 l2 : list link) :
  href <$> l1 = href <$> l2 → hrefs_present l2 → hrefs_present l1.
Proof.
  unfold hrefs_present. intros E H.
  apply (Forall_fmap href (λ h, is_Some h)). rewrite E.
  by apply (Forall_fmap href (λ h, is_Some h)).
Qed.

Lemma active_links_count (st : state) :
  hrefs_present (navmenuLinks st) →
  length (active_links (activateNavmenuLink st).1)
  = length (filter (λ l, target l = sec_id <$> last_containing (scrollY st) (sections st))
                   (navmenuLinks st)).
Proof.
  intros H. rewrite activateNavmenuLink_run by done. unfold active_links. simpl.
  apply filter_fmap_length. eapply Forall_impl; [exact H|]. intros l Hl. simpl.
  rewrite <- currentActive_last. by apply activate_link_active.
Qed.

End NavmenuRun.

Section NavmenuClaims.
Import Navmenu.
Local Open Scope Z_scope.

(** The spec's example: at scrollY = 350 the second anchor is marked and the
    other two are cleared. *)
Example activateNavmenuLink_example :
  is_active <$> navmenuLinks (activateNavmenuLink (example_page 350)).1
  = [false; true; false].
Proof. reflexivity. Qed.

(** C2, as stated, fails: below the last section no span contains the
    offset, [currentActive] stays [null] and the run leaves no anchor
    active, not exactly one. *)
Lemma C2_no_section_no_active_anchor :
  (activateNavmenuLink (example_page 5000)).2 = None ∧
  length (active_links (activateNavmenuLink (example_page 5000)).1) ≠ 1%nat.
Proof. split; [reflexivity|]. vm_compute. lia. Qed.

(** C2, amended: on anchors that all carry an href, one run of the
    highlighter completes without throwing, keeps sections and offset, and
    leaves an anchor active exactly when its target (the href without its
    first character) is the id of the last section in document order whose
    span [offsetTop - 100, offsetTop - 100 + offsetHeight) contains scrollY;
    every other anchor is cleared, and none is active when no span contains
    the offset.  The number of active anchors is the number of anchors
    targeting that section. *)
Theorem C2_activateNavmenuLink_marks_current (st : state) :
  hrefs_present (navmenuLinks st) →
  ∃ st', activateNavmenuLink st = (st', None)
    ∧ sections st' = sections st ∧ scrollY st' = scrollY st
    ∧ length (navmenuLinks st') = length (navmenuLinks st)
    ∧ (∀ i l, navmenuLinks st !! i = Some l →
         ∃ l', navmenuLinks st' !! i = Some l' ∧ href l' = href l
           ∧ (is_active l' = true ↔
              target l = sec_id <$> last_containing (scrollY st) (sections st)))
    ∧ (last_containing (scrollY st) (sections st) = None → active_links st' = [])
    ∧ length (active_links st')
      = length (filter (λ l, target l = sec_id <$> last_containing (scrollY st) (sections st))
                       (navmenuLinks st)).
Proof.
  intros H. pose proof (active_links_count st H) as Hcount.
  rewrite activateNavmenuLink_run in * by done. cbn [fst] in Hcount.
  eexists. split; [reflexivity|]. cbn [sections scrollY navmenuLinks].
  split_and!; try done.
  - by rewrite length_fmap.
  - intros i l Hi. rewrite list_lookup_fmap, Hi. eexists. split; [done|].
    split; [apply activate_link_href|].
    rewrite <- currentActive_last. apply activate_link_active.
    eapply Forall_lookup_1 in H; [|exact Hi]. done.
  - intros Hnone. apply nil_length_inv. rewrite Hcount. clear Hcount. rewrite Hnone.
    change (sec_id <$> None) with (@None string).
    destruct (filter _ (navmenuLinks st)) as [|l r] eqn:F; [done|].
    assert (l ∈ l :: r) as Hl by apply list_elem_of_here.
    rewrite <- F in Hl. apply list_elem_of_filter in Hl as [Ht Hl].
    unfold hrefs_present in H. rewrite Forall_forall in H.
    destruct (H l Hl) as [h Hh]. unfold target in Ht. by rewrite Hh in Ht.
Qed.

Lemma C2_activateNavmenuLink_marks_current_witness :
  hrefs_present (navmenuLinks (example_page 350)) ∧
  ∃ st', activateNavmenuLink (example_page 350) = (st', None)
    ∧ length (active_links st') = 1%nat.
Proof.
  assert (hrefs_present (navmenuLinks (example_page 350))) as H
    by (repeat constructor; eexists; reflexivity).
  split; [exact H|].
  destruct (C2_activateNavmenuLink_marks_current (example_page 350) H)
    as (st' & Hrun & _ & _ & _ & _ & _ & Hcount).
  exists st'. split; [exact Hrun|]. rewrite Hcount. reflexivity.
Defined.

(** C6, as stated, fails: two anchors of the menu that point at the same
    section are both marked by one run. *)
Lemma C6_two_anchors_same_target_both_active :
  length (active_links (after_scrolls [0]
    {| sections := [ {| sec_id := "about"; offsetTop := 0; offsetHeight := 500 |} ];
       navmenuLinks := [ {| href := Some "#about"; classList := [] |};
                         {| href := Some "#about"; classList := [] |} ];
       scrollY := 0 |})) = 2%nat.
Proof. reflexivity. Qed.

Lemma target_fmap (ls : list link) :
  target <$> ls = fmap JS.substring1 <$> (href <$> ls).
Proof. induction ls as [|l ls IH]; [done|]. rewrite !fmap_cons. by f_equal. Qed.

Lemma after_scrolls_last_run (ys : list Z) (st : state) :
  ∃ st0, href <$> navmenuLinks st0 = href <$> navmenuLinks st
       ∧ after_scrolls ys st = (activateNavmenuLink st0).1.
Proof.
  unfold after_scrolls. induction ys as [|y ys IH] using rev_ind.
  - by exists st.
  - destruct IH as (st0 & Hh & Hrun). rewrite foldl_app. cbn [foldl].
    rewrite Hrun. unfold on_scroll. eexists. split; [|reflexivity].
    cbn [navmenuLinks]. by rewrite activateNavmenuLink_hrefs.
Qed.

(** C6, amended: when every anchor carries an href and no two anchors have
    the same target, at most one anchor is active after the initial run and
    after every later scroll event. *)
Theorem C6_at_most_one_active (st : state) (ys : list Z) :
  hrefs_present (navmenuLinks st) →
  NoDup (target <$> navmenuLinks st) →
  (length (active_links (after_scrolls ys st)) ≤ 1)%nat.
Proof.
  intros Hp Hnd. destruct (after_scrolls_last_run ys st) as (st0 & Hh & ->).
  assert (hrefs_present (navmenuLinks st0)) as Hp0
    by (eapply hrefs_present_fmap; eauto).
  rewrite active_links_count by done.
  apply filter_eq_NoDup_length.
  by rewrite target_fmap, Hh, <- target_fmap.
Qed.

Lemma C6_at_most_one_active_witness :
  hrefs_present (navmenuLinks (example_page 0)) ∧
  NoDup (target <$> navmenuLinks (example_page 0)) ∧
  (length (active_links (after_scrolls [350%Z; 900%Z; 5000%Z; 10%Z] (example_page 0%Z))) ≤ 1)%nat.
Proof.
  assert (hrefs_present (navmenuLinks (example_page 0))) as H
    by (repeat constructor; eexists; reflexivity).
  assert (NoDup (target <$> navmenuLinks (example_page 0))) as Hnd
    by (eapply (bool_decide_unpack _); vm_compute; exact I).
  split; [exact H|]. split; [exact Hnd|].
  exact (C6_at_most_one_active (example_page 0) [350; 900; 5000; 10] H Hnd).
Defined.

End NavmenuClaims.

Section ScrollFacts.
Import Scroll.
Local Open Scope Z_scope.

Lemma coalesced_fresh d t0 : coalesced (fresh d t0).
Proof. split; [done|]. by left. Qed.

Lemma clearTimeout_coalesced (p : page) :
  coalesced p →
  Timers.pending (Timers.clearTimeout (timeout p) (timers p)) = [].
Proof.
  intros [_ [E|(id & dl & E & Ht)]].
  - unfold Timers.clearTimeout. destruct (timeout p); [|done].
    cbn [Timers.pending]. by rewrite E.
  - rewrite Ht. unfold Timers.clearTimeout. cbn [Timers.pending]. rewrite E.
    rewrite filter_cons. cbn [fst]. by rewrite decide_False by tauto.
Qed.

Lemma handleScroll_pending (now : Z) (p : page) :
  coalesced p →
  ∃ id, Timers.pending (timers (handleScroll now p))
        = [(id, (now + 100, handleScroll_body))]
      ∧ timeout (handleScroll now p) = Some id.
Proof.
  intros H. apply clearTimeout_coalesced in H.
  unfold handleScroll, debounce, Timers.setTimeout. cbn [timers timeout Timers.pending].
  rewrite H. eexists. split; reflexivity.
Qed.

Lemma handleScroll_frame (now : Z) (p : page) :
  document (handleScroll now p) = document p
  ∧ listening (handleScroll now p) = listening p
  ∧ clock (handleScroll now p) = now.
Proof. done. Qed.

Lemma handleScroll_coalesced now p :
  listening p = true → coalesced p → coalesced (handleScroll now p).
Proof.
  intros Hl H. destruct (handleScroll_pending now p H) as (id & E & Ht).
  split; [|right; eauto].
  destruct (handleScroll_frame now p) as (_ & Hl' & _). congruence.
Qed.

Lemma due_single (now dl : Z) (id id' : nat) (cb : dom → dom) (tb : Timers.table dom) :
  Timers.pending tb = [(id', (dl, cb))] →
  Timers.due now id tb = (if decide (id' = id) then if dl <=? now then Some cb else None else None).
Proof.
  intros E. unfold Timers.due. rewrite E. cbn [list_find fst].
  destruct (decide (id' = id)); reflexivity.
Qed.

Lemma due_empty (now : Z) (id : nat) (tb : Timers.table dom) :
  Timers.pending tb = [] → Timers.due now id tb = None.
Proof. intros E. unfold Timers.due. by rewrite E. Qed.

Lemma step_coalesced e p p' : coalesced p → step e p = Some p' → coalesced p'.
Proof.
  intros H. unfold step. destruct (time_of e <? clock p); [done|].
  destruct e as [t|t w|t id].
  - intros [= <-]. unfold on_load.
    match goal with |- context [handleScroll t ?q] => set (p1 := q) end.
    assert (coalesced (handleScroll t p1)) as [H1 H2].
    { apply handleScroll_coalesced; [done|]. destruct H as [H1 H2]. split; [done|exact H2]. }
    split; [intros; done | exact H2].
  - intros [= <-]. destruct (listening p) eqn:L.
    + apply handleScroll_coalesced; [done|]. destruct H as [H1 H2]. split; [|exact H2].
      cbn. congruence.
    + destruct H as [H1 H2]. split; [intros _; exact (H1 L) | exact H2].
  - destruct (Timers.due t id (timers p)) as [cb|] eqn:D; [|done].
    intros [= <-]. destruct H as [H1 [E|(id' & dl & E & Ht)]].
    + by rewrite due_empty in D.
    + rewrite (due_single _ _ _ _ _ _ E) in D.
      destruct (decide (id' = id)) as [->|]; [|done].
      assert (Timers.pending (Timers.expire id (timers p)) = []) as E'.
      { unfold Timers.expire. cbn [Timers.pending]. rewrite E, filter_cons.
        cbn [fst]. by rewrite decide_False by tauto. }
      split; [intros _; exact E' | left; exact E'].
Qed.

Lemma run_app tr1 tr2 p :
  run (tr1 ++ tr2) p = run tr1 p ≫= run tr2.
Proof.
  revert p. induction tr1 as [|e tr1 IH]; intros p; [done|].
  cbn [app run]. destruct (step e p); [apply IH|done].
Qed.

Lemma run_coalesced tr p p' : coalesced p → run tr p = Some p' → coalesced p'.
Proof.
  revert p. induction tr as [|e tr IH]; intros p H; cbn [run].
  - by intros [= <-].
  - destruct (step e p) as [q|] eqn:S; [|done].
    apply IH. by eapply step_coalesced.
Qed.

Lemma step_schedules e c p p' :
  coalesced p → step e p = Some p' → schedules e c →
  Timers.pending (timers p') = [] ∨
  ∃ id, Timers.pending (timers p') = [(id, (c + 100, handleScroll_body))].
Proof.
  intros H S [->|[w ->]]; revert S; unfold step; cbn [time_of];
    destruct (_ <? _); try done; intros [= <-].
  - right. unfold on_load.
    match goal with |- context [handleScroll c ?q] => set (p1 := q) end.
    destruct (handleScroll_pending c p1) as (id & E & _).
    { destruct H as [H1 H2]. split; [done|exact H2]. }
    exists id. exact E.
  - destruct (listening p) eqn:L.
    + right.
      match goal with |- context [handleScroll c ?q] => set (p1 := q) end.
      destruct (handleScroll_pending c p1) as (id & E & _).
      { destruct H as [H1 H2]. split; [cbn; congruence|exact H2]. }
      exists id. exact E.
    + left. destruct H as [H1 _]. exact (H1 L).
Qed.

(** A timer the browser may run was scheduled by the event just before, at
    least 100 ms earlier, and carries the handler. *)
Lemma due_after_call d t0 pre p t id cb :
  run pre (fresh d t0) = Some p →
  Timers.due t id (timers p) = Some cb →
  cb = handleScroll_body ∧
  ∃ pre' e c, pre = pre' ++ [e] ∧ schedules e c ∧ c + 100 ≤ t.
Proof.
  intros R D. destruct pre as [|e0 pre0] using rev_ind.
  { injection R as <-. by rewrite due_empty in D. }
  clear IHpre0. rewrite run_app in R.
  destruct (run pre0 (fresh d t0)) as [q|] eqn:Rq; [|done].
  cbn [mbind option_bind run] in R.
  destruct (step e0 q) as [q'|] eqn:S; [|done]. injection R as ->.
  pose proof (run_coalesced _ _ _ (coalesced_fresh d t0) Rq) as Hq.
  assert (∀ c, schedules e0 c → cb = handleScroll_body ∧ c + 100 ≤ t) as Hsched.
  { intros c Hc. destruct (step_schedules _ _ _ _ Hq S Hc) as [E|[id' E]].
    - by rewrite due_empty in D.
    - rewrite (due_single _ _ _ _ _ _ E) in D.
      destruct (decide (id' = id)); [|done].
      destruct (c + 100 <=? t) eqn:Le; [|done].
      injection D as <-. split; [done|lia]. }
  destruct e0 as [c|c w|t' id'].
  - destruct (Hsched c) as [-> Hle]; [by left|].
    split; [done|]. exists pre0, (Load c), c. split_and!; [done|by left|done].
  - destruct (Hsched c) as [-> Hle]; [right; by exists w|].
    split; [done|]. exists pre0, (ScrollTo c w), c.
    split_and!; [done|right; by exists w|done].
  - exfalso. revert S. unfold step. destruct (_ <? _); [done|].
    destruct (Timers.due t' id' (timers q)) as [cb'|] eqn:D'; [|done].
    intros [= <-]. cbn [timers] in D.
    destruct Hq as [_ [E|(i & dl & E & _)]].
    + by rewrite due_empty in D'.
    + rewrite (due_single _ _ _ _ _ _ E) in D'.
      destruct (decide (i = id')) as [->|]; [|done].
      rewrite due_empty in D; [done|].
      unfold Timers.expire. cbn [Timers.pending]. rewrite E, filter_cons.
      cbn [fst]. by rewrite decide_False by tauto.
Qed.

End ScrollFacts.

Section ScrollClaims.
Import Scroll.
Local Open Scope Z_scope.

Lemma handleScroll_body_button (d : dom) :
  win (handleScroll_body d) = win d ∧
  match scrollTopButton d with
  | Some cl =>
      ∃ cl', scrollTopButton (handleScroll_body d) = Some cl' ∧
             (ClassList.contains "active" cl' = true ↔ 100 < scrollTop (win d))
  | None => scrollTopButton (handleScroll_body d) = None
  end.
Proof.
  unfold handleScroll_body. destruct (scrollTopButton d) as [cl|] eqn:B.
  - split; [done|]. eexists. split; [reflexivity|].
    destruct (100 <? scrollTop (win d)) eqn:Lt.
    + rewrite contains_add. apply Z.ltb_lt in Lt. tauto.
    + rewrite contains_remove. apply Z.ltb_ge in Lt. split; [done|lia].
  - by rewrite B.
Qed.

(** The spec's examples, on a whole trace: the page loads, the user scrolls
    to 150 and pauses, then scrolls back to 50 and pauses. *)
Example scroll_top_example :
  (λ p, scrollTopButton (document p)) <$>
     run [Load 0; ScrollTo 10 (at_offset 150); Timer 110 2] (fresh example_dom 0)
  = Some (Some ["scroll-top"; "active"]) ∧
  (λ p, scrollTopButton (document p)) <$>
     run [Load 0; ScrollTo 10 (at_offset 150); Timer 110 2;
          ScrollTo 500 (at_offset 50); Timer 600 3] (fresh example_dom 0)
  = Some (Some ["scroll-top"]).
Proof. split; reflexivity. Qed.

(** C3: whenever the browser runs the debounced handler, the window stays
    where it is and the scroll-to-top control, when the page has one, ends up
    carrying the class active if and only if the vertical offset of the
    window at that run exceeds 100: window.pageYOffset when that is not
    zero, document.documentElement.scrollTop otherwise; the other classes of
    the control are kept, and a page without the control stays without it.
    In particular a window at scrollY = 50 leaves the control inactive and a
    window at scrollY = 150 makes it active, whatever the class list was. *)
Theorem C3_scroll_top_active_iff_offset_exceeds_100
    (d : dom) (t0 : Z) (tr : list event) (p p' : page) (t : Z) (id : nat) :
  run tr (fresh d t0) = Some p →
  step (Timer t id) p = Some p' →
  win (document p') = win (document p) ∧
  match scrollTopButton (document p) with
  | Some cl =>
      ∃ cl', scrollTopButton (document p') = Some cl' ∧
             (ClassList.contains "active" cl' = true
              ↔ 100 < pageYOffset (win (document p))
                ∨ (pageYOffset (win (document p)) = 0
                   ∧ 100 < docScrollTop (win (document p)))) ∧
             (pageYOffset (win (document p)) = 50 →
              ClassList.contains "active" cl' = false) ∧
             (pageYOffset (win (document p)) = 150 →
              ClassList.contains "active" cl' = true) ∧
             (∀ c, c ≠ "active" → c ∈ cl' ↔ c ∈ cl)
  | None => scrollTopButton (document p') = None
  end.
Proof.
  intros R S. revert S. unfold step. destruct (_ <? _); [done|].
  destruct (Timers.due t id (timers p)) as [cb|] eqn:D; [|done].
  intros [= <-]. cbn [document].
  destruct (due_after_call _ _ _ _ _ _ _ R D) as [-> _].
  destruct (handleScroll_body_button (document p)) as [Hw Hb].
  split; [exact Hw|].
  destruct (scrollTopButton (document p)) as [cl|] eqn:B; [|exact Hb].
  destruct Hb as (cl' & E & Hiff). exists cl'.
  assert (100 < scrollTop (win (document p))
          ↔ 100 < pageYOffset (win (document p))
            ∨ (pageYOffset (win (document p)) = 0
               ∧ 100 < docScrollTop (win (document p)))) as Hoff.
  { unfold scrollTop, JS.or_num.
    destruct (Z.eqb_spec (pageYOffset (win (document p))) 0) as [->|Hne]; lia. }
  rewrite Hoff in Hiff. split_and!; [done|done| | |].
  - intros H50. destruct (ClassList.contains "active" cl'); [|done].
    destruct Hiff as [Hgt _]. specialize (Hgt eq_refl). lia.
  - intros H150. apply Hiff. lia.
  - intros c Hc. revert E. unfold handleScroll_body. rewrite B. cbn.
    intros [= <-]. destruct (100 <? scrollTop (win (document p))).
    + rewrite elem_of_add. split; [intros [H|H]; [by destruct Hc|done]|by right].
    + rewrite elem_of_remove. tauto.
Qed.

Lemma C3_scroll_top_active_iff_offset_exceeds_100_witness :
  (∃ p p',
     run [Load 0; ScrollTo 10 (at_offset 150)] (fresh example_dom 0) = Some p ∧
     step (Timer 110 2) p = Some p' ∧
     ∃ cl', scrollTopButton (document p') = Some cl' ∧
            ClassList.contains "active" cl' = true)
  ∧ (∃ p p',
       run [Load 0; ScrollTo 10 (at_offset 150); Timer 110 2;
            ScrollTo 500 (at_offset 50)] (fresh example_dom 0) = Some p ∧
       scrollTopButton (document p) = Some ["scroll-top"; "active"] ∧
       step (Timer 600 3) p = Some p' ∧
       ∃ cl', scrollTopButton (document p') = Some cl' ∧
              ClassList.contains "active" cl' = false).
Proof.
  split.
  - eexists _, _. split; [reflexivity|]. split; [reflexivity|].
    pose proof (C3_scroll_top_active_iff_offset_exceeds_100
                  example_dom 0 [Load 0; ScrollTo 10 (at_offset 150)] _ _ 110 2
                  eq_refl eq_refl) as [_ H].
    cbn in H. destruct H as (cl' & E & _ & _ & H150 & _).
    exists cl'. split; [exact E|]. apply H150. reflexivity.
  - eexists _, _. split; [reflexivity|]. split; [reflexivity|]. split; [reflexivity|].
    pose proof (C3_scroll_top_active_iff_offset_exceeds_100
                  example_dom 0
                  [Load 0; ScrollTo 10 (at_offset 150); Timer 110 2;
                   ScrollTo 500 (at_offset 50)] _ _ 600 3
                  eq_refl eq_refl) as [_ H].
    cbn in H. destruct H as (cl' & E & _ & H50 & _).
    exists cl'. split; [exact E|]. apply H50. reflexivity.
Defined.

(** A burst of scroll events after load is coalesced into one run of the
    effect: timers 1 to 3 are cancelled by the next event, so the browser
    cannot run them, and timer 4 runs 100 ms after the last event. *)
Example debounce_burst :
  run [Load 0; ScrollTo 30 (at_offset 40); Timer 100 1] (fresh example_dom 0) = None ∧
  run [Load 0; ScrollTo 30 (at_offset 40); ScrollTo 60 (at_offset 90);
       ScrollTo 90 (at_offset 150); Timer 130 2] (fresh example_dom 0) = None ∧
  run [Load 0; ScrollTo 30 (at_offset 40); ScrollTo 60 (at_offset 90);
       ScrollTo 90 (at_offset 150); Timer 189 4] (fresh example_dom 0) = None ∧
  (λ p, (Timers.pending (timers p), scrollTopButton (document p))) <$>
    run [Load 0; ScrollTo 30 (at_offset 40); ScrollTo 60 (at_offset 90);
         ScrollTo 90 (at_offset 150); Timer 190 4] (fresh example_dom 0)
  = Some ([], Some ["scroll-top"; "active"]).
Proof. split_and!; reflexivity. Qed.

(** C4: along every sequence of load, scroll and timer events from the
    freshly evaluated script,
    - at most one invocation of the handler is pending;
    - once the load listener has run, every scroll event replaces whatever
      was pending by one invocation due 100 ms later;
    - the load event does the same unconditionally, whatever the state of
      the page, and starts the listening;
    - a pending invocation whose 100 ms have elapsed can run, runs the
      effect once and leaves nothing pending;
    - each run of the effect comes directly after the load or scroll event
      that scheduled it, at least 100 ms later, with no other event and no
      other run in between. *)
Theorem C4_debounce_coalesces_scroll_events
    (d : dom) (t0 : Z) (tr : list event) (p : page) :
  run tr (fresh d t0) = Some p →
  (length (Timers.pending (timers p)) ≤ 1)%nat
  ∧ (∀ now w, clock p ≤ now → listening p = true →
       ∃ p' id, step (ScrollTo now w) p = Some p'
              ∧ Timers.pending (timers p') = [(id, (now + 100, handleScroll_body))]
              ∧ timeout p' = Some id)
  ∧ (∀ now, clock p ≤ now →
       ∃ p' id, step (Load now) p = Some p'
              ∧ listening p' = true
              ∧ Timers.pending (timers p') = [(id, (now + 100, handleScroll_body))]
              ∧ timeout p' = Some id)
  ∧ (∀ id dl cb now, Timers.pending (timers p) = [(id, (dl, cb))] →
       dl ≤ now → clock p ≤ now →
       ∃ p', step (Timer now id) p = Some p'
           ∧ document p' = handleScroll_body (document p)
           ∧ Timers.pending (timers p') = [])
  ∧ (∀ pre t id post, tr = pre ++ Timer t id :: post →
       ∃ pre' e c, pre = pre' ++ [e] ∧ schedules e c ∧ c + 100 ≤ t).
Proof.
  intros R. pose proof (run_coalesced _ _ _ (coalesced_fresh d t0) R) as Hp.
  split_and!.
  - destruct Hp as [_ [E|(id & dl & E & _)]]; rewrite E; simpl; lia.
  - intros now w Hnow L. unfold step. cbn [time_of].
    rewrite (proj2 (Z.ltb_ge now (clock p))) by lia. rewrite L.
    match goal with |- context [handleScroll now ?q] => set (p1 := q) end.
    destruct (handleScroll_pending now p1) as (id & E & Ht).
    { destruct Hp as [H1 H2]. split; [cbn; congruence|exact H2]. }
    exists (handleScroll now p1), id. done.
  - intros now Hnow. unfold step. cbn [time_of].
    rewrite (proj2 (Z.ltb_ge now (clock p))) by lia. unfold on_load.
    match goal with |- context [handleScroll now ?q] => set (p1 := q) end.
    destruct (handleScroll_pending now p1) as (id & E & Ht).
    { destruct Hp as [H1 H2]. split; [done|exact H2]. }
    eexists _, id. split; [reflexivity|]. cbn [listening timers timeout]. done.
  - intros id dl cb now E Hdl Hnow. unfold step. cbn [time_of].
    rewrite (proj2 (Z.ltb_ge now (clock p))) by lia.
    rewrite (due_single _ _ _ _ _ _ E), decide_True by done.
    rewrite (proj2 (Z.leb_le dl now)) by lia.
    eexists. split; [reflexivity|]. cbn [document timers]. split.
    + destruct Hp as [_ [E'|(i & dl' & E' & _)]]; congruence.
    + unfold Timers.expire. cbn [Timers.pending]. rewrite E, filter_cons.
      cbn [fst]. by rewrite decide_False by tauto.
  - intros pre t id post ->. rewrite run_app in R.
    destruct (run pre (fresh d t0)) as [q|] eqn:Rq; [|done].
    cbn [mbind option_bind run] in R.
    destruct (step (Timer t id) q) as [q'|] eqn:S; [|done].
    revert S. unfold step. destruct (_ <? _); [done|].
    destruct (Timers.due t id (timers q)) as [cb|] eqn:D; [|done]. intros _.
    by destruct (due_after_call _ _ _ _ _ _ _ Rq D) as [_ H].
Qed.

Lemma C4_debounce_coalesces_scroll_events_witness :
  ∃ p, run [Load 0; ScrollTo 30 (at_offset 40); ScrollTo 60 (at_offset 150)]
           (fresh example_dom 0) = Some p
     ∧ (length (Timers.pending (timers p)) ≤ 1)%nat.
Proof.
  eexists. split; [reflexivity|].
  exact (proj1 (C4_debounce_coalesces_scroll_events example_dom 0
                  [Load 0; ScrollTo 30 (at_offset 40); ScrollTo 60 (at_offset 150)]
                  _ eq_refl)).
Defined.

End ScrollClaims.

Section LazyLoadFacts.
Import LazyLoad.

Example lazyLoadImages_fallback_example :
  images (lazyLoadImages false (initial example_images))
  = [ {| src := Some "hero.jpg"; srcset := Some "hero-2x.jpg 2x";
         data_src := None; data_srcset := None |};
      {| src := Some "about.jpg"; srcset := None;
         data_src := None; data_srcset := None |};
      {| src := Some "logo.png"; srcset := None;
         data_src := None; data_srcset := None |} ].
Proof. reflexivity. Qed.

Example lazyLoadImages_observer_example :
  (λ st, (images st !! 0%nat, removals st)) <$>
    deliver [ [ {| target := 0; isIntersecting := true |};
                {| target := 1; isIntersecting := false |} ] ]
            (lazyLoadImages true (initial example_images))
  = Some (Some {| src := Some "hero.jpg"; srcset := Some "hero-2x.jpg 2x";
                  data_src := None; data_srcset := None |}, [0%nat]).
Proof. vm_compute. reflexivity. Qed.

Lemma removal_count_snoc i j st :
  removal_count i (load j st) = (removal_count i st + if decide (j = i) then 1 else 0)%nat.
Proof.
  unfold removal_count, load. cbn [removals]. rewrite filter_app, length_app.
  rewrite filter_cons, filter_nil. by destruct (decide (j = i)).
Qed.

Lemma on_entry_other i st e :
  target e ≠ i ∨ isIntersecting e = false →
  images (on_entry st e) !! i = images st !! i
  ∧ (i ∈ observed (on_entry st e) ↔ i ∈ observed st)
  ∧ removal_count i (on_entry st e) = removal_count i st.
Proof.
  intros H. unfold on_entry. destruct (isIntersecting e) eqn:E; [|done].
  destruct H as [H|H]; [|done]. split_and!.
  - cbn [unobserve load images]. by rewrite list_lookup_alter_ne.
  - cbn [unobserve load observed].
    rewrite elem_of_difference, elem_of_singleton. intuition congruence.
  - change (removal_count i (unobserve (target e) (load (target e) st)))
      with (removal_count i (load (target e) st)).
    rewrite removal_count_snoc, decide_False by done. lia.
Qed.

Lemma on_entry_hit i st e :
  target e = i → isIntersecting e = true →
  images (on_entry st e) !! i = resolve <$> (images st !! i)
  ∧ (i ∉ observed (on_entry st e))
  ∧ removal_count i (on_entry st e) = S (removal_count i st).
Proof.
  intros <- E. unfold on_entry. rewrite E. split_and!.
  - cbn [unobserve load images]. apply list_lookup_alter_eq.
  - cbn [unobserve load observed].
    rewrite elem_of_difference, elem_of_singleton. tauto.
  - change (removal_count (target e) (unobserve (target e) (load (target e) st)))
      with (removal_count (target e) (load (target e) st)).
    rewrite removal_count_snoc, decide_True by done. lia.
Qed.

Lemma intersecting_cons e es :
  intersecting (e :: es)
  = if isIntersecting e then target e :: intersecting es else intersecting es.
Proof.
  unfold intersecting. rewrite filter_cons.
  destruct (isIntersecting e); [by rewrite decide_True|by rewrite decide_False].
Qed.

Lemma imageObserver_other i entries st :
  i ∉ intersecting entries →
  images (imageObserver entries st) !! i = images st !! i
  ∧ (i ∈ observed (imageObserver entries st) ↔ i ∈ observed st)
  ∧ removal_count i (imageObserver entries st) = removal_count i st.
Proof.
  unfold imageObserver. revert st.
  induction entries as [|e es IH]; intros st H; [done|].
  cbn [foldl]. rewrite intersecting_cons in H.
  destruct (on_entry_other i st e) as (H1 & H2 & H3).
  { destruct (isIntersecting e); [left|by right].
    intros Heq. apply H. rewrite Heq. apply list_elem_of_here. }
  destruct (IH (on_entry st e)) as (H4 & H5 & H6).
  { destruct (isIntersecting e); [|done].
    intros Hin. by apply H, list_elem_of_further. }
  rewrite H4, H5, H6. done.
Qed.

Lemma imageObserver_hit i entries st :
  NoDup (intersecting entries) → i ∈ intersecting entries →
  images (imageObserver entries st) !! i = resolve <$> (images st !! i)
  ∧ (i ∉ observed (imageObserver entries st))
  ∧ removal_count i (imageObserver entries st) = S (removal_count i st).
Proof.
  unfold imageObserver. revert st.
  induction entries as [|e es IH]; intros st Hnd Hin.
  { by apply not_elem_of_nil in Hin. }
  cbn [foldl]. rewrite intersecting_cons in Hnd, Hin.
  destruct (isIntersecting e) eqn:E.
  - apply NoDup_cons in Hnd as [Hfresh Hnd].
    destruct (decide (target e = i)) as [Heq|Hne].
    + destruct (on_entry_hit i st e Heq E) as (H1 & H2 & H3).
      destruct (imageObserver_other i es (on_entry st e)) as (H4 & H5 & H6).
      { by rewrite <- Heq. }
      unfold imageObserver in *. rewrite H4, H5, H6. done.
    + destruct (on_entry_other i st e) as (H1 & H2 & H3); [by left|].
      destruct (IH (on_entry st e)) as (H4 & H5 & H6); [done| |].
      { apply elem_of_cons in Hin as [Heq|Hin]; [congruence|done]. }
      rewrite H4, H6, H1, H3. done.
  - destruct (on_entry_other i st e) as (H1 & H2 & H3); [by right|].
    destruct (IH (on_entry st e)) as (H4 & H5 & H6); [done|done|].
    rewrite H4, H6, H1, H3. done.
Qed.

Lemma intersected_cons i b batches :
  intersected i (b :: batches)
  = bool_decide (i ∈ intersecting b) || intersected i batches.
Proof.
  unfold intersected.
  destruct (decide (i ∈ intersecting b)) as [H|H].
  - rewrite (bool_decide_eq_true_2 (i ∈ intersecting b)) by done.
    apply bool_decide_eq_true_2. by left.
  - rewrite (bool_decide_eq_false_2 (i ∈ intersecting b)) by done. cbn [orb].
    apply bool_decide_ext. rewrite Exists_cons. tauto.
Qed.

Lemma deliver_resolved i im batches st st' :
  resolved i im st → deliver batches st = Some st' → resolved i im st'.
Proof.
  revert st. induction batches as [|b rest IH]; intros st H; cbn [deliver].
  - by intros [= <-].
  - destruct (decide (deliverable b st)) as [[Hobs _]|]; [|done].
    apply IH. destruct H as (H1 & H2 & H3).
    destruct (imageObserver_other i b st) as (H4 & H5 & H6).
    { unfold intersecting. intros (e & -> & He)%list_elem_of_fmap.
      apply list_elem_of_filter in He as [_ He].
      rewrite Forall_forall in Hobs. by apply Hobs in He. }
    unfold resolved. rewrite H4, H5, H6. done.
Qed.

Lemma deliver_waiting i im batches st st' :
  waiting i im st → deliver batches st = Some st' →
  if intersected i batches then resolved i im st' else waiting i im st'.
Proof.
  revert st. induction batches as [|b rest IH]; intros st H; cbn [deliver].
  - by intros [= <-].
  - destruct (decide (deliverable b st)) as [[Hobs Hnd]|]; [|done].
    intros D. rewrite intersected_cons. destruct H as (H1 & H2 & H3).
    destruct (decide (i ∈ intersecting b)) as [Hin|Hout].
    + rewrite bool_decide_eq_true_2 by done. cbn [orb].
      apply (deliver_resolved i im rest (imageObserver b st)); [|done].
      destruct (imageObserver_hit i b st Hnd Hin) as (H4 & H5 & H6).
      unfold resolved. rewrite H4, H6, H1, H3. done.
    + rewrite bool_decide_eq_false_2 by done. cbn [orb].
      apply (IH (imageObserver b st)); [|done].
      destruct (imageObserver_other i b st Hout) as (H4 & H5 & H6).
      unfold waiting. rewrite H4, H5, H6. done.
Qed.

Lemma elem_of_lazyImages i imgs :
  i ∈ lazyImages imgs ↔ ∃ im, imgs !! i = Some im ∧ is_lazy im = true.
Proof.
  unfold lazyImages. rewrite list_elem_of_filter, elem_of_seq. split.
  - intros [H _]. destruct (imgs !! i) as [im|]; [|done].
    exists im. split; [done|]. by injection H.
  - intros (im & Hi & Hl). rewrite Hi. cbn. rewrite Hl. split; [done|].
    apply lookup_lt_Some in Hi. lia.
Qed.

Lemma NoDup_lazyImages imgs : NoDup (lazyImages imgs).
Proof. unfold lazyImages. apply NoDup_filter, NoDup_seq. Qed.

Lemma observe_all l st :
  images (foldl (λ st i, observe i st) st l) = images st
  ∧ removals (foldl (λ st i, observe i st) st l) = removals st
  ∧ ∀ i, i ∈ observed (foldl (λ st i, observe i st) st l) ↔ i ∈ observed st ∨ i ∈ l.
Proof.
  revert st. induction l as [|j l IH]; intros st; cbn [foldl].
  - split_and!; [done|done|]. intros i. rewrite elem_of_nil. tauto.
  - destruct (IH (observe j st)) as (H1 & H2 & H3). split_and!; [done|done|].
    intros i. rewrite H3, elem_of_cons. cbn [observe observed].
    rewrite elem_of_union, elem_of_singleton. tauto.
Qed.

Lemma load_all i l st :
  NoDup l →
  images (foldl (λ st i, load i st) st l) !! i
    = (if decide (i ∈ l) then resolve <$> (images st !! i) else images st !! i)
  ∧ removal_count i (foldl (λ st i, load i st) st l)
    = (removal_count i st + if decide (i ∈ l) then 1 else 0)%nat
  ∧ observed (foldl (λ st i, load i st) st l) = observed st.
Proof.
  revert st. induction l as [|j l IH]; intros st Hnd; cbn [foldl].
  - destruct (decide (i ∈ [])) as [H|_]; [by apply not_elem_of_nil in H|].
    split_and!; [done|lia|done].
  - apply NoDup_cons in Hnd as [Hj Hnd].
    destruct (IH (load j st) Hnd) as (H1 & H2 & H3).
    rewrite H1, H2, H3, removal_count_snoc. cbn [load images observed].
    destruct (decide (j = i)) as [->|Hne].
    + destruct (decide (i ∈ l)) as [?|_]; [done|].
      destruct (decide (i ∈ i :: l)) as [_|H]; [|destruct H; apply list_elem_of_here].
      rewrite list_lookup_alter_eq. split_and!; [done|lia|done].
    + rewrite list_lookup_alter_ne by done.
      destruct (decide (i ∈ l)) as [Hin|Hout].
      * destruct (decide (i ∈ j :: l)) as [_|H];
          [|destruct H; by apply list_elem_of_further].
        split_and!; [done|lia|done].
      * destruct (decide (i ∈ j :: l)) as [H|_].
        { apply elem_of_cons in H as [?|?]; congruence. }
        split_and!; [done|lia|done].
Qed.

End LazyLoadFacts.

Section LazyLoadClaims.
Import LazyLoad.

(** C1, as stated, fails in two places.  Where the deferred source set is
    present but empty, the test of line 20 is a truthiness test, so the
    empty value is not copied and the live source set keeps what the markup
    gave it, with or without intersection detection.  And with intersection
    detection an image that is observed but never reported as intersecting
    (one below the fold of a page that is not scrolled) keeps its
    placeholder and its marker, however long the page has been rendered. *)
Lemma C1_not_every_deferred_source_is_copied :
  data_srcset empty_srcset_img = Some ""
  ∧ (λ st, srcset <$> (images st !! 0%nat)) <$>
      deliver [ [ {| target := 0; isIntersecting := true |} ] ]
              (lazyLoadImages true (initial [empty_srcset_img]))
    = Some (Some (Some "small.jpg 1x"))
  ∧ srcset <$> (images (lazyLoadImages false (initial [empty_srcset_img])) !! 0%nat)
    = Some (Some "small.jpg 1x")
  ∧ (λ st, (λ im, (src im, data_src im)) <$> (images st !! 1%nat)) <$>
      deliver [ [ {| target := 0; isIntersecting := true |};
                  {| target := 1; isIntersecting := false |} ] ]
              (lazyLoadImages true (initial example_images))
    = Some (Some (Some "placeholder.gif", Some "about.jpg")).
Proof.
  split_and!; [reflexivity|vm_compute; reflexivity|reflexivity|vm_compute; reflexivity].
Qed.

(** C1, amended: for every image carrying data-src, running lines 19-24 on
    it copies data-src into src, copies data-srcset into srcset when it is
    present and not empty (otherwise srcset keeps its value), and removes
    both data attributes.  Without intersection detection this is done to
    every such image at startup, once.  With intersection detection the
    image starts out observed and untouched; whatever batches of entries the
    browser then delivers (entries of observed targets only, no target
    reported intersecting twice in one batch), an image that was reported
    intersecting has been resolved in that way, is no longer observed and had
    data-src removed exactly once, and an image never reported intersecting
    is still untouched and observed. *)
Theorem C1_deferred_sources_resolved_once
    (imgs : list img) (i : nat) (im : img) (s : string) :
  imgs !! i = Some im →
  data_src im = Some s →
  resolve im = {| src := Some s;
                  srcset := if JS.truthy (data_srcset im)
                            then data_srcset im else srcset im;
                  data_src := None;
                  data_srcset := None |}
  ∧ (∀ v, data_srcset im = Some v → v ≠ "" → srcset (resolve im) = Some v)
  ∧ images (lazyLoadImages false (initial imgs)) !! i = Some (resolve im)
  ∧ removal_count i (lazyLoadImages false (initial imgs)) = 1
  ∧ images (lazyLoadImages true (initial imgs)) !! i = Some im
  ∧ i ∈ observed (lazyLoadImages true (initial imgs))
  ∧ ∀ batches st,
      deliver batches (lazyLoadImages true (initial imgs)) = Some st →
      if intersected i batches
      then images st !! i = Some (resolve im)
           ∧ (i ∉ observed st) ∧ removal_count i st = 1
      else images st !! i = Some im
           ∧ i ∈ observed st ∧ removal_count i st = 0.
Proof.
  intros Hi Hs.
  assert (i ∈ lazyImages imgs) as Hlazy.
  { apply elem_of_lazyImages. exists im. split; [done|].
    unfold is_lazy. by rewrite Hs. }
  destruct (observe_all (lazyImages imgs) (initial imgs)) as (O1 & O2 & O3).
  destruct (load_all i (lazyImages imgs) (initial imgs) (NoDup_lazyImages imgs))
    as (L1 & L2 & _).
  destruct (decide (i ∈ lazyImages imgs)) as [_|?]; [|done].
  assert (waiting i im (lazyLoadImages true (initial imgs))) as Hw.
  { unfold waiting, lazyLoadImages, removal_count. cbn [images initial].
    rewrite O1, O2. split_and!; [done| |done]. apply O3. by right. }
  split_and!.
  - unfold resolve. by rewrite Hs.
  - intros v Hv Hne. unfold resolve, JS.truthy. cbn [srcset]. rewrite Hv.
    by rewrite bool_decide_eq_false_2.
  - unfold lazyLoadImages. cbn [images initial] in *. by rewrite L1, Hi.
  - unfold lazyLoadImages. cbn [images initial] in *. by rewrite L2.
  - apply Hw.
  - apply Hw.
  - intros batches st D. exact (deliver_waiting i im batches _ st Hw D).
Qed.

Lemma C1_deferred_sources_resolved_once_witness :
  example_images !! 0%nat
    = Some {| src := None; srcset := None;
              data_src := Some "hero.jpg"; data_srcset := Some "hero-2x.jpg 2x" |}
  ∧ images (lazyLoadImages false (initial example_images)) !! 0%nat
    = Some {| src := Some "hero.jpg"; srcset := Some "hero-2x.jpg 2x";
              data_src := None; data_srcset := None |}
  ∧ ∃ st, deliver [ [ {| target := 0; isIntersecting := true |};
                      {| target := 1; isIntersecting := false |} ] ]
                  (lazyLoadImages true (initial example_images)) = Some st
        ∧ images st !! 0%nat
          = Some {| src := Some "hero.jpg"; srcset := Some "hero-2x.jpg 2x";
                    data_src := None; data_srcset := None |}
        ∧ removal_count 0 st = 1.
Proof.
  pose proof (C1_deferred_sources_resolved_once example_images 0 _ "hero.jpg"
                eq_refl eq_refl) as (_ & _ & Hfallback & _ & _ & _ & Hobserver).
  split; [reflexivity|]. split; [exact Hfallback|].
  eexists. split; [vm_compute; reflexivity|].
  match goal with |- images ?st !! _ = _ ∧ _ =>
    pose proof (Hobserver [ [ {| target := 0; isIntersecting := true |};
                              {| target := 1; isIntersecting := false |} ] ] st) as H
  end.
  destruct H as (H1 & _ & H3); [vm_compute; reflexivity|].
  split; [exact H1|exact H3].
Defined.

End LazyLoadClaims.

Section GridFacts.
Import Grid.
Context {item : Type}.
Implicit Types (bs : list (block item)) (blk : block item) (g : grid item).
Implicit Types (ls : list li) (b : bar) (l : li).

Lemma arrange_arrange v g : arrange v (arrange v g) = arrange v g.
Proof. unfold arrange. cbn. by destruct (instance g). Qed.

Lemma set_classes_filter f l : li_filter (set_classes f l) = li_filter l.
Proof. done. Qed.


Lemma lookup_mark_active j ls i :
  mark_active j ls !! i
  = if decide (j = i) then set_classes (ClassList.add "filter-active") <$> (ls !! j)
    else ls !! i.
Proof. unfold mark_active. apply list_lookup_alter. Qed.

Lemma lookup_clear_active ls i :
  clear_active ls !! i = set_classes (ClassList.remove "filter-active") <$> (ls !! i).
Proof. unfold clear_active. apply list_lookup_fmap. Qed.

(** After clearing and marking, item [j] is the only one carrying the class. *)
Lemma mark_clear_active j ls i l' :
  mark_active j (clear_active ls) !! i = Some l' →
  (is_filter_active l' = true ↔ i = j)
  ∧ ∃ l, ls !! i = Some l ∧ li_filter l' = li_filter l.
Proof.
  rewrite lookup_mark_active, !lookup_clear_active.
  destruct (decide (j = i)) as [->|Hne].
  - destruct (ls !! i) as [l|]; [|done]. intros [= <-]. split; [|by exists l].
    unfold is_filter_active. cbn. by rewrite contains_add.
  - destruct (ls !! i) as [l|]; [|done]. intros [= <-]. split; [|by exists l].
    unfold is_filter_active. cbn. rewrite contains_remove. split; [done|congruence].
Qed.

Lemma set_classes_add_remove_twice l :
  set_classes (ClassList.add "filter-active")
    (set_classes (ClassList.remove "filter-active")
       (set_classes (ClassList.add "filter-active")
          (set_classes (ClassList.remove "filter-active") l)))
  = set_classes (ClassList.add "filter-active")
      (set_classes (ClassList.remove "filter-active") l).
Proof. unfold set_classes. cbn [li_classes li_filter]. by rewrite remove_add_remove. Qed.

Lemma set_classes_remove_twice l :
  set_classes (ClassList.remove "filter-active")
    (set_classes (ClassList.remove "filter-active") l)
  = set_classes (ClassList.remove "filter-active") l.
Proof. unfold set_classes. cbn [li_classes li_filter]. by rewrite remove_remove. Qed.

Lemma add_remove_add c cl :
  ClassList.add c (ClassList.remove c (ClassList.add c cl))
  = ClassList.add c (ClassList.remove c cl).
Proof.
  unfold ClassList.add at 2. destruct (ClassList.contains c cl) eqn:E; [done|].
  f_equal. unfold ClassList.remove. rewrite filter_app, filter_cons, filter_nil.
  rewrite decide_False by tauto. apply app_nil_r.
Qed.

Lemma set_classes_add_remove_add l :
  set_classes (ClassList.add "filter-active")
    (set_classes (ClassList.remove "filter-active")
       (set_classes (ClassList.add "filter-active") l))
  = set_classes (ClassList.add "filter-active")
      (set_classes (ClassList.remove "filter-active") l).
Proof. unfold set_classes. cbn [li_classes li_filter]. by rewrite add_remove_add. Qed.

Lemma mark_clear_idem j ls :
  mark_active j (clear_active (mark_active j (clear_active ls)))
  = mark_active j (clear_active ls).
Proof.
  apply list_eq. intros i.
  rewrite !lookup_mark_active, !lookup_clear_active, !lookup_mark_active,
    !lookup_clear_active.
  destruct (decide (j = i)) as [->|Hne].
  - rewrite decide_True by done.
    destruct (ls !! i) as [l|]; [|done]. cbn [fmap option_fmap option_map].
    by rewrite set_classes_add_remove_twice.
  - destruct (ls !! i) as [l|]; [|done]. cbn [fmap option_fmap option_map].
    by rewrite set_classes_remove_twice.
Qed.

Lemma clear_clear ls : clear_active (clear_active ls) = clear_active ls.
Proof.
  apply list_eq. intros i. rewrite !lookup_clear_active.
  destruct (ls !! i) as [l|]; [|done]. cbn [fmap option_fmap option_map].
  by rewrite set_classes_remove_twice.
Qed.

Lemma mark_clear_mark j ls :
  mark_active j (clear_active (mark_active j ls)) = mark_active j (clear_active ls).
Proof.
  apply list_eq. intros i.
  rewrite !lookup_mark_active, !lookup_clear_active, !lookup_mark_active.
  destruct (decide (j = i)) as [->|Hne]; [|done].
  rewrite decide_True by done.
  destruct (ls !! i) as [l|]; [|done]. cbn [fmap option_fmap option_map].
  by rewrite set_classes_add_remove_add.
Qed.

Lemma bar_of_lookup k bs blk :
  bs !! k = Some blk → bar_of k bs = filtersElem blk.
Proof. unfold bar_of. by intros ->. Qed.

Lemma activated_again j v blk :
  set_lis (mark_active j) (set_lis clear_active (activated j v blk)) = activated j v blk.
Proof.
  unfold activated, set_lis, set_grid. cbn. f_equal.
  destruct (filtersElem blk) as [b|]; [|done]. cbn. do 2 f_equal.
  apply mark_clear_idem.
Qed.

Lemma activated_arrange j v blk :
  set_grid (arrange v) (activated j v blk) = activated j v blk.
Proof.
  unfold activated, set_lis, set_grid. cbn. f_equal.
  destruct (container blk) as [g|]; [|done]. cbn. f_equal. apply arrange_arrange.
Qed.

Lemma filter_value_activated k j v bs blk :
  bs !! k = Some (activated j v blk) →
  ∀ b tgt, filtersElem blk = Some b → lis b !! j = Some tgt →
  filter_value k j bs = li_filter tgt.
Proof.
  intros Hk b tgt Hb Hj. unfold filter_value, target_li.
  rewrite (bar_of_lookup _ _ _ Hk). unfold activated, set_grid, set_lis. cbn.
  rewrite Hb. cbn. rewrite lookup_mark_active, decide_True by done.
  rewrite lookup_clear_active, Hj. done.
Qed.

Lemma body_listener_activated isotope k j v bs blk b tgt :
  bs !! k = Some (activated j v blk) →
  filtersElem blk = Some b → lis b !! j = Some tgt → li_filter tgt = v →
  body_listener isotope k j bs !! k = Some (activated j v blk).
Proof.
  intros Hk Hb Hj Hv. unfold body_listener.
  rewrite (bar_of_lookup _ _ _ Hk).
  assert (∃ b1, filtersElem (activated j v blk) = Some b1
                ∧ in_portfolio_filters b1 = in_portfolio_filters b) as (b1 & Hb1 & Hp).
  { unfold activated, set_grid, set_lis. cbn. rewrite Hb. cbn. eauto. }
  rewrite Hb1. destruct (in_portfolio_filters b1) eqn:P; [|done].
  erewrite filter_value_activated; [|done|done|done]. rewrite Hv.
  match goal with |- context [alter (set_lis (mark_active j)) k ?l] =>
    assert (alter (set_lis (mark_active j)) k l !! k = Some (activated j v blk)) as Hk2
  end.
  { rewrite list_lookup_alter_eq, list_lookup_fmap, Hk. cbn [fmap option_fmap option_map].
    unfold clear_portfolio. rewrite Hb1, P. by rewrite activated_again. }
  destruct isotope; [|done].
  destruct (first_container _) as [c|]; [|done].
  rewrite list_lookup_alter. destruct (decide (c = k)) as [->|]; [|done].
  rewrite Hk2. cbn [fmap option_fmap option_map]. by rewrite activated_arrange.
Qed.

Lemma click_activated k j (pg : page item) blk b tgt :
  blocks pg !! k = Some blk → wired blk = true →
  filtersElem blk = Some b → lis b !! j = Some tgt →
  ∃ pg', click k j pg = Some pg'
       ∧ blocks pg' !! k = Some (activated j (li_filter tgt) blk).
Proof.
  intros Hk Hw Hb Hj. unfold click. rewrite Hk.
  assert (target_li k j (blocks pg) = Some tgt) as Ht.
  { unfold target_li. by rewrite (bar_of_lookup _ _ _ Hk), Hb. }
  rewrite Ht, Hw. eexists. split; [reflexivity|]. cbn [blocks].
  assert (bar_listener k j (blocks pg) !! k = Some (activated j (li_filter tgt) blk)) as H1.
  { unfold bar_listener, filter_value. by rewrite Ht, list_lookup_alter_eq, Hk. }
  destruct (delegated pg); [|done].
  by eapply body_listener_activated.
Qed.

End GridFacts.

Section GridClaims.
Import Grid.

(** The controls of the example bar and the visible elements after a click
    on the second control, and after a click on the wildcard control. *)
Example click_example :
  (λ pg, (λ blk, ((λ b, is_filter_active <$> lis b) <$> filtersElem blk,
                  visible example_matches <$> container blk)) <$> blocks pg)
    <$> click 0 1 (init_isotope example_page)
  = Some [ (Some [false; true; false], Some ["filter-app"; "filter-app"]) ]
  ∧
  (λ pg, (λ blk, ((λ b, is_filter_active <$> lis b) <$> filtersElem blk,
                  visible example_matches <$> container blk)) <$> blocks pg)
    <$> (click 0 1 (init_isotope example_page) ≫= click 0 0)
  = Some [ (Some [true; false; false],
            Some ["filter-app"; "filter-web"; "filter-app"]) ].
Proof. split; reflexivity. Qed.

End GridClaims.

Section ReadyFacts.
Import Eff Ready.
Context {item : Type}.
Implicit Types (p : Ready.page item).

Example domContentLoaded_example :
  let r := domContentLoaded (example_page all_globals true (Some "Designer,Developer")) in
  r.1 = Ok tt
  ∧ calls r.2 = [ FontFaceObserver_load ["Roboto"; "Raleway"; "Poppins"]; AOS_init;
                  New_Typed ["Designer"; "Developer"]; New_PureCounter;
                  GLightbox_init; New_Swiper "{}"; Window_scrollTo 400 ]
  ∧ header_wired r.2 = true ∧ nav_wired r.2 = true
  ∧ console r.2 = [(JS.Log, "DOM Content Loaded: Initializing optimizations...")].
Proof. vm_compute. split_and!; reflexivity. Qed.

Lemma preserves_bind {S A B X} (f : S → X) (m : M S A) (k : A → M S B) :
  preserves f m → (∀ a, preserves f (k a)) → preserves f (m ≫= k).
Proof.
  intros Hm Hk s. unfold mbind, M_bind. specialize (Hm s).
  destruct (m s) as [[a|e] s']; cbn in *; [|done]. by rewrite Hk.
Qed.

Lemma preserves_gets {S A X} (f : S → X) (g : S → A) : preserves f (gets g).
Proof. done. Qed.

Lemma preserves_ret {S A X} (f : S → X) (a : A) : preserves f (mret a : M S A).
Proof. done. Qed.

Lemma preserves_throw {S A X} (f : S → X) e : preserves f (throw e : M S A).
Proof. done. Qed.

Lemma preserves_modify {S X} (f : S → X) (g : S → S) :
  (∀ s, f (g s) = f s) → preserves f (modify g).
Proof. intros H s. apply H. Qed.

Lemma preserves_when {S X} (f : S → X) c (m : M S unit) :
  preserves f m → preserves f (when c m).
Proof. intros H. destruct c; [done|apply preserves_ret]. Qed.

Lemma preserves_forEach {S A X} (f : S → X) (cb : A → M S unit) xs :
  (∀ x, preserves f (cb x)) → preserves f (forEach cb xs).
Proof.
  intros H. induction xs as [|x xs IH]; [apply preserves_ret|].
  cbn [forEach]. apply preserves_bind; [apply H|done].
Qed.

Lemma returns_bind {S A B} (I : S → Prop) (m : M S A) (k : A → M S B) :
  returns I m → (∀ a, returns I (k a)) → returns I (m ≫= k).
Proof.
  intros Hm Hk s Hs. destruct (Hm s Hs) as (a & s' & E & Hs').
  destruct (Hk a s' Hs') as (b & s'' & E' & Hs'').
  exists b, s''. unfold mbind, M_bind. by rewrite E.
Qed.

Ltac preserves_step :=
  first
    [ apply preserves_bind; [|intros ?]
    | apply preserves_gets
    | apply preserves_ret
    | apply preserves_throw
    | apply preserves_when
    | apply preserves_forEach; intros ?
    | apply preserves_modify; intros ?; reflexivity
    | match goal with |- preserves _ (match ?x with _ => _ end) => destruct x end ].

Ltac preserves_auto := repeat preserves_step.


Lemma domContentLoaded_split p :
  domContentLoaded p = ready_rest (ready_prefix p).2.
Proof.
  destruct p as [e ? ? ? ? ? ? ? ? ? ? ? ? ? ?].
  destruct e as [io ffo aos t pc gl sw]. by destruct ffo.
Qed.


Lemma returns_modify {S} (I : S → Prop) (g : S → S) :
  (∀ s, I s → I (g s)) → returns I (modify g).
Proof. intros H s Hs. exists tt, (g s). split; [done|auto]. Qed.

Lemma returns_forEach {S A} (I : S → Prop) (cb : A → M S unit) xs :
  Forall (λ x, returns I (cb x)) xs → returns I (forEach cb xs).
Proof.
  induction 1 as [|x xs Hx _ IH]; cbn [forEach].
  - intros s Hs. by exists tt, s.
  - apply returns_bind; [exact Hx|]. intros _. exact IH.
Qed.

Lemma returns_invoke c : returns (safe (item := item)) (invoke c).
Proof. apply returns_modify. intros s Hs. exact Hs. Qed.

Lemma returns_when_flag (flag : Ready.page item → bool) (m : M (Ready.page item) unit) :
  (∀ s, safe s → flag s = true → ∃ a s', m s = (Ok a, s') ∧ safe s') →
  returns safe (f ← gets flag; when f m).
Proof.
  intros H s Hs. unfold mbind, M_bind, gets. cbn.
  destruct (flag s) eqn:F; cbn; [|by exists tt, s].
  destruct (H s Hs F) as ([] & s' & E & Hs'). by exists tt, s'.
Qed.

Lemma returns_print lv msg : returns (safe (item := item)) (print lv msg).
Proof. apply returns_modify. intros s Hs. exact Hs. Qed.

Lemma returns_lazyLoadImages : returns (safe (item := item)) lazyLoadImages.
Proof. intros s Hs. eexists tt, _. split; [reflexivity|exact Hs]. Qed.

Lemma returns_optimizeFontLoading : returns (safe (item := item)) optimizeFontLoading.
Proof.
  intros s Hs. unfold optimizeFontLoading, mbind, M_bind, gets. cbn.
  destruct (has_FontFaceObserver (env s)); eexists tt, _; (split; [reflexivity|exact Hs]).
Qed.

Lemma returns_setupEventDelegation : returns (safe (item := item)) setupEventDelegation.
Proof. apply returns_modify. intros s Hs. exact Hs. Qed.

Lemma returns_init_AOS : returns (safe (item := item)) init_AOS.
Proof.
  apply returns_when_flag. intros s Hs _. eexists tt, _. split; [reflexivity|exact Hs].
Qed.

Lemma returns_init_PureCounter : returns (safe (item := item)) init_PureCounter.
Proof.
  apply returns_when_flag. intros s Hs _. eexists tt, _. split; [reflexivity|exact Hs].
Qed.

Lemma returns_init_GLightbox : returns (safe (item := item)) init_GLightbox.
Proof.
  apply returns_when_flag. intros s Hs _. eexists tt, _. split; [reflexivity|exact Hs].
Qed.

Lemma returns_init_Isotope : returns (safe (item := item)) init_Isotope.
Proof. apply returns_modify. intros s Hs. exact Hs. Qed.

Lemma returns_wire_header_toggle : returns (safe (item := item)) wire_header_toggle.
Proof.
  apply returns_modify. intros s Hs. destruct (headerToggle s), (header s); exact Hs.
Qed.

Lemma returns_init_Typed : returns (safe (item := item)) init_Typed.
Proof.
  apply returns_when_flag. intros s Hs Ht. unfold mbind, M_bind, gets. cbn.
  destruct (typed s) as [[x|]|] eqn:E; cbn.
  - eexists tt, _. split; [reflexivity|exact Hs].
  - destruct Hs as (H1 & _). by destruct (H1 Ht).
  - by exists tt, s.
Qed.

Lemma returns_init_Swiper : returns (safe (item := item)) init_Swiper.
Proof.
  apply returns_when_flag. intros s Hs Hsw. unfold mbind, M_bind, gets. cbn.
  assert (Forall (λ el, ∃ html, el = Config html true) (swipers s)) as Hok
    by (by apply Hs).
  match goal with |- context [forEach ?cb (swipers s) s] =>
    destruct (returns_forEach safe cb (swipers s)) with (s := s) as ([] & s' & E & Hs')
  end; [|done|by exists tt, s'].
  eapply Forall_impl; [exact Hok|]. intros el [html ->]. apply returns_invoke.
Qed.

Lemma returns_smooth_scroll : returns (safe (item := item)) smooth_scroll.
Proof.
  intros s Hs. unfold smooth_scroll, mbind, M_bind, gets, when. cbn.
  case_bool_decide as Hh; cbn; [by exists tt, s|].
  destruct (hash_target s) eqn:E; cbn.
  - destruct Hs as (_ & _ & H3 & _). by destruct (H3 Hh).
  - by exists tt, s.
  - eexists tt, _. split; [reflexivity|exact Hs].
Qed.

Lemma returns_wire_navmenu : returns (safe (item := item)) wire_navmenu.
Proof.
  intros s Hs. unfold wire_navmenu, mbind, M_bind, modify, activateNavmenuLink. cbn.
  destruct Hs as (H1 & H2 & H3 & H4).
  rewrite (activateNavmenuLink_run _ H4). eexists tt, _. split; [reflexivity|].
  split_and!; [exact H1|exact H2|exact H3|]. cbn.
  eapply hrefs_present_fmap; [|exact H4].
  rewrite <- (activateNavmenuLink_hrefs (nav s)).
  by rewrite (activateNavmenuLink_run _ H4).
Qed.

Lemma domContentLoaded_returns_safe : returns (safe (item := item)) domContentLoaded.
Proof.
  unfold domContentLoaded.
  apply returns_bind; [apply returns_print|intros _].
  apply returns_bind; [apply returns_lazyLoadImages|intros _].
  apply returns_bind; [apply returns_optimizeFontLoading|intros _].
  apply returns_bind; [apply returns_setupEventDelegation|intros _].
  apply returns_bind; [apply returns_init_AOS|intros _].
  apply returns_bind; [apply returns_init_Typed|intros _].
  apply returns_bind; [apply returns_init_PureCounter|intros _].
  apply returns_bind; [apply returns_init_GLightbox|intros _].
  apply returns_bind; [apply returns_init_Swiper|intros _].
  apply returns_bind; [apply returns_init_Isotope|intros _].
  apply returns_bind; [apply returns_smooth_scroll|intros _].
  apply returns_bind; [apply returns_wire_header_toggle|intros _].
  apply returns_wire_navmenu.
Qed.

Lemma domContentLoaded_returns p :
  safe p → (domContentLoaded p).1 = Ok tt ∧ safe (domContentLoaded p).2.
Proof.
  intros Hp. destruct (domContentLoaded_returns_safe p Hp) as ([] & p' & E & H).
  by rewrite E.
Qed.

Lemma spec_bind {S A B} (P Q R E : S → Prop) (m : M S A) (k : A → M S B) :
  spec P m Q E → (∀ a, spec Q (k a) R E) → spec P (m ≫= k) R E.
Proof.
  intros Hm Hk s Hs. specialize (Hm s Hs). unfold mbind, M_bind.
  destruct (m s) as [[a|e] s']; [|done]. by apply Hk.
Qed.

Lemma spec_preserves {S A X} (f : S → X) (x : X) (E : S → Prop) (m : M S A) :
  preserves f m → (∀ s, f s = x → E s) →
  spec (λ s, f s = x) m (λ s, f s = x) E.
Proof.
  intros Hm HE s Hs. specialize (Hm s).
  destruct (m s) as [[a|e] s']; cbn in Hm; [congruence|]. apply HE. congruence.
Qed.

Lemma spec_returns_preserves {S A X} (I : S → Prop) (f : S → X) (x : X) (m : M S A) :
  returns I m → preserves f m →
  spec (λ s, I s ∧ f s = x) m (λ s, I s ∧ f s = x) (λ _, False).
Proof.
  intros Hr Hp s [Hs Hx]. specialize (Hp s).
  destruct (Hr s Hs) as (a & s' & E & Hs'). rewrite E in *. cbn in Hp.
  split; [done|congruence].
Qed.

Lemma preserves_grid_view_print lv msg : preserves (grid_view (item := item)) (print lv msg).
Proof. unfold print. preserves_auto. Qed.

Lemma preserves_grid_view_lazyLoadImages : preserves (grid_view (item := item)) lazyLoadImages.
Proof. unfold lazyLoadImages. preserves_auto. Qed.

Lemma preserves_grid_view_optimizeFontLoading :
  preserves (grid_view (item := item)) optimizeFontLoading.
Proof. unfold optimizeFontLoading, invoke, print. preserves_auto. Qed.

Lemma preserves_grid_view_setupEventDelegation :
  preserves (grid_view (item := item)) setupEventDelegation.
Proof. unfold setupEventDelegation. preserves_auto. Qed.

Lemma preserves_grid_view_init_AOS : preserves (grid_view (item := item)) init_AOS.
Proof. unfold init_AOS, invoke. preserves_auto. Qed.

Lemma preserves_grid_view_init_Typed : preserves (grid_view (item := item)) init_Typed.
Proof. unfold init_Typed, invoke. preserves_auto. Qed.

Lemma preserves_grid_view_init_PureCounter :
  preserves (grid_view (item := item)) init_PureCounter.
Proof. unfold init_PureCounter, invoke. preserves_auto. Qed.

Lemma preserves_grid_view_init_GLightbox :
  preserves (grid_view (item := item)) init_GLightbox.
Proof. unfold init_GLightbox, invoke. preserves_auto. Qed.

Lemma preserves_grid_view_init_Swiper : preserves (grid_view (item := item)) init_Swiper.
Proof. unfold init_Swiper, invoke. preserves_auto. Qed.

Lemma preserves_grid_view_smooth_scroll : preserves (grid_view (item := item)) smooth_scroll.
Proof. unfold smooth_scroll, invoke. preserves_auto. Qed.

Lemma preserves_grid_view_wire_header_toggle :
  preserves (grid_view (item := item)) wire_header_toggle.
Proof.
  unfold wire_header_toggle. apply preserves_modify. intros p.
  by destruct (headerToggle p), (header p).
Qed.

Lemma preserves_grid_view_wire_navmenu : preserves (grid_view (item := item)) wire_navmenu.
Proof.
  unfold wire_navmenu. preserves_auto. intros p. unfold activateNavmenuLink.
  by destruct (Navmenu.activateNavmenuLink (nav p)).
Qed.

Lemma grid_view_init_Isotope p :
  grid_view (init_Isotope p).2 = grid_view_init (grid_view p).
Proof.
  unfold init_Isotope, modify, grid_view, grid_view_init, Grid.init_isotope. cbn.
  destruct (Grid.has_Isotope (grids p)) eqn:E; cbn; by rewrite ?E.
Qed.

(** The grids after the listener: untouched when it threw before line 266,
    initialised once otherwise. *)
Lemma domContentLoaded_grid_view p :
  grid_view (domContentLoaded p).2 = grid_view p
  ∨ grid_view (domContentLoaded p).2 = grid_view_init (grid_view p).
Proof.
  set (x := grid_view p).
  set (E := λ s : Ready.page item, grid_view s = x ∨ grid_view s = grid_view_init x).
  assert (spec (λ s, grid_view s = x) domContentLoaded
               (λ s, grid_view s = grid_view_init x) E) as H.
  { unfold domContentLoaded.
    assert (∀ s, grid_view s = x → E s) as E1 by (intros; by left).
    assert (∀ s, grid_view s = grid_view_init x → E s) as E2 by (intros; by right).
    eapply spec_bind; [by apply spec_preserves, E1; apply preserves_grid_view_print|intros _].
    eapply spec_bind; [by apply spec_preserves, E1; apply preserves_grid_view_lazyLoadImages|intros _].
    eapply spec_bind; [by apply spec_preserves, E1; apply preserves_grid_view_optimizeFontLoading|intros _].
    eapply spec_bind; [by apply spec_preserves, E1; apply preserves_grid_view_setupEventDelegation|intros _].
    eapply spec_bind; [by apply spec_preserves, E1; apply preserves_grid_view_init_AOS|intros _].
    eapply spec_bind; [by apply spec_preserves, E1; apply preserves_grid_view_init_Typed|intros _].
    eapply spec_bind; [by apply spec_preserves, E1; apply preserves_grid_view_init_PureCounter|intros _].
    eapply spec_bind; [by apply spec_preserves, E1; apply preserves_grid_view_init_GLightbox|intros _].
    eapply spec_bind; [by apply spec_preserves, E1; apply preserves_grid_view_init_Swiper|intros _].
    eapply (spec_bind _ (λ s, grid_view s = grid_view_init x)).
    { intros s Hs. change (grid_view (init_Isotope s).2 = grid_view_init x).
      by rewrite grid_view_init_Isotope, Hs. }
    intros _.
    eapply spec_bind; [by apply spec_preserves, E2; apply preserves_grid_view_smooth_scroll|intros _].
    eapply spec_bind; [by apply spec_preserves, E2; apply preserves_grid_view_wire_header_toggle|intros _].
    by apply spec_preserves, E2; apply preserves_grid_view_wire_navmenu. }
  specialize (H p eq_refl). destruct (domContentLoaded p) as [[[]|e] p']; [by right|exact H].
Qed.

Lemma domContentLoaded_grid_view_safe p :
  safe p → grid_view (domContentLoaded p).2 = grid_view_init (grid_view p).
Proof.
  intros Hp. set (x := grid_view p).
  assert (spec (λ s, safe s ∧ grid_view s = x) domContentLoaded
               (λ s, safe s ∧ grid_view s = grid_view_init x) (λ _, False)) as H.
  { unfold domContentLoaded.
    eapply spec_bind; [apply spec_returns_preserves;
      [apply returns_print|apply preserves_grid_view_print]|intros _].
    eapply spec_bind; [apply spec_returns_preserves;
      [apply returns_lazyLoadImages|apply preserves_grid_view_lazyLoadImages]|intros _].
    eapply spec_bind; [apply spec_returns_preserves;
      [apply returns_optimizeFontLoading|apply preserves_grid_view_optimizeFontLoading]|intros _].
    eapply spec_bind; [apply spec_returns_preserves;
      [apply returns_setupEventDelegation|apply preserves_grid_view_setupEventDelegation]|intros _].
    eapply spec_bind; [apply spec_returns_preserves;
      [apply returns_init_AOS|apply preserves_grid_view_init_AOS]|intros _].
    eapply spec_bind; [apply spec_returns_preserves;
      [apply returns_init_Typed|apply preserves_grid_view_init_Typed]|intros _].
    eapply spec_bind; [apply spec_returns_preserves;
      [apply returns_init_PureCounter|apply preserves_grid_view_init_PureCounter]|intros _].
    eapply spec_bind; [apply spec_returns_preserves;
      [apply returns_init_GLightbox|apply preserves_grid_view_init_GLightbox]|intros _].
    eapply spec_bind; [apply spec_returns_preserves;
      [apply returns_init_Swiper|apply preserves_grid_view_init_Swiper]|intros _].
    eapply (spec_bind _ (λ s, safe s ∧ grid_view s = grid_view_init x)).
    { intros s [Hs Hx].
      change (safe s ∧ grid_view (init_Isotope s).2 = grid_view_init x).
      split; [exact Hs|]. by rewrite grid_view_init_Isotope, Hx. }
    intros _.
    eapply spec_bind; [apply spec_returns_preserves;
      [apply returns_smooth_scroll|apply preserves_grid_view_smooth_scroll]|intros _].
    eapply spec_bind; [apply spec_returns_preserves;
      [apply returns_wire_header_toggle|apply preserves_grid_view_wire_header_toggle]|intros _].
    apply spec_returns_preserves;
      [apply returns_wire_navmenu|apply preserves_grid_view_wire_navmenu]. }
  specialize (H p (conj Hp eq_refl)).
  destruct (domContentLoaded p) as [[[]|e] p']; [apply H|done].
Qed.


End ReadyFacts.

Section CapabilityFacts.
Import Eff Ready Capability.
Context {item : Type} (e : globals) (cs : list call).

Local Abbreviation kept := (called_only_available (item := item) e cs).



















End CapabilityFacts.

Section ReadyClaims.
Import Eff Ready.




(** C10: when the Typed global is present and the page has a .typed element
    without the data-typed-items attribute, the document-ready listener
    throws a TypeError from the split call of line 234 and stops there: of
    the optional libraries only the font observer and AOS were called, no
    grid instance was created, no smooth scroll was requested, and the
    header toggle and the navigation highlighter are left unwired and
    untouched. *)
Theorem C10_typed_without_items_aborts_ready
    {item : Type} (p : Ready.page item) :
  has_Typed (env p) = true →
  typed p = Some None →
  ∃ p', domContentLoaded p = (Throw (JS.TypeError "null has no property split"), p')
      ∧ calls p' = calls p
                   ++ (if has_FontFaceObserver (env p)
                       then [FontFaceObserver_load ["Roboto"; "Raleway"; "Poppins"]]
                       else [])
                   ++ (if has_AOS (env p) then [AOS_init] else [])
      ∧ Grid.blocks (grids p') = Grid.blocks (grids p)
      ∧ headerToggle p' = headerToggle p
      ∧ header p' = header p
      ∧ header_wired p' = header_wired p
      ∧ nav p' = nav p
      ∧ nav_wired p' = nav_wired p.
Proof.
  intros Ht Hn. destruct p as [e ? ? ? ? ty ? ? ? ? ? ? ? ? ?].
  destruct e as [io ffo aos t pc gl sw]. cbn in Ht, Hn. subst t ty.
  destruct ffo, aos; eexists; (split; [reflexivity|]); cbn;
    rewrite ?app_nil_r, <- ?app_assoc; done.
Qed.

Lemma C10_typed_without_items_aborts_ready_witness :
  ∃ p', domContentLoaded (example_page all_globals true None)
        = (Throw (JS.TypeError "null has no property split"), p')
      ∧ header_wired p' = false ∧ nav_wired p' = false
      ∧ calls p' = [FontFaceObserver_load ["Roboto"; "Raleway"; "Poppins"]; AOS_init].
Proof.
  destruct (C10_typed_without_items_aborts_ready
              (example_page all_globals true None) eq_refl eq_refl)
    as (p' & E & Hc & _ & _ & _ & Hh & _ & Hn).
  exists p'. split; [exact E|]. split; [exact Hh|]. split; [exact Hn|exact Hc].
Defined.

(** The example grid carries no filter or sort marker: after the listener
    its instance has the layout of the marker and the default filter and
    sort key, and one instance was created. *)
Example init_isotope_example :
  (λ blk, (λ g, (Grid.instance g, Grid.created g)) <$> Grid.container blk)
    <$> Grid.blocks (grids (domContentLoaded
                              (example_page all_globals true (Some "Designer"))).2)
  = [ Some (Some {| Grid.itemSelector := ".isotope-item";
                    Grid.layoutMode := "masonry";
                    Grid.filter := Some "*";
                    Grid.sortBy := "original-order" |}, 1%nat) ].
Proof. reflexivity. Qed.

(** C7: the constructor call of line 272 receives the layout, filter and
    sort key read from the container's own data-layout, data-default-filter
    and data-sort attributes; a missing (or empty) attribute gives masonry,
    the wildcard and original-order.  For every grid container of the page,
    the document-ready listener leaves it untouched or constructs exactly
    one instance on it with these options, so at most one is created; none
    is created without the Isotope global, and one is created whenever the
    global is present and the listener runs through. *)
Theorem C7_grid_created_once_from_own_markers
    {item : Type} (p : Ready.page item) (k : nat)
    (blk : Grid.block item) (g : Grid.grid item) :
  Grid.blocks (grids p) !! k = Some blk →
  Grid.container blk = Some g →
  Grid.instance (Grid.new_Isotope g)
  = Some {| Grid.itemSelector := ".isotope-item";
            Grid.layoutMode := JS.or_default (Grid.data_layout g) "masonry";
            Grid.filter := Some (JS.or_default (Grid.data_default_filter g) "*");
            Grid.sortBy := JS.or_default (Grid.data_sort g) "original-order" |}
  ∧ (Grid.data_layout g = None → JS.or_default (Grid.data_layout g) "masonry" = "masonry")
  ∧ (Grid.data_default_filter g = None →
     JS.or_default (Grid.data_default_filter g) "*" = "*")
  ∧ (Grid.data_sort g = None →
     JS.or_default (Grid.data_sort g) "original-order" = "original-order")
  ∧ (∀ v, v ≠ "" → Grid.data_layout g = Some v →
     JS.or_default (Grid.data_layout g) "masonry" = v)
  ∧ (∀ v, v ≠ "" → Grid.data_default_filter g = Some v →
     JS.or_default (Grid.data_default_filter g) "*" = v)
  ∧ (∀ v, v ≠ "" → Grid.data_sort g = Some v →
     JS.or_default (Grid.data_sort g) "original-order" = v)
  ∧ ∃ blk' g',
      Grid.blocks (grids (domContentLoaded p).2) !! k = Some blk'
      ∧ Grid.container blk' = Some g'
      ∧ (g' = g ∨ g' = Grid.new_Isotope g)
      ∧ (Grid.created g' ≤ S (Grid.created g))%nat
      ∧ (Grid.has_Isotope (grids p) = false → g' = g)
      ∧ (Grid.has_Isotope (grids p) = true → safe p → g' = Grid.new_Isotope g).
Proof.
  intros Hk Hg.
  assert (∀ a d v, v ≠ "" → a = Some v → JS.or_default a d = v) as Hdef.
  { intros a d v Hv ->. unfold JS.or_default. by rewrite bool_decide_eq_false_2. }
  split_and!; [done|by intros ->|by intros ->|by intros ->|by apply Hdef..|].
  assert ((Grid.init_block <$> Grid.blocks (grids p)) !! k
          = Some {| Grid.filtersElem := Grid.filtersElem blk;
                    Grid.container := Some (Grid.new_Isotope g);
                    Grid.wired := Grid.wired (Grid.init_block blk) |}) as Hinit.
  { rewrite list_lookup_fmap, Hk. cbn. unfold Grid.init_block. by rewrite Hg. }
  pose proof (domContentLoaded_grid_view p) as Hview.
  pose proof (domContentLoaded_grid_view_safe p) as Hsafe.
  unfold grid_view, grid_view_init in Hview, Hsafe. cbn [fst snd] in Hview, Hsafe.
  destruct (Grid.has_Isotope (grids p)) eqn:Hiso.
  - destruct Hview as [[= Hb _]|[= Hb _]]; rewrite Hb.
    + exists blk, g. split_and!; [done|done|by left|lia|done|].
      intros _ Hp. specialize (Hsafe Hp). injection Hsafe as Hb' _.
      rewrite Hb' in Hb. rewrite <- Hb, Hinit in Hk. injection Hk as Hk.
      rewrite <- Hk in Hg. cbn in Hg. by injection Hg.
    + eexists _, _. split; [exact Hinit|]. cbn [Grid.container].
      split_and!; [done|by right|unfold Grid.new_Isotope; cbn; lia|done|done].
  - exists blk, g.
    assert (Grid.blocks (grids (domContentLoaded p).2) = Grid.blocks (grids p)) as ->.
    { by destruct Hview as [[= Hb _]|[= Hb _]]. }
    split_and!; [done|done|by left|lia|done|done].
Qed.

Lemma C7_grid_created_once_from_own_markers_witness :
  ∃ blk' g',
    Grid.blocks (grids (domContentLoaded
                          (example_page all_globals true (Some "Designer"))).2) !! 0%nat
    = Some blk'
    ∧ Grid.container blk' = Some g'
    ∧ (Grid.created g' ≤ 1)%nat.
Proof.
  destruct (C7_grid_created_once_from_own_markers
              (example_page all_globals true (Some "Designer")) 0 _ _ eq_refl eq_refl)
    as (_ & _ & _ & _ & _ & _ & _ & blk' & g' & Hk & Hg & _ & Hle & _).
  exists blk', g'. split; [exact Hk|]. split; [exact Hg|exact Hle].
Defined.

End ReadyClaims.

Section Idempotence.
Local Open Scope Z_scope.

Lemma handleScroll_body_idem (d : Scroll.dom) :
  Scroll.handleScroll_body (Scroll.handleScroll_body d) = Scroll.handleScroll_body d.
Proof.
  unfold Scroll.handleScroll_body.
  destruct (Scroll.scrollTopButton d) as [cl|] eqn:B; cbn; [|by rewrite B].
  f_equal. f_equal. destruct (100 <? Scroll.scrollTop (Scroll.win d)).
  - apply add_add.
  - apply remove_remove.
Qed.

Lemma activate_link_idem cur (l : Navmenu.link) :
  Navmenu.activate_link cur (Navmenu.activate_link cur l).1 = Navmenu.activate_link cur l.
Proof.
  unfold Navmenu.activate_link. destruct l as [[h|] cl];
    cbn [Navmenu.href Navmenu.classList].
  - case_bool_decide as E; cbn [fst Navmenu.href Navmenu.classList].
    + rewrite bool_decide_eq_true_2 by done. by rewrite remove_add_remove.
    + rewrite bool_decide_eq_false_2 by done. by rewrite remove_remove.
  - cbn [fst Navmenu.href Navmenu.classList]. by rewrite remove_remove.
Qed.

Lemma forEach_idem {A} (cb : A → A * option JS.exn) (l : list A) :
  (∀ x, cb (cb x).1 = cb x) →
  Dom.forEach cb (Dom.forEach cb l).1 = Dom.forEach cb l.
Proof.
  intros Hcb. induction l as [|x l IH]; [done|].
  cbn [Dom.forEach]. pose proof (Hcb x) as Hx.
  destruct (cb x) as [x' [e|]] eqn:E; cbn [fst] in *.
  - cbn [Dom.forEach]. by rewrite Hx.
  - destruct (Dom.forEach cb l) as [r e] eqn:F. cbn [fst] in *.
    cbn [Dom.forEach]. by rewrite Hx, IH.
Qed.

Lemma activateNavmenuLink_idem (st : Navmenu.state) :
  Navmenu.activateNavmenuLink (Navmenu.activateNavmenuLink st).1
  = Navmenu.activateNavmenuLink st.
Proof.
  unfold Navmenu.activateNavmenuLink.
  pose proof (forEach_idem
                (Navmenu.activate_link
                   (Navmenu.currentActive (Navmenu.scrollY st) (Navmenu.sections st)))
                (Navmenu.navmenuLinks st) (activate_link_idem _)) as H.
  destruct (Dom.forEach _ (Navmenu.navmenuLinks st)) as [r e].
  cbn [fst Navmenu.scrollY Navmenu.sections Navmenu.navmenuLinks] in *.
  by rewrite H.
Qed.

End Idempotence.

Section GridIdempotence.
Import Grid.
Context {item : Type}.
Implicit Types (bs : list (block item)) (blk : block item) (g : grid item).
Implicit Types (ls : list li) (b : bar) (l : li).

Lemma li_filter_clear ls : li_filter <$> clear_active ls = li_filter <$> ls.
Proof.
  unfold clear_active. rewrite <- list_fmap_compose. by apply list_fmap_ext.
Qed.

Lemma li_filter_mark j ls : li_filter <$> mark_active j ls = li_filter <$> ls.
Proof.
  apply list_eq. intros i. rewrite !list_lookup_fmap, lookup_mark_active.
  destruct (decide (j = i)) as [->|]; [|done]. by destruct (ls !! i).
Qed.

Lemma skeleton_activated j v blk : skeleton (activated j v blk) = skeleton blk.
Proof.
  unfold skeleton, activated, set_grid, set_lis. cbn.
  destruct (filtersElem blk) as [b|], (container blk) as [g|]; cbn;
    by rewrite ?li_filter_mark, ?li_filter_clear.
Qed.

Lemma skeleton_clear_portfolio blk : skeleton (clear_portfolio blk) = skeleton blk.
Proof.
  unfold clear_portfolio. destruct (filtersElem blk) as [b|] eqn:E; [|done].
  destruct (in_portfolio_filters b); [|done].
  unfold skeleton, set_lis. cbn. rewrite E. cbn. by rewrite li_filter_clear.
Qed.

Lemma skeleton_set_lis_mark j blk : skeleton (set_lis (mark_active j) blk) = skeleton blk.
Proof.
  unfold skeleton, set_lis. cbn. destruct (filtersElem blk) as [b|]; [|done].
  cbn. by rewrite li_filter_mark.
Qed.

Lemma skeleton_set_grid_arrange v blk : skeleton (set_grid (arrange v) blk) = skeleton blk.
Proof. unfold skeleton, set_grid. cbn. by destruct (container blk). Qed.

Lemma skeleton_alter (f : block item → block item) k bs :
  (∀ blk, skeleton (f blk) = skeleton blk) →
  skeleton <$> alter f k bs = skeleton <$> bs.
Proof.
  intros H. apply list_eq. intros i. rewrite !list_lookup_fmap, list_lookup_alter.
  destruct (decide (k = i)) as [->|]; [|done].
  destruct (bs !! i); [|done]. cbn. by rewrite H.
Qed.

Lemma skeleton_fmap (f : block item → block item) bs :
  (∀ blk, skeleton (f blk) = skeleton blk) →
  skeleton <$> (f <$> bs) = skeleton <$> bs.
Proof.
  intros H. rewrite <- list_fmap_compose. apply list_fmap_ext.
  intros i blk _. apply H.
Qed.

(** What the listeners read of the document is determined by the
    skeletons. *)
Lemma skeleton_lookup bs bs' k :
  skeleton <$> bs = skeleton <$> bs' →
  skeleton <$> (bs !! k) = skeleton <$> (bs' !! k).
Proof. intros H. by rewrite <- !list_lookup_fmap, H. Qed.

Lemma skeleton_filter_value bs bs' k j :
  skeleton <$> bs = skeleton <$> bs' → filter_value k j bs = filter_value k j bs'.
Proof.
  intros H%(skeleton_lookup _ _ k). unfold filter_value, target_li, bar_of.
  destruct (bs !! k) as [blk|], (bs' !! k) as [blk'|]; try done.
  injection H as H _ _.
  destruct (filtersElem blk) as [b|], (filtersElem blk') as [b'|]; try done.
  injection H as _ _ H.
  assert (li_filter <$> (lis b !! j) = li_filter <$> (lis b' !! j)) as Hj
    by (by rewrite <- !list_lookup_fmap, H).
  destruct (lis b !! j), (lis b' !! j); try done. by injection Hj.
Qed.

Lemma skeleton_target bs bs' k j :
  skeleton <$> bs = skeleton <$> bs' →
  is_Some (target_li k j bs) → is_Some (target_li k j bs').
Proof.
  intros H%(skeleton_lookup _ _ k). unfold target_li, bar_of.
  destruct (bs !! k) as [blk|], (bs' !! k) as [blk'|]; try done.
  injection H as H _ _.
  destruct (filtersElem blk) as [b|], (filtersElem blk') as [b'|]; try done.
  injection H as _ _ H.
  assert (li_filter <$> (lis b !! j) = li_filter <$> (lis b' !! j)) as Hj
    by (by rewrite <- !list_lookup_fmap, H).
  destruct (lis b !! j), (lis b' !! j); done.
Qed.

Lemma skeleton_portfolio bs bs' k :
  skeleton <$> bs = skeleton <$> bs' →
  in_portfolio_filters <$> bar_of k bs = in_portfolio_filters <$> bar_of k bs'.
Proof.
  intros H%(skeleton_lookup _ _ k). unfold bar_of.
  destruct (bs !! k) as [blk|], (bs' !! k) as [blk'|]; try done.
  injection H as H _ _.
  destruct (filtersElem blk) as [b|], (filtersElem blk') as [b'|]; try done.
  injection H as _ H _. cbn. by rewrite H.
Qed.

Lemma skeleton_wired bs bs' k :
  skeleton <$> bs = skeleton <$> bs' → wired <$> (bs !! k) = wired <$> (bs' !! k).
Proof.
  intros H%(skeleton_lookup _ _ k).
  destruct (bs !! k) as [blk|], (bs' !! k) as [blk'|]; try done.
  injection H as _ _ H. cbn. by rewrite H.
Qed.

Lemma skeleton_first_container bs bs' :
  skeleton <$> bs = skeleton <$> bs' → first_container bs = first_container bs'.
Proof.
  unfold first_container. revert bs'.
  induction bs as [|blk bs IH]; intros [|blk' bs']; try done.
  rewrite !fmap_cons. intros [= H1 H2 H3 Hrest]. cbn [list_find].
  destruct (decide (is_Some (container blk))) as [Hc|Hc],
           (decide (is_Some (container blk'))) as [Hc'|Hc']; cbn.
  - done.
  - rewrite bool_decide_eq_true_2 in H2 by done.
    by rewrite bool_decide_eq_false_2 in H2 by done.
  - rewrite bool_decide_eq_false_2 in H2 by done.
    by rewrite bool_decide_eq_true_2 in H2 by done.
  - specialize (IH bs' Hrest).
    destruct (list_find _ bs) as [[c x]|], (list_find _ bs') as [[c' x']|];
      cbn in *; congruence.
Qed.

Lemma skeleton_bar_listener k j bs : skeleton <$> bar_listener k j bs = skeleton <$> bs.
Proof. unfold bar_listener. apply skeleton_alter, skeleton_activated. Qed.

Lemma skeleton_delegate c v k j bs : skeleton <$> delegate c v k j bs = skeleton <$> bs.
Proof.
  unfold delegate. destruct c as [c|].
  - rewrite skeleton_alter by apply skeleton_set_grid_arrange.
    rewrite skeleton_alter by apply skeleton_set_lis_mark.
    apply skeleton_fmap, skeleton_clear_portfolio.
  - rewrite skeleton_alter by apply skeleton_set_lis_mark.
    apply skeleton_fmap, skeleton_clear_portfolio.
Qed.

(** The body listener, when the target matches, is [delegate] on the first
    container of the document and the target's value. *)
Lemma body_listener_delegate isotope k j bs :
  body_listener isotope k j bs
  = if default false (in_portfolio_filters <$> bar_of k bs)
    then delegate (if isotope then first_container bs else None)
                  (filter_value k j bs) k j bs
    else bs.
Proof.
  unfold body_listener. destruct (bar_of k bs) as [b|]; [|done]. cbn.
  destruct (in_portfolio_filters b); [|done].
  destruct isotope; [|done].
  change (alter (set_lis (mark_active j)) k (clear_portfolio <$> bs))
    with (delegate None None k j bs).
  by rewrite (skeleton_first_container _ bs (skeleton_delegate None None k j bs)).
Qed.

Lemma skeleton_body_listener isotope k j bs :
  skeleton <$> body_listener isotope k j bs = skeleton <$> bs.
Proof.
  rewrite body_listener_delegate.
  destruct (default false _); [apply skeleton_delegate|done].
Qed.

Lemma activated_idem j v blk : activated j v (activated j v blk) = activated j v blk.
Proof.
  unfold activated, set_grid, set_lis. cbn. f_equal.
  - destruct (filtersElem blk) as [b|]; [|done]. cbn. do 2 f_equal.
    apply mark_clear_idem.
  - destruct (container blk) as [g|]; [|done]. cbn. f_equal. apply arrange_arrange.
Qed.

Lemma bar_listener_idem k j bs :
  bar_listener k j (bar_listener k j bs) = bar_listener k j bs.
Proof.
  unfold bar_listener at 1.
  rewrite (skeleton_filter_value _ bs k j (skeleton_bar_listener k j bs)).
  unfold bar_listener. rewrite list_alter_alter_eq. apply list_alter_ext; [|done].
  intros blk _. cbn. apply activated_idem.
Qed.

Lemma mark_mark j ls : mark_active j (mark_active j ls) = mark_active j ls.
Proof.
  unfold mark_active. rewrite list_alter_alter_eq. apply list_alter_ext; [|done].
  intros l _. unfold set_classes. cbn. by rewrite add_add.
Qed.

Lemma clear_portfolio_idem blk :
  clear_portfolio (clear_portfolio blk) = clear_portfolio blk.
Proof.
  unfold clear_portfolio. destruct (filtersElem blk) as [b|] eqn:E; [|by rewrite E].
  destruct (in_portfolio_filters b) eqn:P; [|by rewrite E, P].
  unfold set_lis. cbn. rewrite E. cbn. rewrite P. cbn. by rewrite clear_clear.
Qed.

Lemma mark_clear_portfolio_idem j blk :
  set_lis (mark_active j) (clear_portfolio (set_lis (mark_active j) (clear_portfolio blk)))
  = set_lis (mark_active j) (clear_portfolio blk).
Proof.
  unfold clear_portfolio. destruct (filtersElem blk) as [b|] eqn:E.
  - destruct (in_portfolio_filters b) eqn:P.
    + unfold set_lis. cbn. rewrite E. cbn. rewrite P. cbn. by rewrite mark_clear_idem.
    + unfold set_lis. cbn. rewrite E. cbn. rewrite P. cbn. by rewrite mark_mark.
  - unfold set_lis. cbn. rewrite ?E. cbn. by rewrite ?E.
Qed.

Lemma clear_portfolio_set_grid (f : grid item → grid item) blk :
  clear_portfolio (set_grid f blk) = set_grid f (clear_portfolio blk).
Proof.
  unfold clear_portfolio, set_grid, set_lis. cbn.
  destruct (filtersElem blk) as [b|] eqn:E; cbn; [|by rewrite ?E].
  destruct (in_portfolio_filters b); cbn; by rewrite ?E.
Qed.

Lemma set_lis_set_grid (h : list li → list li) (f : grid item → grid item) blk :
  set_lis h (set_grid f blk) = set_grid f (set_lis h blk).
Proof. done. Qed.

Lemma set_grid_arrange_idem v blk :
  set_grid (arrange v) (set_grid (arrange v) blk) = set_grid (arrange v) blk.
Proof.
  unfold set_grid. cbn. f_equal. destruct (container blk) as [g|]; [|done].
  cbn. by rewrite arrange_arrange.
Qed.

Lemma lookup_delegate c v k j bs i :
  delegate c v k j bs !! i = delegate_block c v k j i <$> (bs !! i).
Proof.
  unfold delegate, delegate_block. destruct c as [c|].
  - rewrite list_lookup_alter. destruct (decide (c = i)) as [->|Hc].
    + destruct (decide (Some i = Some i)) as [_|?]; [|done].
      rewrite list_lookup_alter.
      destruct (decide (k = i)) as [->|Hk]; rewrite list_lookup_fmap;
        by destruct (bs !! i).
    + destruct (decide (Some c = Some i)) as [?|_]; [congruence|].
      rewrite list_lookup_alter.
      destruct (decide (k = i)) as [->|Hk]; rewrite list_lookup_fmap;
        by destruct (bs !! i).
  - destruct (decide (None = Some i)) as [?|_]; [done|].
    rewrite list_lookup_alter.
    destruct (decide (k = i)) as [->|Hk]; rewrite list_lookup_fmap;
      by destruct (bs !! i).
Qed.

Lemma delegate_block_idem c v k j i blk :
  delegate_block c v k j i (delegate_block c v k j i blk) = delegate_block c v k j i blk.
Proof.
  unfold delegate_block.
  destruct (decide (c = Some i)), (decide (k = i)).
  - rewrite clear_portfolio_set_grid, set_lis_set_grid, set_grid_arrange_idem.
    by rewrite mark_clear_portfolio_idem.
  - rewrite clear_portfolio_set_grid, set_grid_arrange_idem.
    by rewrite clear_portfolio_idem.
  - apply mark_clear_portfolio_idem.
  - apply clear_portfolio_idem.
Qed.

Lemma delegate_idem c v k j bs :
  delegate c v k j (delegate c v k j bs) = delegate c v k j bs.
Proof.
  apply list_eq. intros i. rewrite !lookup_delegate.
  destruct (bs !! i) as [blk|]; [|done]. cbn. by rewrite delegate_block_idem.
Qed.

Lemma body_listener_idem isotope k j bs :
  body_listener isotope k j (body_listener isotope k j bs) = body_listener isotope k j bs.
Proof.
  pose proof (skeleton_body_listener isotope k j bs) as Hsk.
  rewrite (body_listener_delegate isotope k j (body_listener isotope k j bs)).
  rewrite (skeleton_portfolio _ bs k Hsk), (skeleton_first_container _ bs Hsk),
    (skeleton_filter_value _ bs k j Hsk).
  rewrite body_listener_delegate.
  destruct (default false _); [apply delegate_idem|done].
Qed.

Lemma alter_fixpoint (f : block item → block item) k bs blk :
  bs !! k = Some blk → f blk = blk → alter f k bs = bs.
Proof.
  intros Hk Hf. apply list_eq. intros i. rewrite list_lookup_alter.
  destruct (decide (k = i)) as [<-|]; [|done]. by rewrite Hk; cbn; rewrite Hf.
Qed.

(** Clicking the same control again changes nothing. *)
Lemma click_idem k j (pg pg1 : page item) :
  click k j pg = Some pg1 → click k j pg1 = Some pg1.
Proof.
  unfold click at 1.
  destruct (blocks pg !! k) as [blk|] eqn:Hk; [|done].
  destruct (target_li k j (blocks pg)) as [tgt|] eqn:Ht; [|done].
  intros [= <-].
  match goal with |- click k j {| blocks := ?bs2 |} = _ => set (bs' := bs2) end.
  assert (skeleton <$> bs' = skeleton <$> blocks pg) as Hsk.
  { subst bs'. destruct (delegated pg), (wired blk);
      rewrite ?skeleton_body_listener, ?skeleton_bar_listener; done. }
  assert (bs' = (if delegated pg then body_listener (has_Isotope pg) k j
                   (if wired blk then bar_listener k j bs' else bs')
                 else (if wired blk then bar_listener k j bs' else bs'))) as Hfix.
  { subst bs'. destruct (delegated pg) eqn:Hd, (wired blk) eqn:Hw.
    - assert (∃ b, filtersElem blk = Some b ∧ lis b !! j = Some tgt) as (b & Hb & Hj).
      { revert Ht. unfold target_li, bar_of. rewrite Hk.
        destruct (filtersElem blk) as [b|]; [|done]. eauto. }
      assert (bar_listener k j (blocks pg) !! k
              = Some (activated j (li_filter tgt) blk)) as H1.
      { unfold bar_listener, filter_value. by rewrite Ht, list_lookup_alter_eq, Hk. }
      pose proof (body_listener_activated (has_Isotope pg) k j _ _ _ _ _
                    H1 Hb Hj eq_refl) as H2.
      set (X := body_listener (has_Isotope pg) k j (bar_listener k j (blocks pg))) in *.
      assert (bar_listener k j X = X) as ->.
      { unfold bar_listener. apply (alter_fixpoint _ k _ _ H2).
        rewrite (skeleton_filter_value X (blocks pg) k j)
          by (subst X; by rewrite skeleton_body_listener, skeleton_bar_listener).
        unfold filter_value. rewrite Ht. apply activated_idem. }
      subst X. by rewrite body_listener_idem.
    - by rewrite body_listener_idem.
    - by rewrite bar_listener_idem.
    - done. }
  unfold click. cbn [blocks has_Isotope delegated].
  pose proof (skeleton_wired _ _ k Hsk) as Hw. rewrite Hk in Hw.
  destruct (bs' !! k) as [blk'|] eqn:Hk'; [|done]. injection Hw as Hw.
  destruct (skeleton_target (blocks pg) bs' k j) as [tgt' Ht']; [done|by rewrite Ht|].
  rewrite Ht', Hw. by rewrite <- Hfix.
Qed.

End GridIdempotence.

Section HeaderToggle.
Import Ready.

Lemma elem_of_toggle c d (l : list string) :
  d ∈ ClassList.toggle c l ↔ (if decide (d = c) then d ∉ l else d ∈ l).
Proof.
  unfold ClassList.toggle. destruct (ClassList.contains c l) eqn:E.
  - apply contains_true in E. rewrite elem_of_remove.
    destruct (decide (d = c)) as [->|]; tauto.
  - apply contains_false in E. rewrite elem_of_add.
    destruct (decide (d = c)) as [->|]; tauto.
Qed.

Lemma toggle_toggle c d (l : list string) :
  d ∈ ClassList.toggle c (ClassList.toggle c l) ↔ d ∈ l.
Proof.
  repeat (rewrite elem_of_toggle || case_decide);
    destruct (decide (d ∈ l)); tauto.
Qed.

Lemma toggle_pair_twice a b d (l : list string) :
  d ∈ ClassList.toggle a (ClassList.toggle b
        (ClassList.toggle a (ClassList.toggle b l))) ↔ d ∈ l.
Proof.
  repeat (rewrite elem_of_toggle || case_decide);
    destruct (decide (d ∈ l)); tauto.
Qed.

Lemma header_toggle_click_twice {item : Type} (p : Ready.page item) :
  same_classes (header (header_toggle_click (header_toggle_click p))) (header p)
  ∧ same_classes (headerToggle (header_toggle_click (header_toggle_click p)))
                 (headerToggle p)
  ∧ header_wired (header_toggle_click (header_toggle_click p)) = header_wired p.
Proof.
  unfold header_toggle_click. destruct (header_wired p) eqn:W; cbn; rewrite ?W; cbn.
  - split_and!; [| |done].
    + destruct (header p) as [cl|]; cbn; [|done]. intros c. apply toggle_toggle.
    + destruct (headerToggle p) as [cl|]; cbn; [|done]. intros c.
      apply toggle_pair_twice.
  - split_and!; [| |done].
    + destruct (header p); cbn; done.
    + destruct (headerToggle p); cbn; done.
Qed.

Lemma header_toggle_click_flips {item : Type} (p : Ready.page item) cl :
  header_wired p = true → header p = Some cl →
  ∃ cl1, header (header_toggle_click p) = Some cl1
       ∧ ("header-show" ∈ cl1 ↔ "header-show" ∉ cl).
Proof.
  intros W H. unfold header_toggle_click. rewrite W. cbn. rewrite H. cbn.
  eexists. split; [done|]. by rewrite elem_of_toggle, decide_True.
Qed.

End HeaderToggle.

Section IdempotenceClaims.
Import Eff Ready.

(** C9, as stated, fails for the header toggle: its listener uses
    classList.toggle, so a second click undoes the first instead of
    repeating it. *)
Lemma C9_header_toggle_is_not_idempotent :
  header (header_toggle_click
            (domContentLoaded (example_page no_globals false None)).2)
  = Some ["header"; "header-show"]
  ∧ header (header_toggle_click (header_toggle_click
              (domContentLoaded (example_page no_globals false None)).2))
    = Some ["header"].
Proof. split; reflexivity. Qed.

(** C9, amended: the scroll-to-top handler, the navigation highlighter and
    the filter activation (the bar's listener, the body's listener, and a
    whole click going through both) are idempotent: run twice in succession
    from the same state they leave the state the first run left.  The header
    toggle is not: each click flips the class header-show of the header (and
    bi-list and bi-x of the toggle), so two clicks in succession restore the
    classes the elements had before. *)
Theorem C9_handlers_idempotent_except_header_toggle :
  (∀ d, Scroll.handleScroll_body (Scroll.handleScroll_body d)
        = Scroll.handleScroll_body d)
  ∧ (∀ st, Navmenu.activateNavmenuLink (Navmenu.activateNavmenuLink st).1
           = Navmenu.activateNavmenuLink st)
  ∧ (∀ (item : Type) k j (bs : list (Grid.block item)),
       Grid.bar_listener k j (Grid.bar_listener k j bs) = Grid.bar_listener k j bs)
  ∧ (∀ (item : Type) isotope k j (bs : list (Grid.block item)),
       Grid.body_listener isotope k j (Grid.body_listener isotope k j bs)
       = Grid.body_listener isotope k j bs)
  ∧ (∀ (item : Type) k j (pg pg1 : Grid.page item),
       Grid.click k j pg = Some pg1 → Grid.click k j pg1 = Some pg1)
  ∧ (∀ (item : Type) (p : Ready.page item),
       same_classes (header (header_toggle_click (header_toggle_click p))) (header p)
       ∧ same_classes (headerToggle (header_toggle_click (header_toggle_click p)))
                      (headerToggle p)
       ∧ header_wired (header_toggle_click (header_toggle_click p)) = header_wired p)
  ∧ (∀ (item : Type) (p : Ready.page item) cl,
       header_wired p = true → header p = Some cl →
       ∃ cl1, header (header_toggle_click p) = Some cl1
            ∧ ("header-show" ∈ cl1 ↔ "header-show" ∉ cl)).
Proof.
  split_and!.
  - apply handleScroll_body_idem.
  - apply activateNavmenuLink_idem.
  - intros. apply bar_listener_idem.
  - intros. apply body_listener_idem.
  - intros item k j pg pg1. apply click_idem.
  - intros. apply header_toggle_click_twice.
  - intros item p cl. apply header_toggle_click_flips.
Qed.

Lemma C9_handlers_idempotent_except_header_toggle_witness :
  Grid.click 0 1 (Grid.init_isotope Grid.example_page)
  ≫= Grid.click 0 1
  = Grid.click 0 1 (Grid.init_isotope Grid.example_page).
Proof.
  destruct (Grid.click 0 1 (Grid.init_isotope Grid.example_page)) as [pg1|] eqn:E;
    [|reflexivity].
  exact (proj1 (proj2 (proj2 (proj2 (proj2
           C9_handlers_idempotent_except_header_toggle)))) string 0 1 _ pg1 E).
Defined.

End IdempotenceClaims.

(* ================================================================== *)
(** * Further properties of the handlers *)
(* ================================================================== *)

Section NavmenuFurther.
Import Navmenu Layout.
Local Open Scope Z_scope.

(** Each element after a loop is the element before, possibly after the
    callback ran on it. *)
Lemma forEach_lookup {A} (cb : A → A * option JS.exn) (l : list A) i x :
  l !! i = Some x →
  (Dom.forEach cb l).1 !! i = Some x ∨ (Dom.forEach cb l).1 !! i = Some (cb x).1.
Proof.
  revert i. induction l as [|y l IH]; intros i Hi; [done|].
  cbn [Dom.forEach]. destruct (cb y) as [y' [e|]] eqn:E.
  - destruct i as [|i]; cbn in *; [|by left].
    injection Hi as ->. right. by rewrite E.
  - specialize (IH (pred i)).
    destruct (Dom.forEach cb l) as [r e]. destruct i as [|i]; cbn in *.
    + injection Hi as ->. right. by rewrite E.
    + by apply IH.
Qed.

Lemma activate_link_other_classes cur (l : link) c :
  c ≠ "active" →
  c ∈ classList (activate_link cur l).1 ↔ c ∈ classList l.
Proof.
  intros Hc. unfold activate_link. destruct (href l) as [h|]; cbn [fst classList].
  - case_bool_decide; cbn [fst classList].
    + rewrite elem_of_add, elem_of_remove. tauto.
    + rewrite elem_of_remove. tauto.
  - rewrite elem_of_remove. tauto.
Qed.

(** The highlighter touches nothing but the token active: sections, offset,
    hrefs and number of anchors stay, and so does every other class of every
    anchor, whether the run completes or throws. *)
Theorem activateNavmenuLink_frame (st : state) :
  sections (activateNavmenuLink st).1 = sections st
  ∧ scrollY (activateNavmenuLink st).1 = scrollY st
  ∧ href <$> navmenuLinks (activateNavmenuLink st).1 = href <$> navmenuLinks st
  ∧ length (navmenuLinks (activateNavmenuLink st).1) = length (navmenuLinks st)
  ∧ ∀ i l l' c,
      navmenuLinks st !! i = Some l →
      navmenuLinks (activateNavmenuLink st).1 !! i = Some l' →
      c ≠ "active" →
      (c ∈ classList l' ↔ c ∈ classList l).
Proof.
  split_and!.
  - apply activateNavmenuLink_sections.
  - unfold activateNavmenuLink. by destruct (Dom.forEach _ _).
  - apply activateNavmenuLink_hrefs.
  - pose proof (f_equal length (activateNavmenuLink_hrefs st)) as H.
    by rewrite !length_fmap in H.
  - intros i l l' c Hi Hi' Hc. revert Hi'. unfold activateNavmenuLink.
    pose proof (forEach_lookup
                  (activate_link (currentActive (scrollY st) (sections st)))
                  (navmenuLinks st) i l Hi) as H.
    destruct (Dom.forEach _ _) as [r e]. cbn [fst navmenuLinks] in *.
    intros Hi'. destruct H as [H|H]; rewrite H in Hi'; injection Hi' as <-; [done|].
    by apply activate_link_other_classes.
Qed.

Lemma forEach_app_throw {A} (cb : A → A * option JS.exn) (pre post : list A) x e :
  Forall (λ y, (cb y).2 = None) pre → (cb x).2 = Some e →
  Dom.forEach cb (pre ++ x :: post)
  = (((λ y, (cb y).1) <$> pre) ++ (cb x).1 :: post, Some e).
Proof.
  intros Hpre Hx. induction Hpre as [|y pre Hy _ IH]; cbn [app Dom.forEach].
  - destruct (cb x) as [x' [e'|]]; cbn in Hx; [|done]. by injection Hx as ->.
  - destruct (cb y) as [y' [e'|]] eqn:E; cbn in Hy; [done|].
    rewrite IH. by rewrite fmap_cons, E.
Qed.

(** An anchor without href stops the run: the anchors before it are
    updated, it loses the class itself, the anchors after it keep whatever
    they had, and the listener ends in a TypeError. *)
Theorem activateNavmenuLink_missing_href (st : state) (pre post : list link) (l0 : link) :
  navmenuLinks st = pre ++ l0 :: post →
  hrefs_present pre →
  href l0 = None →
  activateNavmenuLink st
  = ({| sections := sections st;
        navmenuLinks :=
          ((λ l, (activate_link (currentActive (scrollY st) (sections st)) l).1) <$> pre)
          ++ {| href := None; classList := ClassList.remove "active" (classList l0) |}
          :: post;
        scrollY := scrollY st |},
     Some (JS.TypeError "null has no property substring")).
Proof.
  intros Hl Hpre H0. unfold activateNavmenuLink. rewrite Hl.
  rewrite (forEach_app_throw _ pre post l0 (JS.TypeError "null has no property substring")).
  - unfold activate_link at 2. by rewrite H0.
  - eapply Forall_impl; [exact Hpre|]. intros l Hl'. by apply activate_link_ok.
  - unfold activate_link. by rewrite H0.
Qed.

Lemma activateNavmenuLink_missing_href_witness :
  (activateNavmenuLink broken_menu).2
  = Some (JS.TypeError "null has no property substring")
  ∧ is_active <$> navmenuLinks (activateNavmenuLink broken_menu).1
    = [true; false; true].
Proof.
  assert (hrefs_present [ {| href := Some "#about"; classList := [] |} ]) as Hpre
    by (repeat constructor; by eexists).
  rewrite (activateNavmenuLink_missing_href broken_menu
             [ {| href := Some "#about"; classList := [] |} ]
             [ {| href := Some "#hero"; classList := ["active"] |} ]
             {| href := None; classList := ["active"] |} eq_refl Hpre eq_refl).
  split; reflexivity.
Defined.

Lemma activate_link_absorb cur cur' (l : link) :
  activate_link cur (activate_link cur' l).1 = activate_link cur l.
Proof.
  unfold activate_link. destruct l as [[h|] cl]; cbn [href classList].
  - destruct (bool_decide (Some (JS.substring1 h) = cur')); cbn [fst href classList].
    + by rewrite remove_add_remove.
    + by rewrite remove_remove.
  - cbn [fst href classList]. by rewrite remove_remove.
Qed.

Lemma activate_link_throws cur cur' (l : link) :
  (activate_link cur l).2 = None ↔ (activate_link cur' l).2 = None.
Proof.
  unfold activate_link. destruct (href l); [|done].
  by destruct (bool_decide _), (bool_decide _).
Qed.

Lemma forEach_absorb {A} (cb cb' : A → A * option JS.exn) (l : list A) :
  (∀ x, cb (cb' x).1 = cb x) →
  (∀ x, (cb x).2 = None ↔ (cb' x).2 = None) →
  Dom.forEach cb (Dom.forEach cb' l).1 = Dom.forEach cb l.
Proof.
  intros Habs Hthr. induction l as [|x l IH]; [done|].
  cbn [Dom.forEach]. pose proof (Habs x) as Hx. pose proof (Hthr x) as Ht.
  destruct (cb' x) as [x' [e'|]] eqn:E'; cbn [fst snd] in *.
  - cbn [Dom.forEach]. rewrite Hx.
    destruct (cb x) as [x'' [e|]]; [done|]. cbn in Ht. by destruct Ht as [Ht _]; specialize (Ht eq_refl).
  - destruct (Dom.forEach cb' l) as [r e] eqn:F. cbn [fst] in *.
    cbn [Dom.forEach]. rewrite Hx.
    destruct (cb x) as [x'' [e0|]]; [|by rewrite IH].
    cbn in Ht. by destruct Ht as [_ Ht]; specialize (Ht eq_refl).
Qed.

Lemma on_scroll_absorb y y' (st : state) :
  on_scroll y (on_scroll y' st) = on_scroll y st.
Proof.
  unfold on_scroll, activateNavmenuLink. cbn [scrollY sections navmenuLinks].
  pose proof (forEach_absorb
                (activate_link (currentActive y (sections st)))
                (activate_link (currentActive y' (sections st)))
                (navmenuLinks st)
                (activate_link_absorb _ _) (activate_link_throws _ _)) as H.
  destruct (Dom.forEach (activate_link (currentActive y' (sections st))) _) as [r e].
  cbn [fst sections navmenuLinks scrollY] in *. by rewrite H.
Qed.

(** The menu keeps no history: after the initial run and any sequence of
    scroll events, every anchor is in the state that a single scroll to the
    last position would have produced from the markup. *)
Theorem after_scrolls_last_offset (st : state) (ys : list Z) (y : Z) :
  after_scrolls (ys ++ [y]) st = on_scroll y st.
Proof.
  unfold after_scrolls. rewrite foldl_app. cbn [foldl].
  assert (∀ s, on_scroll y s = on_scroll y st →
               on_scroll y (foldl (λ s y, on_scroll y s) s ys) = on_scroll y st) as H.
  { induction ys as [|y0 ys IH]; intros s Hs; cbn [foldl]; [done|].
    apply IH. by rewrite on_scroll_absorb. }
  apply H.
  change ((activateNavmenuLink st).1) with (on_scroll (scrollY st)
    {| sections := sections st; navmenuLinks := navmenuLinks st; scrollY := scrollY st |}).
  rewrite on_scroll_absorb. by destruct st.
Qed.

Lemma in_span_iff y s :
  in_span y s = true ↔ offsetTop s - 100 ≤ y < offsetTop s - 100 + offsetHeight s.
Proof. unfold in_span. cbn zeta. rewrite andb_true_iff, Z.leb_le, Z.ltb_lt. lia. Qed.

(** Below the start of a stack of sections of positive height no section of
    the stack contains the offset. *)
Lemma contiguous_above y s rest :
  contiguous (s :: rest) →
  Forall (λ s, 0 < offsetHeight s) (s :: rest) →
  y < offsetTop s - 100 →
  filter (λ s, in_span y s = true) (s :: rest) = [].
Proof.
  revert s. induction rest as [|s2 rest IH]; intros s Hc Hh Hy.
  - rewrite filter_cons, decide_False; [done|]. rewrite in_span_iff. lia.
  - destruct Hc as [Htop Hc]. apply Forall_cons in Hh as [Hs Hh].
    rewrite filter_cons, decide_False by (rewrite in_span_iff; lia).
    apply IH; [done|done|lia].
Qed.

(** On a page whose sections are stacked without gap or overlap and have
    positive height, every scroll offset between the first section's start
    and the last section's end (both moved up by the 100 px lookahead) lies
    in the span of exactly one section. *)
Theorem contiguous_exactly_one_section (y : Z) (s : section_el) (rest : list section_el) :
  contiguous (s :: rest) →
  Forall (λ s, 0 < offsetHeight s) (s :: rest) →
  offsetTop s - 100 ≤ y < bottom (offsetTop s) (s :: rest) - 100 →
  length (filter (λ s, in_span y s = true) (s :: rest)) = 1%nat
  ∧ ∃ cur, last_containing y (s :: rest) = Some cur
         ∧ currentActive y (s :: rest) = Some (sec_id cur)
         ∧ offsetTop cur - 100 ≤ y < offsetTop cur - 100 + offsetHeight cur.
Proof.
  intros Hc Hh Hy.
  assert (∃ cur, filter (λ s, in_span y s = true) (s :: rest) = [cur]
                 ∧ in_span y cur = true) as (cur & Hf & Hcur).
  { revert s Hc Hh Hy. induction rest as [|s2 rest IH]; intros s Hc Hh Hy.
    - unfold bottom in Hy. cbn in Hy. exists s.
      rewrite filter_cons, decide_True by (rewrite in_span_iff; lia).
      split; [done|]. rewrite in_span_iff. lia.
    - destruct Hc as [Htop Hc]. apply Forall_cons in Hh as [Hs Hh].
      destruct (decide (y < offsetTop s - 100 + offsetHeight s)) as [Hlt|Hge].
      + exists s. rewrite filter_cons, decide_True by (rewrite in_span_iff; lia).
        rewrite (contiguous_above y s2 rest) by (done || lia).
        split; [done|]. rewrite in_span_iff. lia.
      + rewrite filter_cons, decide_False by (rewrite in_span_iff; lia).
        apply IH; [done|done|].
        unfold bottom in *. rewrite last_cons in Hy. cbn [last] in *.
        destruct (last (s2 :: rest)) as [sl|] eqn:El; [lia|].
        by apply last_None in El. }
  split; [by rewrite Hf|]. exists cur.
  rewrite currentActive_last. unfold last_containing. rewrite Hf. cbn.
  split; [done|]. split; [done|]. by apply in_span_iff.
Qed.

Lemma contiguous_exactly_one_section_witness :
  contiguous (sections (example_page 350))
  ∧ length (filter (λ s, in_span 350 s = true) (sections (example_page 350))) = 1%nat.
Proof.
  assert (contiguous (sections (example_page 350))) as Hc by (cbn; lia).
  split; [exact Hc|].
  refine (proj1 (contiguous_exactly_one_section 350
              {| sec_id := "hero"; offsetTop := 100; offsetHeight := 300 |}
              [ {| sec_id := "about"; offsetTop := 400; offsetHeight := 500 |};
                {| sec_id := "resume"; offsetTop := 900; offsetHeight := 400 |} ]
              Hc _ _)).
  - repeat constructor.
  - unfold bottom. cbn. lia.
Defined.

End NavmenuFurther.

Section ScrollFurther.
Import Scroll Trace.
Local Open Scope Z_scope.

Lemma count_app f tr1 tr2 : count f (tr1 ++ tr2) = (count f tr1 + count f tr2)%nat.
Proof. unfold count. by rewrite filter_app, length_app. Qed.

Lemma run_snoc tr e p0 p :
  run (tr ++ [e]) p0 = Some p ↔ ∃ q, run tr p0 = Some q ∧ step e q = Some p.
Proof.
  rewrite run_app. destruct (run tr p0) as [q|]; cbn.
  - destruct (step e q) as [p'|] eqn:S.
    + split; [intros [= <-]; eauto|]. intros (q' & [= <-] & H). congruence.
    + split; [done|]. intros (q' & [= <-] & H). congruence.
  - split; [done|]. by intros (q' & H & _).
Qed.

(** The effect never runs more often than the page was loaded or scrolled:
    along every trace the runs so far plus the invocation still pending are at
    most the number of load and scroll events. *)
Theorem runs_at_most_calls (d : dom) (t0 : Z) (tr : list event) (p : page) :
  run tr (fresh d t0) = Some p →
  (count is_run tr + length (Timers.pending (timers p)) ≤ count is_call tr)%nat.
Proof.
  revert p. induction tr as [|e tr IH] using rev_ind; intros p R.
  - injection R as <-. cbn. lia.
  - apply run_snoc in R as (q & Rq & S). specialize (IH q Rq).
    pose proof (run_coalesced _ _ _ (coalesced_fresh d t0) Rq) as Hq.
    pose proof (step_coalesced _ _ _ Hq S) as Hp.
    assert (length (Timers.pending (timers p)) ≤ 1)%nat as Hp1.
    { destruct Hp as [_ [E|(i & dl & E & _)]]; rewrite E; cbn; lia. }
    rewrite !count_app. unfold count at 2 4. rewrite !filter_cons, !filter_nil.
    destruct e as [t|t w|t id]; cbn [is_run is_call].
    + rewrite decide_False by done. rewrite decide_True by done. cbn [length]. lia.
    + rewrite decide_False by done. rewrite decide_True by done. cbn [length]. lia.
    + rewrite decide_True by done. rewrite decide_False by done. cbn [length].
      revert S. unfold step. destruct (_ <? _); [done|].
      destruct (Timers.due t id (timers q)) as [cb|] eqn:D; [|done]. intros [= <-].
      destruct Hq as [_ [E|(i & dl & E & _)]]; [by rewrite due_empty in D|].
      rewrite E in IH. cbn [length] in IH. cbn [timers].
      assert (Timers.pending (Timers.expire id (timers q)) = []) as ->; [|cbn; lia].
      rewrite (due_single _ _ _ _ _ _ E) in D.
      destruct (decide (i = id)) as [->|]; [|done].
      unfold Timers.expire. cbn [Timers.pending]. rewrite E, filter_cons.
      cbn [fst]. by rewrite decide_False by tauto.
Qed.

Lemma runs_at_most_calls_witness :
  ∃ p, run [Load 0; ScrollTo 30 (at_offset 40); ScrollTo 60 (at_offset 90);
            ScrollTo 90 (at_offset 150); Timer 190 4] (fresh example_dom 0) = Some p
     ∧ (count is_run [Load 0; ScrollTo 30 (at_offset 40); ScrollTo 60 (at_offset 90);
                      ScrollTo 90 (at_offset 150); Timer 190 4]
        + length (Timers.pending (timers p)) ≤ 4)%nat.
Proof.
  eexists. split; [reflexivity|].
  exact (runs_at_most_calls example_dom 0
           [Load 0; ScrollTo 30 (at_offset 40); ScrollTo 60 (at_offset 90);
            ScrollTo 90 (at_offset 150); Timer 190 4] _ eq_refl).
Defined.

(** Before the load event the scroll code is deaf: scroll events move the
    window and nothing else, no invocation is ever scheduled, and the browser
    has no timer of the script to run. *)
Theorem before_load_only_the_window_moves (d : dom) (t0 : Z) (tr : list event) (p : page) :
  run tr (fresh d t0) = Some p →
  count is_load tr = 0%nat →
  scrollTopButton (document p) = scrollTopButton d
  ∧ preloader (document p) = preloader d
  ∧ console (document p) = console d
  ∧ Timers.pending (timers p) = []
  ∧ listening p = false
  ∧ count is_run tr = 0%nat.
Proof.
  revert p. induction tr as [|e tr IH] using rev_ind; intros p R Hl.
  - by injection R as <-.
  - apply run_snoc in R as (q & Rq & S). rewrite count_app in Hl.
    destruct (IH q Rq) as (H1 & H2 & H3 & H4 & H5 & H6); [lia|].
    rewrite count_app, H6. revert S. unfold step. destruct (_ <? _); [done|].
    destruct e as [t|t w|t id].
    + exfalso. unfold count in Hl. rewrite filter_cons, decide_True in Hl by done.
      cbn [length] in Hl. lia.
    + rewrite H5. intros [= <-]. by cbn.
    + by rewrite due_empty.
Qed.

Lemma before_load_only_the_window_moves_witness :
  ∃ p, run [ScrollTo 5 (at_offset 150); ScrollTo 400 (at_offset 900)]
           (fresh example_dom 0) = Some p
     ∧ scrollTopButton (document p) = Some ["scroll-top"]
     ∧ Timers.pending (timers p) = [].
Proof.
  eexists. split; [reflexivity|].
  destruct (before_load_only_the_window_moves example_dom 0
              [ScrollTo 5 (at_offset 150); ScrollTo 400 (at_offset 900)] _
              eq_refl eq_refl) as (H1 & _ & _ & H4 & _).
  split; [exact H1|exact H4].
Defined.

(** When the effect runs right after a scroll event, the control shows the
    position that event left the window at: a burst of scroll events is
    judged by its last position alone. *)
Theorem burst_judged_by_last_position
    (d : dom) (t0 : Z) (pre : list event) (c t : Z) (w : window) (id : nat) (p : page) :
  run (pre ++ [ScrollTo c w; Timer t id]) (fresh d t0) = Some p →
  win (document p) = w
  ∧ c + 100 ≤ t
  ∧ match scrollTopButton (document p) with
    | Some cl => ClassList.contains "active" cl = true ↔ 100 < scrollTop w
    | None => True
    end.
Proof.
  intros R. change [ScrollTo c w; Timer t id] with ([ScrollTo c w] ++ [Timer t id]) in R.
  rewrite (assoc_L (++)) in R. apply run_snoc in R as (q & Rq & S).
  pose proof Rq as Rq'. apply run_snoc in Rq' as (q0 & Rq0 & S0).
  assert (win (document q) = w) as Hw.
  { revert S0. unfold step. destruct (_ <? _); [done|]. intros [= <-].
    by destruct (listening q0). }
  revert S. unfold step. destruct (_ <? _); [done|].
  destruct (Timers.due t id (timers q)) as [cb|] eqn:D; [|done]. intros [= <-].
  destruct (due_after_call _ _ _ _ _ _ _ Rq D) as (-> & pre' & e & c' & Hpre & Hsch & Hle).
  apply app_inj_tail in Hpre as [_ <-].
  assert (c' = c) as -> by (destruct Hsch as [?|[? ?]]; congruence).
  cbn [document]. destruct (handleScroll_body_button (document q)) as [Hwin Hb].
  rewrite Hwin, Hw. split; [done|]. split; [done|].
  destruct (scrollTopButton (document q)) as [cl|].
  - destruct Hb as (cl' & -> & Hiff). by rewrite <- Hw.
  - by rewrite Hb.
Qed.

Lemma burst_judged_by_last_position_witness :
  ∃ p, run ([Load 0; ScrollTo 30 (at_offset 40); ScrollTo 60 (at_offset 900)]
            ++ [ScrollTo 90 (at_offset 20); Timer 190 4]) (fresh example_dom 0) = Some p
     ∧ win (document p) = at_offset 20
     ∧ 90 + 100 ≤ 190.
Proof.
  eexists. split; [reflexivity|].
  pose proof (burst_judged_by_last_position example_dom 0
                [Load 0; ScrollTo 30 (at_offset 40); ScrollTo 60 (at_offset 900)]
                90 190 (at_offset 20) 4 _ eq_refl) as (H1 & H2 & _).
  split; [exact H1|exact H2].
Defined.

Lemma count_singleton f e : count f [e] = if f e then 1%nat else 0%nat.
Proof.
  unfold count. rewrite filter_cons, filter_nil.
  destruct (f e); [by rewrite decide_True|by rewrite decide_False].
Qed.

Lemma messages_app tr1 tr2 : messages (tr1 ++ tr2) = messages tr1 ++ messages tr2.
Proof. unfold messages. apply bind_app. Qed.

(** What the scroll code writes and removes: the console receives the two
    messages of the load listener once per load event and nothing from
    scrolling or from the debounced effect, and the preloader is in the
    document exactly as long as it was there at the start and no load event
    has happened. *)
Theorem console_and_preloader (d : dom) (t0 : Z) (tr : list event) (p : page) :
  run tr (fresh d t0) = Some p →
  console (document p) = console d ++ messages tr
  ∧ preloader (document p) = preloader d && bool_decide (count is_load tr = 0%nat).
Proof.
  revert p. induction tr as [|e tr IH] using rev_ind; intros p R.
  - injection R as <-. cbn. rewrite app_nil_r. split; [done|].
    by rewrite andb_true_r.
  - apply run_snoc in R as (q & Rq & S). destruct (IH q Rq) as [Hc Hp].
    pose proof (run_coalesced _ _ _ (coalesced_fresh d t0) Rq) as Hq.
    rewrite messages_app, count_app. revert S. unfold step.
    destruct (_ <? _); [done|]. destruct e as [t|t w|t id].
    + intros [= <-]. rewrite count_singleton. cbn [is_load]. split.
      * cbn. rewrite Hc. by rewrite <- !(assoc_L (++)).
      * rewrite bool_decide_eq_false_2 by lia. by rewrite andb_false_r.
    + intros [= <-]. rewrite count_singleton. cbn [is_load].
      rewrite Nat.add_0_r. cbn [messages mbind list_bind is_load]. rewrite app_nil_r.
      by destruct (listening q).
    + destruct (Timers.due t id (timers q)) as [cb|] eqn:D; [|done]. intros [= <-].
      destruct (due_after_call _ _ _ _ _ _ _ Rq D) as [-> _].
      rewrite count_singleton. cbn [is_load].
      rewrite Nat.add_0_r. cbn [messages mbind list_bind is_load document].
      rewrite app_nil_r. unfold handleScroll_body.
      by destruct (scrollTopButton (document q)).
Qed.

Lemma console_and_preloader_witness :
  ∃ p, run [ScrollTo 5 (at_offset 150); Load 10; ScrollTo 30 (at_offset 300); Timer 130 2]
           (fresh example_dom 0) = Some p
     ∧ console (document p) = load_messages
     ∧ preloader (document p) = false.
Proof.
  eexists. split; [reflexivity|].
  exact (console_and_preloader example_dom 0
           [ScrollTo 5 (at_offset 150); Load 10; ScrollTo 30 (at_offset 300); Timer 130 2]
           _ eq_refl).
Defined.

End ScrollFurther.

Section LazyLoadFurther.
Import LazyLoad.

Lemma load_all_length l st :
  length (images (foldl (λ st i, load i st) st l)) = length (images st)
  ∧ removals (foldl (λ st i, load i st) st l) = removals st ++ l.
Proof.
  revert st. induction l as [|j l IH]; intros st; cbn [foldl].
  - by rewrite app_nil_r.
  - destruct (IH (load j st)) as [H1 H2]. rewrite H1, H2. cbn [load images removals].
    rewrite length_alter. split; [done|]. by rewrite <- (assoc_L (++)).
Qed.

Lemma is_lazy_resolve im : is_lazy (resolve im) = false.
Proof. done. Qed.

(** Without intersection detection no image is left deferred after start-up,
    so running the loader again finds nothing to do: it changes no image and
    removes no attribute a second time. *)
Theorem fallback_leaves_nothing_deferred (st : state) :
  lazyImages (images (lazyLoadImages false st)) = []
  ∧ lazyLoadImages false (lazyLoadImages false st) = lazyLoadImages false st.
Proof.
  assert (lazyImages (images (lazyLoadImages false st)) = []) as Hnone.
  { apply elem_of_nil_inv. intros i (im' & Hi & Hl)%elem_of_lazyImages.
    unfold lazyLoadImages in Hi.
    destruct (load_all i (lazyImages (images st)) st (NoDup_lazyImages _)) as (H1 & _).
    rewrite H1 in Hi. destruct (decide (i ∈ lazyImages (images st))) as [Hin|Hout].
    - destruct (images st !! i) as [im|]; [|done]. injection Hi as <-.
      by rewrite is_lazy_resolve in Hl.
    - apply Hout, elem_of_lazyImages. eauto. }
  split; [exact Hnone|].
  unfold lazyLoadImages at 1. by rewrite Hnone.
Qed.

Lemma deliver_unobserved i batches st st' :
  i ∉ observed st → deliver batches st = Some st' →
  images st' !! i = images st !! i
  ∧ removal_count i st' = removal_count i st
  ∧ i ∉ observed st'.
Proof.
  revert st. induction batches as [|b rest IH]; intros st H; cbn [deliver].
  - by intros [= <-].
  - destruct (decide (deliverable b st)) as [[Hobs _]|]; [|done]. intros D.
    destruct (imageObserver_other i b st) as (H4 & H5 & H6).
    { unfold intersecting. intros (e & -> & He)%list_elem_of_fmap.
      apply list_elem_of_filter in He as [_ He].
      rewrite Forall_forall in Hobs. by apply Hobs in He. }
    destruct (IH (imageObserver b st)) as (H7 & H8 & H9); [by rewrite H5|done|].
    by rewrite H7, H8, H4, H6.
Qed.

(** An image without the data-src attribute is never touched: not at
    start-up, with or without intersection detection, and not by anything
    the observer's callback does later; it is never observed and no
    attribute of it is removed. *)
Theorem undeferred_images_untouched (imgs : list img) (i : nat) (im : img) :
  imgs !! i = Some im →
  data_src im = None →
  images (lazyLoadImages false (initial imgs)) !! i = Some im
  ∧ removal_count i (lazyLoadImages false (initial imgs)) = 0
  ∧ ∀ batches st,
      deliver batches (lazyLoadImages true (initial imgs)) = Some st →
      images st !! i = Some im ∧ removal_count i st = 0 ∧ i ∉ observed st.
Proof.
  intros Hi Hs.
  assert (i ∉ lazyImages imgs) as Hout.
  { intros (im' & Hi' & Hl)%elem_of_lazyImages. rewrite Hi in Hi'. injection Hi' as <-.
    unfold is_lazy in Hl. by rewrite Hs in Hl. }
  destruct (load_all i (lazyImages imgs) (initial imgs) (NoDup_lazyImages imgs))
    as (L1 & L2 & _).
  destruct (decide (i ∈ lazyImages imgs)) as [?|_]; [done|].
  destruct (observe_all (lazyImages imgs) (initial imgs)) as (O1 & O2 & O3).
  split_and!.
  - unfold lazyLoadImages. cbn [images initial] in *. by rewrite L1.
  - unfold lazyLoadImages. cbn [images initial] in *. by rewrite L2.
  - intros batches st D.
    assert (i ∉ observed (lazyLoadImages true (initial imgs))) as Hobs.
    { unfold lazyLoadImages. cbn [images initial]. rewrite O3. cbn.
      intros [H|H]; [by apply not_elem_of_empty in H|done]. }
    destruct (deliver_unobserved i batches _ st Hobs D) as (H1 & H2 & H3).
    rewrite H1, H2. unfold lazyLoadImages, removal_count. cbn [images initial].
    rewrite O1, O2. by split_and!.
Qed.

Lemma undeferred_images_untouched_witness :
  images (lazyLoadImages false (initial example_images)) !! 2%nat
  = Some {| src := Some "logo.png"; srcset := None;
            data_src := None; data_srcset := None |}.
Proof.
  exact (proj1 (undeferred_images_untouched example_images 2 _ eq_refl eq_refl)).
Defined.

End LazyLoadFurther.

Section ClickFurther.
Import Grid Click.
Context {item : Type}.
Implicit Types (bs : list (block item)) (blk : block item) (g : grid item).
Implicit Types (pg : page item).

(** A click, block by block. *)
Lemma click_lookup k j pg pg' i :
  click k j pg = Some pg' →
  has_Isotope pg' = has_Isotope pg ∧ delegated pg' = delegated pg
  ∧ blocks pg' !! i = click_block (read k j pg) k j i <$> (blocks pg !! i).
Proof.
  unfold click. destruct (blocks pg !! k) as [blk|] eqn:Hk; [|done].
  destruct (target_li k j (blocks pg)) as [tgt|] eqn:Ht; [|done].
  intros [= <-]. cbn [has_Isotope delegated blocks]. split; [done|]. split; [done|].
  unfold click_block, read. cbn [value bar_applies body_applies rearranged].
  rewrite Hk. cbn [fmap option_fmap option_map default].
  set (bs1 := if wired blk then bar_listener k j (blocks pg) else blocks pg).
  assert (skeleton <$> bs1 = skeleton <$> blocks pg) as Hsk.
  { subst bs1. destruct (wired blk); [apply skeleton_bar_listener|done]. }
  assert (bs1 !! i = (if wired blk && bool_decide (k = i)
                      then activated j (filter_value k j (blocks pg)) else id)
                       <$> (blocks pg !! i)) as H1.
  { subst bs1. destruct (wired blk); cbn [andb].
    - unfold bar_listener. rewrite list_lookup_alter.
      destruct (decide (k = i)) as [->|Hne].
      + by rewrite bool_decide_eq_true_2.
      + rewrite bool_decide_eq_false_2 by done. by destruct (blocks pg !! i).
    - by destruct (blocks pg !! i). }
  destruct (delegated pg); cbn [andb].
  - rewrite body_listener_delegate.
    rewrite (skeleton_portfolio _ _ k Hsk), (skeleton_first_container _ _ Hsk),
      (skeleton_filter_value _ _ k j Hsk).
    destruct (default false _).
    + rewrite lookup_delegate, H1. destruct (blocks pg !! i) as [x|]; [|done].
      cbn. by destruct (wired blk && bool_decide (k = i)).
    + rewrite H1. destruct (blocks pg !! i) as [x|]; [|done].
      cbn. by destruct (wired blk && bool_decide (k = i)).
  - rewrite H1. destruct (blocks pg !! i) as [x|]; [|done].
    cbn. by destruct (wired blk && bool_decide (k = i)).
Qed.

Lemma skeleton_delegate_block c v k j i blk :
  skeleton (delegate_block c v k j i blk) = skeleton blk.
Proof.
  unfold delegate_block. cbn zeta.
  destruct (decide (c = Some i)), (decide (k = i));
    rewrite ?skeleton_set_grid_arrange, ?skeleton_set_lis_mark;
    apply skeleton_clear_portfolio.
Qed.

Lemma skeleton_click_block r k j i blk : skeleton (click_block r k j i blk) = skeleton blk.
Proof.
  unfold click_block. cbn zeta.
  destruct (body_applies r), (bar_applies r && bool_decide (k = i));
    rewrite ?skeleton_delegate_block, ?skeleton_activated; done.
Qed.

Lemma container_set_lis (f : list li → list li) blk :
  container (set_lis f blk) = container blk.
Proof. done. Qed.

Lemma container_clear_portfolio blk : container (clear_portfolio blk) = container blk.
Proof.
  unfold clear_portfolio. destruct (filtersElem blk) as [b|]; [|done].
  by destruct (in_portfolio_filters b).
Qed.

Lemma container_activated j v blk :
  container (activated j v blk) = arrange v <$> container blk.
Proof. done. Qed.

Lemma container_delegate_block c v k j i blk :
  container (delegate_block c v k j i blk)
  = if bool_decide (c = Some i) then arrange v <$> container blk else container blk.
Proof.
  unfold delegate_block. cbn zeta. case_bool_decide as Hc.
  - rewrite decide_True by done. cbn [set_grid container].
    destruct (decide (k = i));
      by rewrite ?container_set_lis, container_clear_portfolio.
  - rewrite decide_False by done.
    destruct (decide (k = i));
      by rewrite ?container_set_lis, container_clear_portfolio.
Qed.

Lemma container_click_block r k j i blk :
  container (click_block r k j i blk)
  = if (bar_applies r && bool_decide (k = i))
       || (body_applies r && bool_decide (rearranged r = Some i))
    then arrange (value r) <$> container blk
    else container blk.
Proof.
  unfold click_block. cbn zeta.
  destruct (bar_applies r && bool_decide (k = i)); cbn [orb];
    destruct (body_applies r); cbn [andb];
    rewrite ?container_delegate_block, ?container_activated; try done.
  destruct (bool_decide _); [|done].
  destruct (container blk) as [g|]; [|done]. cbn. by rewrite arrange_arrange.
Qed.

(** A click changes classes and filters and nothing else: every block keeps
    its bar's selectors, the filter values of its controls, its listener, and
    its container if it has one; no instance is created or destroyed, and a
    container keeps its items, its data markers, and the layout, sort key and
    item selector of its instance. *)
Theorem click_changes_only_classes_and_filters k j pg pg' :
  click k j pg = Some pg' →
  has_Isotope pg' = has_Isotope pg
  ∧ delegated pg' = delegated pg
  ∧ skeleton <$> blocks pg' = skeleton <$> blocks pg
  ∧ ∀ i blk' g',
      blocks pg' !! i = Some blk' → container blk' = Some g' →
      ∃ blk g, blocks pg !! i = Some blk ∧ container blk = Some g
        ∧ items g' = items g
        ∧ created g' = created g
        ∧ (data_layout g', data_default_filter g', data_sort g')
          = (data_layout g, data_default_filter g, data_sort g)
        ∧ ((λ o, (itemSelector o, layoutMode o, sortBy o)) <$> instance g')
          = ((λ o, (itemSelector o, layoutMode o, sortBy o)) <$> instance g).
Proof.
  intros Hc. destruct (click_lookup k j pg pg' 0 Hc) as (H1 & H2 & _).
  split; [done|]. split; [done|]. split.
  - apply list_eq. intros i. rewrite !list_lookup_fmap.
    destruct (click_lookup k j pg pg' i Hc) as (_ & _ & ->).
    destruct (blocks pg !! i) as [blk|]; [|done]. cbn. by rewrite skeleton_click_block.
  - intros i blk' g' Hi Hg'.
    destruct (click_lookup k j pg pg' i Hc) as (_ & _ & Hl). rewrite Hl in Hi.
    destruct (blocks pg !! i) as [blk|]; [|done]. injection Hi as <-.
    rewrite container_click_block in Hg'.
    destruct (container blk) as [g|] eqn:Hg; [|by destruct (_ || _)].
    exists blk, g. split; [done|]. split; [done|].
    destruct (_ || _); injection Hg' as <-; [|done].
    unfold arrange. cbn. split_and!; try done. by destruct (instance g).
Qed.

(** Which grids a click re-arranges: the grid of the clicked bar when the
    bar's own listener is attached, and the first grid container of the
    document when the body's listener applies and Isotope is defined,
    whichever bar was clicked; every other container is left as it is. *)
Theorem click_rearranges_own_and_first_container k j pg pg' i blk :
  click k j pg = Some pg' →
  blocks pg !! i = Some blk →
  ∃ blk', blocks pg' !! i = Some blk'
    ∧ container blk'
      = if (bar_applies (read k j pg) && bool_decide (k = i))
           || (body_applies (read k j pg)
               && bool_decide (rearranged (read k j pg) = Some i))
        then arrange (value (read k j pg)) <$> container blk
        else container blk.
Proof.
  intros Hc Hi. destruct (click_lookup k j pg pg' i Hc) as (_ & _ & Hl).
  rewrite Hi in Hl. eexists. split; [exact Hl|]. apply container_click_block.
Qed.

Lemma filtersElem_delegate_block c v k j i blk :
  filtersElem (delegate_block c v k j i blk)
  = filtersElem (if decide (k = i)
                 then set_lis (mark_active j) (clear_portfolio blk)
                 else clear_portfolio blk).
Proof.
  unfold delegate_block. cbn zeta.
  by destruct (decide (c = Some i)), (decide (k = i)).
Qed.

(** When the body's listener applies, the click clears the class from the
    controls of every bar matching .portfolio-filters in the whole document:
    afterwards the clicked control is the only one of them that carries it. *)
Theorem click_clears_every_portfolio_bar k j pg pg' i blk' b' j' l :
  click k j pg = Some pg' →
  body_applies (read k j pg) = true →
  blocks pg' !! i = Some blk' →
  filtersElem blk' = Some b' →
  in_portfolio_filters b' = true →
  lis b' !! j' = Some l →
  is_filter_active l = true →
  i = k ∧ j' = j.
Proof.
  intros Hc Hbody Hi Hb' Hp Hj' Hact.
  destruct (click_lookup k j pg pg' i Hc) as (_ & _ & Hl). rewrite Hi in Hl.
  destruct (blocks pg !! i) as [blk|]; [|done]. injection Hl as ->.
  revert Hb'. unfold click_block. cbn zeta. rewrite Hbody.
  set (blk1 := if bar_applies (read k j pg) && bool_decide (k = i)
               then activated j (value (read k j pg)) blk else blk).
  rewrite filtersElem_delegate_block.
  unfold clear_portfolio.
  destruct (filtersElem blk1) as [[f1 f2 ls]|] eqn:E1.
  - destruct f2; cbn [in_portfolio_filters].
    + destruct (decide (k = i)) as [->|Hne]; unfold set_lis; cbn; rewrite E1; cbn;
        intros [= <-]; cbn in Hj'.
      * by destruct (mark_clear_active j ls j' l Hj') as [Hiff _]; apply Hiff in Hact.
      * rewrite lookup_clear_active in Hj'. destruct (ls !! j') as [x|]; [|done].
        injection Hj' as <-. unfold is_filter_active in Hact. cbn in Hact.
        by rewrite contains_remove in Hact.
    + destruct (decide (k = i)) as [->|Hne]; unfold set_lis; cbn; rewrite ?E1; cbn;
        intros [= <-]; done.
  - destruct (decide (k = i)); unfold set_lis; cbn; by rewrite ?E1.
Qed.

End ClickFurther.

Section ClickExamples.
Import Grid Click.

Lemma click_changes_only_classes_and_filters_witness :
  ∃ pg', click 0 1 (init_isotope example_page) = Some pg'
       ∧ skeleton <$> blocks pg' = skeleton <$> blocks (init_isotope example_page).
Proof.
  eexists. split; [reflexivity|].
  exact (proj1 (proj2 (proj2 (click_changes_only_classes_and_filters
                                0 1 (init_isotope example_page) _ eq_refl)))).
Defined.

Lemma click_rearranges_own_and_first_container_witness :
  ∃ pg' blk', click 1 1 (init_isotope TwoGrids.page0) = Some pg'
    ∧ blocks pg' !! 0%nat = Some blk'
    ∧ (λ g, filter <$> instance g) <$> container blk'
      = Some (Some (Some ".filter-logo")).
Proof.
  destruct (click_rearranges_own_and_first_container 1 1
              (init_isotope TwoGrids.page0) _ 0 _ eq_refl eq_refl)
    as (blk' & Hi & Hc).
  eexists _, blk'. split; [reflexivity|]. split; [exact Hi|]. by rewrite Hc.
Defined.

Lemma click_clears_every_portfolio_bar_witness :
  ∃ pg' blk' b' l, click 1 1 (init_isotope TwoGrids.page0) = Some pg'
    ∧ blocks pg' !! 1%nat = Some blk'
    ∧ filtersElem blk' = Some b'
    ∧ lis b' !! 1%nat = Some l
    ∧ is_filter_active l = true
    ∧ (1 = 1 ∧ 1 = 1)%nat.
Proof.
  eexists _, _, _, _. split; [reflexivity|]. split; [reflexivity|].
  split; [reflexivity|]. split; [reflexivity|]. split; [reflexivity|].
  exact (click_clears_every_portfolio_bar 1 1 (init_isotope TwoGrids.page0) _ 1 _ _ 1 _
           eq_refl eq_refl eq_refl eq_refl eq_refl eq_refl eq_refl).
Defined.

End ClickExamples.

Section DelegationClaims.
Import Grid Click.






End DelegationClaims.

Section ReadyFurther.
Import Eff Ready Outcome.
Context {item : Type}.
Implicit Types (p : Ready.page item).

Lemma spec_ok_preserves {S A X} (f : S → X) (x : X) (P Q : Prop) (m : M S A) :
  preserves f m →
  (∀ s a, f s = x → (m s).1 = Ok a → P → Q) →
  spec (λ s, f s = x ∧ P) m (λ s, f s = x ∧ Q) (λ _, True).
Proof.
  intros Hp Hq s [Hx HP]. specialize (Hp s). specialize (Hq s).
  destruct (m s) as [[a|e] s']; cbn in *; [|done].
  split; [congruence|]. by eapply Hq.
Qed.

Lemma preserves_guards_activateNavmenuLink :
  preserves (guards (item := item)) activateNavmenuLink.
Proof.
  intros p. unfold activateNavmenuLink, guards.
  pose proof (activateNavmenuLink_hrefs (nav p)) as H.
  destruct (Navmenu.activateNavmenuLink (nav p)) as [n e]. cbn in *. by rewrite H.
Qed.

Ltac unfold_steps :=
  unfold print, lazyLoadImages, optimizeFontLoading, setupEventDelegation,
    init_AOS, init_Typed, init_PureCounter, init_GLightbox, init_Swiper,
    init_Isotope, smooth_scroll, wire_header_toggle, wire_navmenu, invoke.

Ltac frame_step :=
  first
    [ apply preserves_bind; [|intros ?]
    | apply preserves_gets
    | apply preserves_ret
    | apply preserves_throw
    | apply preserves_when
    | apply preserves_forEach; intros ?
    | apply preserves_modify; intros ?; reflexivity
    | match goal with |- preserves _ (match ?x with _ => _ end) => destruct x end ].

Ltac preserves_guards :=
  unfold_steps; repeat frame_step;
  try (let q := fresh "q" in
       apply preserves_modify; intros q; unfold guards; cbn;
       by destruct (headerToggle q), (header q));
  try apply preserves_guards_activateNavmenuLink.

Lemma init_Typed_ok p a :
  (init_Typed p).1 = Ok a → has_Typed (env p) = true → typed p ≠ Some None.
Proof.
  unfold init_Typed, gets, when, mbind, M_bind. cbn. intros H Ht Hn.
  rewrite Ht, Hn in H. done.
Qed.

Lemma forEach_swipers_ok (els : list swiper_el) p a :
  (forEach (λ swiperElement,
      match swiperElement with
      | NoConfig => throw (JS.TypeError "null has no property innerHTML")
      | Config html is_json =>
          if is_json then invoke (New_Swiper html)
          else throw (JS.SyntaxError "JSON.parse")
      end) els p).1 = Ok a →
  Forall (λ el, ∃ html, el = Config html true) els.
Proof.
  revert p. induction els as [|el els IH]; intros p H; [constructor|].
  cbn [forEach] in H. unfold mbind, M_bind in H.
  destruct el as [|html [|]]; [done| |done].
  constructor; [by eexists|]. exact (IH _ H).
Qed.

Lemma init_Swiper_ok p a :
  (init_Swiper p).1 = Ok a → has_Swiper (env p) = true →
  Forall (λ el, ∃ html, el = Config html true) (swipers p).
Proof.
  unfold init_Swiper, gets, when, mbind at 1, M_bind at 1. cbn [fst snd].
  intros H Hs. rewrite Hs in H. unfold mbind at 1, M_bind at 1 in H.
  by eapply forEach_swipers_ok.
Qed.

Lemma smooth_scroll_ok p a :
  (smooth_scroll p).1 = Ok a → hash p ≠ "" → hash_target p ≠ InvalidSelector.
Proof.
  unfold smooth_scroll, gets, when, mbind, M_bind. cbn. intros H Hh Hn.
  rewrite bool_decide_eq_false_2 in H by done. cbn in H. by rewrite Hn in H.
Qed.

Lemma forEach_ok_hrefs cur (ls : list Navmenu.link) :
  (Dom.forEach (Navmenu.activate_link cur) ls).2 = None → Navmenu.hrefs_present ls.
Proof.
  induction ls as [|l ls IH]; intros H; [constructor|].
  cbn [Dom.forEach] in H. unfold Navmenu.activate_link in H.
  destruct (Navmenu.href l) as [h|] eqn:Eh; [|done].
  constructor; [by rewrite Eh|]. apply IH.
  destruct (bool_decide _) in H; by destruct (Dom.forEach _ ls).
Qed.

Lemma wire_navmenu_ok p a :
  (wire_navmenu p).1 = Ok a → Navmenu.hrefs_present (Navmenu.navmenuLinks (nav p)).
Proof.
  unfold wire_navmenu, modify, mbind, M_bind, activateNavmenuLink. cbn.
  unfold Navmenu.activateNavmenuLink. intros H.
  apply (forEach_ok_hrefs
           (Navmenu.currentActive (Navmenu.scrollY (nav p)) (Navmenu.sections (nav p)))).
  by destruct (Dom.forEach _ _) as [ls [e|]].
Qed.

(** The listener runs to its end exactly on the pages where none of its four
    unguarded reads can fail: a page that is not safe makes it throw, a safe
    one never does. *)
Theorem domContentLoaded_returns_iff_safe p :
  (domContentLoaded p).1 = Ok tt ↔ safe p.
Proof.
  split; [|by apply domContentLoaded_returns].
  set (x := guards p).
  set (C1 := has_Typed (env p) = true → typed p ≠ Some None).
  set (C2 := has_Swiper (env p) = true →
             Forall (λ el, ∃ html, el = Config html true) (swipers p)).
  set (C3 := hash p ≠ "" → hash_target p ≠ InvalidSelector).
  assert (spec (λ s : Ready.page item, guards s = x ∧ True) domContentLoaded
               (λ s, guards s = x ∧ safe p) (λ _, True)) as H.
  { unfold domContentLoaded.
    eapply spec_bind; [apply (spec_ok_preserves _ _ True True);
      [preserves_guards|done]|intros _].
    eapply spec_bind; [apply (spec_ok_preserves _ _ True True);
      [preserves_guards|done]|intros _].
    eapply spec_bind; [apply (spec_ok_preserves _ _ True True);
      [preserves_guards|done]|intros _].
    eapply spec_bind; [apply (spec_ok_preserves _ _ True True);
      [preserves_guards|done]|intros _].
    eapply spec_bind; [apply (spec_ok_preserves _ _ True True);
      [preserves_guards|done]|intros _].
    eapply spec_bind; [apply (spec_ok_preserves _ _ True C1);
      [preserves_guards|]|intros _].
    { intros s a Hx Hok _ Ht. unfold x, guards in Hx.
      injection Hx as E1 E2 E3 E4 E5 E6 E7. rewrite <- E1 in Ht. rewrite <- E3.
      by eapply init_Typed_ok. }
    eapply spec_bind; [apply (spec_ok_preserves _ _ C1 C1);
      [preserves_guards|done]|intros _].
    eapply spec_bind; [apply (spec_ok_preserves _ _ C1 C1);
      [preserves_guards|done]|intros _].
    eapply spec_bind; [apply (spec_ok_preserves _ _ C1 (C1 ∧ C2));
      [preserves_guards|]|intros _].
    { intros s a Hx Hok H1. split; [done|]. intros Hs. unfold x, guards in Hx.
      injection Hx as E1 E2 E3 E4 E5 E6 E7. rewrite <- E2 in Hs. rewrite <- E4.
      by eapply init_Swiper_ok. }
    eapply spec_bind; [apply (spec_ok_preserves _ _ (C1 ∧ C2) (C1 ∧ C2));
      [preserves_guards|done]|intros _].
    eapply spec_bind; [apply (spec_ok_preserves _ _ (C1 ∧ C2) (C1 ∧ C2 ∧ C3));
      [preserves_guards|]|intros _].
    { intros s a Hx Hok [H1 H2]. split_and!; [done|done|]. intros Hh.
      unfold x, guards in Hx.
      injection Hx as E1 E2 E3 E4 E5 E6 E7. rewrite <- E5 in Hh. rewrite <- E6.
      by eapply smooth_scroll_ok. }
    eapply spec_bind; [apply (spec_ok_preserves _ _ (C1 ∧ C2 ∧ C3) (C1 ∧ C2 ∧ C3));
      [preserves_guards|done]|intros _].
    apply (spec_ok_preserves _ _ (C1 ∧ C2 ∧ C3) (safe p)); [preserves_guards|].
    intros s a Hx Hok (H1 & H2 & H3). split_and!; [done|done|done|].
    unfold x, guards in Hx. injection Hx as E1 E2 E3 E4 E5 E6 E7.
    eapply hrefs_present_fmap; [symmetry; exact E7|]. by eapply wire_navmenu_ok. }
  intros Hok. specialize (H p (conj eq_refl I)).
  destruct (domContentLoaded p) as [[[]|e] p']; [apply H|done].
Qed.

Lemma bind_ok {S A B} (m : M S A) (k : A → M S B) s a s' :
  m s = (Ok a, s') → (m ≫= k) s = k a s'.
Proof. intros E. unfold mbind, M_bind. by rewrite E. Qed.

Lemma bind_throw {S A B} (m : M S A) (k : A → M S B) s e s' :
  m s = (Throw e, s') → (m ≫= k) s = (Throw e, s').
Proof. intros E. unfold mbind, M_bind. by rewrite E. Qed.

(** Whatever happens later in the listener, the images were handed to the
    lazy loader and the body's click listener is attached: both come before
    the first place that can throw. *)
Theorem images_and_delegation_survive_abort p :
  lazy (domContentLoaded p).2
  = LazyLoad.lazyLoadImages (has_IntersectionObserver (env p)) (lazy p)
  ∧ Grid.delegated (grids (domContentLoaded p).2) = true.
Proof.
  split.
  - rewrite domContentLoaded_split.
    assert (preserves (lazy (item := item)) ready_rest) as H.
    { unfold ready_rest. unfold_steps. repeat frame_step.
      - apply preserves_modify. intros q. cbn. by destruct (headerToggle q), (header q).
      - intros q. unfold activateNavmenuLink.
        by destruct (Navmenu.activateNavmenuLink (nav q)). }
    rewrite H. destruct p as [e ? ? ? ? ? ? ? ? ? ? ? ? ? ?].
    destruct e as [io ffo aos t pc gl sw]. by destruct ffo.
  - rewrite domContentLoaded_split. unfold ready_rest.
    erewrite bind_ok by reflexivity.
    assert (preserves (λ q : Ready.page item, Grid.delegated (grids q))
              (init_AOS ;; init_Typed ;; init_PureCounter ;; init_GLightbox ;;
               init_Swiper ;; init_Isotope ;; smooth_scroll ;;
               wire_header_toggle ;; wire_navmenu)) as H.
    { unfold_steps. repeat frame_step.
      - apply preserves_modify. intros q. cbn. unfold Grid.init_isotope.
        by destruct (Grid.has_Isotope (grids q)).
      - apply preserves_modify. intros q. cbn. by destruct (headerToggle q), (header q).
      - intros q. unfold activateNavmenuLink.
        by destruct (Navmenu.activateNavmenuLink (nav q)). }
    by rewrite H.
Qed.

(** One step of a sequence that returns: the state it leaves is computed
    and the sequence continues from it. *)
Ltac run_step :=
  lazymatch goal with
  | |- context [(?m ≫= ?k) ?s] =>
      let r := eval cbv [mbind M_bind mret M_ret gets modify when print invoke
                         Ready.lazyLoadImages optimizeFontLoading
                         setupEventDelegation init_AOS init_Typed
                         init_PureCounter init_GLightbox
                         set_console set_calls set_lazy set_grids
                         env console calls root_classes lazy typed swipers
                         grids hash hash_target headerToggle header
                         header_wired nav nav_wired
                         has_IntersectionObserver has_FontFaceObserver has_AOS
                         has_Typed has_PureCounter has_GLightbox has_Swiper
                         Grid.blocks Grid.has_Isotope Grid.delegated]
                 in (m s) in
      lazymatch r with
      | (Ok ?a, ?s') => rewrite (bind_ok m k s a s' eq_refl); cbv beta
      end
  end.

Lemma forEach_swipers_abort (pre post : list swiper_el) bad p :
  Forall (λ el, ∃ html, el = Config html true) pre →
  (∀ html, bad ≠ Config html true) →
  ∃ p', forEach (λ swiperElement,
          match swiperElement with
          | NoConfig => throw (JS.TypeError "null has no property innerHTML")
          | Config html is_json =>
              if is_json then invoke (New_Swiper html)
              else throw (JS.SyntaxError "JSON.parse")
          end) (pre ++ bad :: post) p = (Throw (slider_error bad), p')
      ∧ calls p' = calls p ++ (New_Swiper <$> omap config_of pre)
      ∧ late_view p' = late_view p.
Proof.
  intros Hpre Hbad. revert p. induction Hpre as [|el pre [html ->] _ IH]; intros p.
  - exists p. cbn [app forEach omap list_omap fmap list_fmap].
    rewrite app_nil_r. split; [|done].
    destruct bad as [|html [|]]; [done|by destruct (Hbad html)|done].
  - destruct (IH (invoke (New_Swiper html) p).2) as (p' & E & Hc & Hl).
    exists p'. split; [|split].
    + cbn [app forEach]. erewrite bind_ok by reflexivity. exact E.
    + rewrite Hc. cbn. by rewrite <- app_assoc.
    + by rewrite Hl.
Qed.

(** A slider that cannot be created stops the listener at line 260: the
    sliders before it have been created, those after it have not, and
    nothing of lines 266-343 has run: no grid was initialised, the header
    toggle and the navigation highlighter are not wired, no smooth scroll
    was requested. *)
Theorem broken_slider_aborts_ready p (pre post : list swiper_el) bad :
  has_Swiper (env p) = true →
  (has_Typed (env p) = true → typed p ≠ Some None) →
  swipers p = pre ++ bad :: post →
  Forall (λ el, ∃ html, el = Config html true) pre →
  (∀ html, bad ≠ Config html true) →
  ∃ p', domContentLoaded p = (Throw (slider_error bad), p')
      ∧ calls p'
        = calls p
          ++ (if has_FontFaceObserver (env p)
              then [FontFaceObserver_load ["Roboto"; "Raleway"; "Poppins"]]
              else [])
          ++ (if has_AOS (env p) then [AOS_init] else [])
          ++ (if has_Typed (env p)
              then match typed p with
                   | Some (Some items) => [New_Typed (split_comma items)]
                   | _ => []
                   end
              else [])
          ++ (if has_PureCounter (env p) then [New_PureCounter] else [])
          ++ (if has_GLightbox (env p) then [GLightbox_init] else [])
          ++ (New_Swiper <$> omap config_of pre)
      ∧ late_view p' = late_view p.
Proof.
  intros Hsw Hty Hels Hpre Hbad.
  destruct p as [e co ca rc lz ty els gr ha ht tg hd hw nv nw].
  destruct e as [io ffo aos t pc gl sw]. cbn in Hsw, Hty, Hels. subst sw els.
  assert (∀ s0 : Ready.page item,
            has_Swiper (env s0) = true → swipers s0 = pre ++ bad :: post →
            ∃ p', init_Swiper s0 = (Throw (slider_error bad), p')
                ∧ calls p' = calls s0 ++ (New_Swiper <$> omap config_of pre)
                ∧ late_view p' = late_view s0) as Hstep.
  { intros s0 H1 H2.
    destruct (forEach_swipers_abort pre post bad s0 Hpre Hbad) as (p' & E & Hc & Hl).
    exists p'. split; [|done]. rewrite <- E, <- H2.
    unfold init_Swiper, gets, when. unfold mbind at 1, M_bind at 1. cbn [fst snd].
    rewrite H1. reflexivity. }
  assert (t = true → ty ≠ Some None) as Hty' by exact Hty. clear Hty.
  unfold domContentLoaded.
  destruct ffo, aos, pc, gl, t;
    try (destruct ty as [[items|]|]; [| by destruct Hty' |]);
    do 8 run_step;
    (match goal with
     | |- ∃ _, (init_Swiper ≫= _) ?s0 = _ ∧ _ =>
         destruct (Hstep s0 eq_refl eq_refl) as (p' & E & Hc & Hl)
     end);
    exists p'; (split; [by erewrite bind_throw by exact E|]);
    (split; [rewrite Hc; cbn; by rewrite <- ?app_assoc, ?app_nil_r|by rewrite Hl]).
Qed.

Lemma split_comma_cons s : ∃ h t, split_comma s = h :: t.
Proof.
  induction s as [|c r (h & t & IH)]; cbn; [by eexists _, _|].
  destruct (bool_decide _); [by eexists _, _|]. rewrite IH. by eexists _, _.
Qed.

Lemma join_comma_cons c h t :
  join_comma (String c h :: t) = String c (join_comma (h :: t)).
Proof. by destruct t. Qed.

Lemma join_split_comma s : join_comma (split_comma s) = s.
Proof.
  induction s as [|c r IH]; [done|]. cbn [split_comma].
  destruct (split_comma_cons r) as (h & t & E). rewrite E in IH |- *.
  destruct (bool_decide_reflect (c = ","%char)) as [->|_].
  - change (join_comma (EmptyString :: h :: t))
      with (String ","%char (join_comma (h :: t))). by rewrite IH.
  - by rewrite join_comma_cons, IH.
Qed.

Lemma split_comma_no_comma s : Forall (λ x, has_comma x = false) (split_comma s).
Proof.
  induction s as [|c r IH]; [by repeat constructor|]. cbn [split_comma].
  destruct (bool_decide_reflect (c = ","%char)) as [->|Hc].
  - by constructor.
  - destruct (split_comma_cons r) as (h & t & E). rewrite E in IH |- *.
    inversion IH as [|? ? Hh Ht]; subst. constructor; [|done].
    cbn. by rewrite bool_decide_eq_false_2.
Qed.

(** The strings handed to Typed are the data-typed-items attribute cut at
    its commas and nothing else: there is at least one, none contains a
    comma, and joined by commas they give the attribute back, so blanks
    around a comma and empty pieces are passed on as they are. *)
Theorem typed_strings_are_the_comma_pieces p items :
  has_Typed (env p) = true →
  typed p = Some (Some items) →
  ∃ l, (init_Typed p).1 = Ok tt
     ∧ calls (init_Typed p).2 = calls p ++ [New_Typed l]
     ∧ l ≠ []
     ∧ Forall (λ x, has_comma x = false) l
     ∧ join_comma l = items.
Proof.
  intros Ht Hi. exists (split_comma items).
  unfold init_Typed, gets, when, mbind, M_bind. cbn. rewrite Ht, Hi. cbn.
  split_and!; [done|done| |apply split_comma_no_comma|apply join_split_comma].
  by destruct (split_comma_cons items) as (h & t & ->).
Qed.

End ReadyFurther.

Section HeaderFurther.
Import Ready.
Context {item : Type}.

Lemma header_toggle_click_step (p : Ready.page item) t h :
  header_wired p = true → headerToggle p = Some t → header p = Some h →
  header_wired (header_toggle_click p) = true
  ∧ headerToggle (header_toggle_click p)
    = Some (ClassList.toggle "bi-x" (ClassList.toggle "bi-list" t))
  ∧ header (header_toggle_click p) = Some (ClassList.toggle "header-show" h).
Proof.
  intros W Ht Hh. unfold header_toggle_click. rewrite W. cbn. by rewrite ?W, ?Ht, ?Hh.
Qed.

(** The icon follows the menu: on a page where the toggle shows the close
    icon exactly when the header is shown and the list icon exactly when it
    is not, this stays so after any number of clicks; the header is shown
    after an odd number of clicks exactly when it was hidden before, and no
    other class of either element changes. *)
Theorem header_icon_follows_menu (n : nat) (p : Ready.page item) t h :
  header_wired p = true →
  headerToggle p = Some t →
  header p = Some h →
  ("bi-x" ∈ t ↔ "header-show" ∈ h) →
  ("bi-list" ∈ t ↔ "header-show" ∉ h) →
  ∃ t' h',
    headerToggle (Nat.iter n header_toggle_click p) = Some t'
    ∧ header (Nat.iter n header_toggle_click p) = Some h'
    ∧ ("bi-x" ∈ t' ↔ "header-show" ∈ h')
    ∧ ("bi-list" ∈ t' ↔ "header-show" ∉ h')
    ∧ (if Nat.even n then "header-show" ∈ h' ↔ "header-show" ∈ h
       else "header-show" ∈ h' ↔ "header-show" ∉ h)
    ∧ (∀ c, c ≠ "header-show" → c ∈ h' ↔ c ∈ h)
    ∧ (∀ c, c ≠ "bi-x" → c ≠ "bi-list" → c ∈ t' ↔ c ∈ t).
Proof.
  intros W Ht Hh Hx Hl.
  assert (∃ t' h',
    header_wired (Nat.iter n header_toggle_click p) = true
    ∧ headerToggle (Nat.iter n header_toggle_click p) = Some t'
    ∧ header (Nat.iter n header_toggle_click p) = Some h'
    ∧ ("bi-x" ∈ t' ↔ "header-show" ∈ h')
    ∧ ("bi-list" ∈ t' ↔ "header-show" ∉ h')
    ∧ (if Nat.even n then "header-show" ∈ h' ↔ "header-show" ∈ h
       else "header-show" ∈ h' ↔ "header-show" ∉ h)
    ∧ (∀ c, c ≠ "header-show" → c ∈ h' ↔ c ∈ h)
    ∧ (∀ c, c ≠ "bi-x" → c ≠ "bi-list" → c ∈ t' ↔ c ∈ t)) as H.
  { induction n as [|n (t1 & h1 & W1 & Ht1 & Hh1 & Hx1 & Hl1 & Hp1 & Ho1 & Hot1)].
    - exists t, h. cbn. split_and!; done.
    - destruct (header_toggle_click_step _ t1 h1 W1 Ht1 Hh1) as (W2 & Ht2 & Hh2).
      eexists _, _. rewrite Nat.iter_succ. split_and!; [exact W2|exact Ht2|exact Hh2|..].
      + repeat (rewrite elem_of_toggle || case_decide); try done.
        destruct (decide ("header-show" ∈ h1)); tauto.
      + repeat (rewrite elem_of_toggle || case_decide); try done.
        destruct (decide ("header-show" ∈ h1)); tauto.
      + rewrite Nat.even_succ, <- Nat.negb_even.
        destruct (Nat.even n); cbn [negb]; rewrite elem_of_toggle;
          (case_decide; [|done]); destruct (decide ("header-show" ∈ h)); tauto.
      + intros c Hc. rewrite elem_of_toggle. rewrite decide_False by done. by apply Ho1.
      + intros c Hc1 Hc2. rewrite elem_of_toggle, decide_False by done.
        rewrite elem_of_toggle, decide_False by done. by apply Hot1. }
  destruct H as (t' & h' & _ & H). by exists t', h'.
Qed.

End HeaderFurther.

Section ReadyExamples.
Import Eff Ready Outcome.

Lemma broken_slider_aborts_ready_witness :
  ∃ p', domContentLoaded broken_slider_page
        = (Throw (JS.TypeError "null has no property innerHTML"), p')
      ∧ calls p' = [ FontFaceObserver_load ["Roboto"; "Raleway"; "Poppins"]; AOS_init;
                     New_Typed ["Designer"; " Developer"]; New_PureCounter;
                     GLightbox_init; New_Swiper "{}" ]
      ∧ header_wired p' = false.
Proof.
  destruct (broken_slider_aborts_ready broken_slider_page
              [Config "{}" true] [Config "{}" true] NoConfig eq_refl)
    as (p' & E & Hc & Hl).
  - done.
  - reflexivity.
  - repeat constructor. by eexists.
  - done.
  - exists p'. split; [exact E|]. split; [exact Hc|].
    unfold late_view in Hl. by injection Hl.
Defined.

Lemma typed_strings_are_the_comma_pieces_witness :
  ∃ l, calls (init_Typed broken_slider_page).2 = [New_Typed l]
     ∧ join_comma l = "Designer, Developer".
Proof.
  destruct (typed_strings_are_the_comma_pieces broken_slider_page
              "Designer, Developer" eq_refl eq_refl) as (l & _ & Hc & _ & _ & Hj).
  by exists l.
Defined.

Lemma header_icon_follows_menu_witness :
  ∃ t' h',
    headerToggle (Nat.iter 3 header_toggle_click
                    (domContentLoaded (example_page no_globals false None)).2) = Some t'
    ∧ header (Nat.iter 3 header_toggle_click
                (domContentLoaded (example_page no_globals false None)).2) = Some h'
    ∧ ("bi-x" ∈ t' ↔ "header-show" ∈ h').
Proof.
  destruct (header_icon_follows_menu 3
              (domContentLoaded (example_page no_globals false None)).2
              ["header-toggle"; "bi-list"] ["header"] eq_refl eq_refl eq_refl)
    as (t' & h' & Ht & Hh & Hx & _).
  - split; intros H; by repeat (apply elem_of_cons in H as [H|H]; [done|]);
      apply elem_of_nil in H.
  - split; [intros _ H|intros _].
    + by repeat (apply elem_of_cons in H as [H|H]; [done|]); apply elem_of_nil in H.
    + by apply list_elem_of_further, list_elem_of_here.
  - by exists t', h'.
Defined.

End ReadyExamples.
